(** * INGRID: geometric primitives, the SF45 topology class, the root finder

    A shallow embedding of the parts of [geometry.py] and
    [Topologies/SF45.py] that the specification talks about, of the other
    methods of [Line], of [Vector], [calc_mid_point], [test2points],
    [intersect] and [psi_parameterize], and of the [RootFinder] class of
    [Root_Finder.py], followed by the properties established on them.

    Conventions of the embedding:
    - a Python call either returns a value or raises: [Py.result];
    - Python [int]s are [Z]; Python/NumPy floats are real numbers [R]
      (exact arithmetic), except in the module [Binary64], where the
      length of a Line is computed on binary64 numbers to show what
      rounding changes;
    - objects that the code mutates or shares (Lines, Patches) live in a
      store and are named by their address;
    - [print] calls that only trace values are left out; the warnings of
      [GetNpoints] are kept as an output log. *)

From Stdlib Require Import List ZArith Reals Lra Lia String Bool Arith.
From Stdlib Require Import DecimalString.
From Stdlib Require Floats.PrimFloat.
Import ListNotations.

(** ** Python outcomes, sequences and loops *)

Module Py.

Inductive exn : Type :=
| NameError (name : string)
| UnboundLocalError (name : string)
| ValueError (msg : string)
| KeyError
| IndexError
| AttributeError
| LinAlgError.

Inductive result (A : Type) : Type :=
| Ok (a : A)
| Raise (e : exn).

Arguments Ok {A} a.
Arguments Raise {A} e.

Definition bind {A B : Type} (c : result A) (k : A -> result B) : result B :=
  match c with
  | Ok a => k a
  | Raise e => Raise e
  end.

Notation "x <- c ;; k" := (bind c (fun x => k))
  (at level 61, c at next level, right associativity).
Notation "' pat <- c ;; k" := (bind c (fun x => match x with pat => k end))
  (at level 61, pat pattern, c at next level, right associativity).

(** [xs[i]] on a list or a 1-d array: a negative index counts from the end,
    anything outside [-len, len) raises [IndexError]. *)
Definition index {A : Type} (xs : list A) (i : Z) : result A :=
  let n := Z.of_nat (List.length xs) in
  let j := (if i <? 0 then i + n else i)%Z in
  if ((0 <=? j) && (j <? n))%Z then
    match nth_error xs (Z.to_nat j) with
    | Some a => Ok a
    | None => Raise IndexError
    end
  else Raise IndexError.

(** [xs[a:b]] with non-negative bounds: never raises, clips to the list. *)
Definition slice {A : Type} (xs : list A) (a b : nat) : list A :=
  firstn (b - a) (skipn a xs).

(** [range(a, b)]. *)
Definition range (a b : nat) : list nat := seq a (b - a).

(** [for x in xs: body], threading the variables the body assigns;
    the first exception leaves the loop. *)
Fixpoint for_ {S A : Type} (xs : list A) (body : A -> S -> result S) (s : S)
  : result S :=
  match xs with
  | [] => Ok s
  | a :: xs' =>
      match body a s with
      | Ok s' => for_ xs' body s'
      | Raise e => Raise e
      end
  end.

(** Reading a name: [env] holds the names bound in the enclosing function
    and module; an unbound name raises [NameError]. *)
Fixpoint load_name {V : Type} (env : list (string * V)) (name : string)
  : result V :=
  match env with
  | [] => Raise (NameError name)
  | (n, v) :: env' => if String.eqb n name then Ok v else load_name env' name
  end.

(** Values a name can be bound to, as far as the code below looks at
    them. *)
Inductive value : Type :=
| VInt (n : Z)
| VBool (b : bool)
| VObj.

Definition truthy (v : value) : bool :=
  match v with
  | VInt n => negb (n =? 0)%Z
  | VBool b => b
  | VObj => true
  end.

(** Dictionary lookup [d[k]] in an association list. *)
Fixpoint assoc {V : Type} (d : list (string * V)) (k : string) : option V :=
  match d with
  | [] => None
  | (k', v) :: d' => if String.eqb k' k then Some v else assoc d' k
  end.

End Py.

(** ** geometry.py *)

Module Geometry.
Import Py.
Open Scope R_scope.

Record Point : Type := mkPoint { x : R; y : R }.

(** [Line]: the attributes set by [__init__]. *)
Record Line : Type := mkLine {
  p : list Point;
  xval : list R;
  yval : list R;
  length : R
}.

(** One pass of the loop of [calc_length]: the distance between the points
    [i] and [i+1]. The loop keeps [i+1] below [len(self.p)]. The sum is
    exact here; [Binary64.calc_length] below is the same loop in binary64,
    where the order of the additions matters. *)
Definition segment (ps : list Point) (i : nat) : R :=
  let a := nth i ps (mkPoint 0 0) in
  let b := nth (S i) ps (mkPoint 0 0) in
  sqrt ((x b - x a) ^ 2 + (y b - y a) ^ 2).

Definition calc_length (ps : list Point) : R :=
  fold_left (fun l i => l + segment ps i) (range 0 (List.length ps - 1)) 0.

(** [Line.__init__]. *)
Definition Line_init (points : list Point) : Line :=
  mkLine points (map x points) (map y points) (calc_length points).

(** The Line objects alive, by address. *)
Definition heap : Type := list Line.

Definition alloc (h : heap) (l : Line) : heap * nat :=
  (h ++ [l], List.length h).

Fixpoint store (h : heap) (a : nat) (l : Line) : heap :=
  match h, a with
  | [], _ => []
  | _ :: h', O => l :: h'
  | l0 :: h', S a' => l0 :: store h' a' l
  end.

(** [Line.reverse]: overwrites [self.p] and returns [self]; the cached
    [xval], [yval] and [length] are left as they were. *)
Definition reverse (h : heap) (self : nat) : option (heap * nat) :=
  match nth_error h self with
  | Some l =>
      Some (store h self (mkLine (rev (p l)) (xval l) (yval l) (length l)),
            self)
  | None => None
  end.

(** [Line.reverse_copy]: [Line(self.p[::-1])]. *)
Definition reverse_copy (h : heap) (self : nat) : option (heap * nat) :=
  match nth_error h self with
  | Some l => Some (alloc h (Line_init (rev (p l))))
  | None => None
  end.

(** The message of the [ValueError] of [np.linspace]:
    ["Number of samples, %s, must be non-negative." % num]. *)
Definition samples_message (num : Z) : string :=
  ("Number of samples, " ++ NilEmpty.string_of_int (Z.to_int num)
   ++ ", must be non-negative.")%string.

(** [np.linspace(start, stop, num, endpoint=False)]: [num] samples
    [arange(0, num) * step + start] with [step = (stop - start) / num]. *)
Definition linspace (start stop : R) (num : Z) : result (list R) :=
  if (num <? 0)%Z then Raise (ValueError (samples_message num))
  else
    let step := (stop - start) / IZR num in
    Ok (map (fun k => INR k * step + start) (range 0 (Z.to_nat num))).

(** [Line.fluff]. *)
Definition fluff (self : Line) (num : Z) : result (list R * list R) :=
  '(x_fluff, y_fluff) <-
    for_ (range 0 (List.length (xval self) - 1))
      (fun i '(x_fluff, y_fluff) =>
         x0 <- index (xval self) (Z.of_nat i) ;;
         x1 <- index (xval self) (Z.of_nat i + 1) ;;
         xs <- linspace x0 x1 num ;;
         y0 <- index (yval self) (Z.of_nat i) ;;
         y1 <- index (yval self) (Z.of_nat i + 1) ;;
         ys <- linspace y0 y1 num ;;
         Ok (x_fluff ++ xs, y_fluff ++ ys))
      ([], []) ;;
  x_last <- index (xval self) (-1) ;;
  y_last <- index (yval self) (-1) ;;
  Ok (x_fluff ++ [x_last], y_fluff ++ [y_last]).

(** [np.linalg.solve] on a 2x2 system [[a b] [c d]] (s t) = (r0 r1):
    raises [LinAlgError] on a singular matrix, else returns the solution.
    The arithmetic is exact: singular means that the determinant is zero
    (LAPACK reports a matrix as singular when a pivot of its binary64
    elimination is zero, which rounding can cause or prevent). *)
Definition linalg_solve (a b c d r0 r1 : R) : result (R * R) :=
  let det := a * d - b * c in
  if Req_dec_T det 0 then Raise LinAlgError
  else Ok ((r0 * d - b * r1) / det, (a * r1 - r0 * c) / det).

Definition Rleb (a b : R) : bool := if Rle_dec a b then true else false.

(** [segment_intersect]. The value of a call that runs off the end of the
    function body is Python's [None], here [Ok None]. *)
Definition segment_intersect (line1 line2 : Line)
  : result (option (bool * (R * R))) :=
  xa <- index (xval line1) 0 ;;
  ya <- index (yval line1) 0 ;;
  xb <- index (xval line2) 0 ;;
  yb <- index (yval line2) 0 ;;
  xc <- index (xval line1) 1 ;;
  yc <- index (yval line1) 1 ;;
  xd <- index (xval line2) 1 ;;
  yd <- index (yval line2) 1 ;;
  sol <- linalg_solve (xb - xa) (- xd + xc) (yb - ya) (- yd + yc)
                      (xc - xa) (yc - ya) ;;
  if Rleb (fst sol) 1 && Rleb (snd sol) 1
     && Rleb 0 (fst sol) && Rleb 0 (snd sol)
  then Ok (Some (true, sol))
  else Ok None.

End Geometry.

(** ** Notions used to state the properties of geometry.py *)

Module GeometrySpec.
Import Geometry.
Open Scope R_scope.

(** The Euclidean distance of two points, and the length of a polyline by
    recursion on its points. *)
Definition dist (a b : Point) : R :=
  sqrt ((x b - x a) ^ 2 + (y b - y a) ^ 2).

Fixpoint path (ps : list Point) : R :=
  match ps with
  | a :: (b :: _) as t => dist a b + path t
  | _ => 0
  end.

(** The sample [k] of [num] on the straight segment from [a] to [b]. *)
Definition interp (a b : R) (num k : nat) : R :=
  a + INR k / INR num * (b - a).

(** Resampling of a coordinate sequence: every consecutive pair gives
    [num] samples, from the first of the pair (included) towards the second
    (excluded); the final coordinate closes the sequence. *)
Fixpoint samples (vs : list R) (num : nat) : list R :=
  match vs with
  | [] => []
  | a :: t =>
      match t with
      | [] => [a]
      | b :: _ => map (interp a b num) (seq 0 num) ++ samples t num
      end
  end.

(** The block that one pass of the loop of [fluff] appends. *)
Definition block (num : Z) (vs : list R) (i : nat) : list R :=
  map (fun k => INR k * ((nth (S i) vs 0 - nth i vs 0) / IZR num) + nth i vs 0)
      (seq 0 (Z.to_nat num)).

(** The two segments of the specification's example, the crossing
    diagonals of the unit square. *)
Definition diag1 : Line := Line_init [mkPoint 0 0; mkPoint 1 1].
Definition diag2 : Line := Line_init [mkPoint 0 1; mkPoint 1 0].

(** The parallel segments of the specification's example. *)
Definition par1 : Line := Line_init [mkPoint 0 0; mkPoint 1 0].
Definition par2 : Line := Line_init [mkPoint 0 1; mkPoint 1 1].

(** Two segments for which the system has the solution (2, 1/2). *)
Definition far1 : Line := Line_init [mkPoint 0 0; mkPoint 2 (-1)].
Definition far2 : Line := Line_init [mkPoint 1 0; mkPoint 2 1].

End GeometrySpec.

(** ** Topologies/SF45.py *)

Module SF45.
Import Py.
Import Geometry(Point, mkPoint).
Open Scope Z_scope.

(** The keys of a cell's [vertices] dictionary; the last four also name
    the corners of a patch. *)
Inductive coor : Type := CENTER | SW | SE | NW | NE.

Definition coor_eqb (a b : coor) : bool :=
  match a, b with
  | CENTER, CENTER | SW, SW | SE, SE | NW, NW | NE, NE => true
  | _, _ => false
  end.

Record Cell : Type := mkCell { vertices : coor -> Point }.

(** A patch object, with the attributes that the methods of [SF45] read
    and write: [npol] and [nrad] exist once [concat_grid] has set them;
    [tag] is what [get_tag()] returns; [corner] holds the four corner
    vertices that [adjust_corner] writes. *)
Record Patch : Type := mkPatch {
  patchName : string;
  tag : string;
  platePatch : bool;
  plateLocation : string;
  cell_grid : list (list Cell);
  npol : option Z;
  nrad : option Z;
  N_vertices : list Point;
  S_vertices : list Point;
  E_vertices : list Point;
  W_vertices : list Point;
  corner : coor -> Point
}.

Definition set_counts (P : Patch) (np nr : Z) : Patch :=
  mkPatch (patchName P) (tag P) (platePatch P) (plateLocation P) (cell_grid P)
          (Some np) (Some nr)
          (N_vertices P) (S_vertices P) (E_vertices P) (W_vertices P)
          (corner P).

Definition set_corner (P : Patch) (f : coor -> Point) : Patch :=
  mkPatch (patchName P) (tag P) (platePatch P) (plateLocation P) (cell_grid P)
          (npol P) (nrad P)
          (N_vertices P) (S_vertices P) (E_vertices P) (W_vertices P)
          f.

(** An entry of [patch_matrix]: the placeholder [[None]] or a patch
    object, given by its address. *)
Inductive entry : Type :=
| NoPatch
| PatchAt (a : nat).

(** A coordinate array of shape (poloidal, radial, 5). *)
Definition Array3 : Type := list (list (list R)).

(** The attributes of an [SF45] instance, and the patch objects it refers
    to ([objects], by address: the dictionary [patches] and the matrix
    [patch_matrix] may name the same object). [settings] is the nested
    configuration dictionary, read along a path of keys; [xpt1] and [xpt2]
    are [eq.NSEW_lookup['xpt1'|'xpt2']['coor']['center']]. *)
Record t : Type := mk {
  settings : list string -> option Z;
  patches : list (string * nat);
  patch_matrix : list (list entry);
  xpt1 : Point;
  xpt2 : Point;
  rm : option Array3;
  zm : option Array3;
  objects : nat -> Patch
}.

Definition put (h : nat -> Patch) (a : nat) (P : Patch) : nat -> Patch :=
  fun a' => if Nat.eqb a' a then P else h a'.

Definition with_objects (self : t) (h : nat -> Patch) : t :=
  mk (settings self) (patches self) (patch_matrix self) (xpt1 self)
     (xpt2 self) (rm self) (zm self) h.

Definition with_mesh (self : t) (r z : Array3) : t :=
  mk (settings self) (patches self) (patch_matrix self) (xpt1 self)
     (xpt2 self) (Some r) (Some z) (objects self).

(** The names bound at module level in SF45.py (its imports and the class
    itself). A name that a method reads without ever assigning it is looked
    up here; no builtin is called [Verbose] or [nr_cells]. *)
Definition module_globals : list (string * value) :=
  map (fun n => (n, VObj))
      ["np"; "matplotlib"; "pathlib"; "inspect"; "_yaml_"; "plt"; "Polygon";
       "Point"; "Line"; "Patch"; "segment_intersect"; "angle_between";
       "rotate"; "find_split_index"; "SF45"]%string.

(** *** concat_grid *)

Definition attr {A : Type} (o : option A) : result A :=
  match o with
  | Some v => Ok v
  | None => Raise AttributeError
  end.

(** [e.npol] and [e.nrad] for a matrix entry [e]: the list [[None]] has no
    such attribute. *)
Definition entry_npol (h : nat -> Patch) (e : entry) : result Z :=
  match e with
  | NoPatch => Raise AttributeError
  | PatchAt a => attr (npol (h a))
  end.

Definition entry_nrad (h : nat -> Patch) (e : entry) : result Z :=
  match e with
  | NoPatch => Raise AttributeError
  | PatchAt a => attr (nrad (h a))
  end.

(** The first loop: [patch.npol] and [patch.nrad] are set on every object
    of [self.patches]; the objects already updated stay so if a later one
    raises. *)
Fixpoint update_counts (h : nat -> Patch) (vals : list nat)
  : (nat -> Patch) * result unit :=
  match vals with
  | [] => (h, Ok tt)
  | a :: vals' =>
      match index (cell_grid (h a)) 0 with
      | Ok row0 =>
          update_counts
            (put h a (set_counts (h a)
                        (Z.of_nat (List.length row0) + 1)
                        (Z.of_nat (List.length (cell_grid (h a))) + 1)))
            vals'
      | Raise e => (h, Raise e)
      end
  end.

(** [int(np.sum([patch.npol - 1 for patch in es]))]. *)
Definition sum_npol (h : nat -> Patch) (es : list entry) : result Z :=
  for_ es (fun e acc => v <- entry_npol h e ;; Ok (acc + (v - 1))) 0.

(** [int(np.sum([patch[c].nrad - 1 for patch in rows]))]. *)
Definition sum_nrad (h : nat -> Patch) (rows : list (list entry)) (c : Z)
  : result Z :=
  for_ rows
    (fun row acc => e <- index row c ;; v <- entry_nrad h e ;;
                    Ok (acc + (v - 1)))
    0.

(** [np.zeros((a, b, 5))]. *)
Definition zeros (a b : Z) : result Array3 :=
  if (a <? 0) || (b <? 0) then
    Raise (ValueError "negative dimensions are not allowed")
  else Ok (repeat (repeat (repeat 0%R 5) (Z.to_nat b)) (Z.to_nat a)).

(** The totals and the four arrays allocated from them. *)
Definition totals (h : nat -> Patch) (pm : list (list entry))
  : result ((Z * Z) * (Z * Z)) :=
  row1 <- index pm 1 ;;
  s <- sum_npol h (slice row1 1 5) ;;
  let np_total1 := s + 2 in
  s <- sum_nrad h (slice pm 1 4) 1 ;;
  let nr_total1 := s + 2 in
  row1 <- index pm 1 ;;
  s <- sum_npol h (slice row1 7 11) ;;
  let np_total2 := s + 2 in
  s <- sum_nrad h (slice pm 1 4) 7 ;;
  let nr_total2 := s + 2 in
  Ok ((np_total1, nr_total1), (np_total2, nr_total2)).

Definition allocate (h : nat -> Patch) (pm : list (list entry))
  : result ((Array3 * Array3) * (Array3 * Array3)) :=
  '((np_total1, nr_total1), (np_total2, nr_total2)) <- totals h pm ;;
  rm1 <- zeros np_total1 nr_total1 ;;
  zm1 <- zeros np_total1 nr_total1 ;;
  rm2 <- zeros np_total2 nr_total2 ;;
  zm2 <- zeros np_total2 nr_total2 ;;
  Ok ((rm1, zm1), (rm2, zm2)).

(** Position [i] of an axis of length [n], NumPy style. *)
Definition axis (n : nat) (i : Z) : result nat :=
  let j := if i <? 0 then i + Z.of_nat n else i in
  if (0 <=? j) && (j <? Z.of_nat n) then Ok (Z.to_nat j) else Raise IndexError.

Fixpoint upd {A : Type} (l : list A) (i : nat) (v : A) : list A :=
  match l, i with
  | [], _ => []
  | _ :: l', O => v :: l'
  | a :: l', S i' => a :: upd l' i' v
  end.

(** [arr[i][j][k] = v]. *)
Definition setitem3 (arr : Array3) (i j k : Z) (v : R) : result Array3 :=
  i' <- axis (List.length arr) i ;;
  let plane := nth i' arr [] in
  j' <- axis (List.length plane) j ;;
  let line := nth j' plane [] in
  k' <- axis (List.length line) k ;;
  Ok (upd arr i' (upd plane j' (upd line k' v))).

(** The body of the loops over [ixl] and [jyl]: the five vertices of the
    cell [cell_grid[jyl][ixl]] are written at [(ixcell, jycell)]. *)
Definition write_cell (P : Patch) (ixcell jycell : Z) (ixl jyl : nat)
    (arrs : Array3 * Array3) : result (Array3 * Array3) :=
  '(rm, zm, _) <-
    for_ [CENTER; SW; SE; NW; NE]
      (fun coor '(rm, zm, ind) =>
         row <- index (cell_grid P) (Z.of_nat jyl) ;;
         cell <- index row (Z.of_nat ixl) ;;
         rm <- setitem3 rm ixcell jycell ind (Geometry.x (vertices cell coor)) ;;
         row <- index (cell_grid P) (Z.of_nat jyl) ;;
         cell <- index row (Z.of_nat ixl) ;;
         zm <- setitem3 zm ixcell jycell ind (Geometry.y (vertices cell coor)) ;;
         let ind := ind + 1 in
         Verbose <- load_name module_globals "Verbose" ;;
         if truthy Verbose then (* print(...) *) Ok (rm, zm, ind)
         else Ok (rm, zm, ind))
      (fst arrs, snd arrs, 0) ;;
  Ok (rm, zm).

(** The loops over the cells of [local_patch], in the column [ixp] of the
    region whose first column is [c0]. *)
Definition fill_patch (h : nat -> Patch) (pm : list (list entry))
    (c0 ixp : nat) (P : Patch) (nr_sum : Z) (arrs : Array3 * Array3)
  : result (Array3 * Array3) :=
  row0 <- index (cell_grid P) 0 ;;
  for_ (range 0 (List.length row0))
    (fun ixl arrs =>
       for_ (range 0 (List.length (cell_grid P)))
         (fun jyl arrs =>
            row1 <- index pm 1 ;;
            s <- sum_npol h (slice row1 c0 (ixp + 1)) ;;
            row0 <- index (cell_grid P) 0 ;;
            let ixcell := s - Z.of_nat (List.length row0) + Z.of_nat ixl + 1 in
            nr <- attr (nrad P) ;;
            let jycell := nr_sum - (nr - 1) + Z.of_nat jyl + 1 in
            write_cell P ixcell jycell ixl jyl arrs)
         arrs)
    arrs.

(** The body of the loop over [jyp], for the column [ixp]: it carries the
    arrays and [nr_sum]. *)
Definition fill_row (h : nat -> Patch) (pm : list (list entry))
    (c0 ixp jyp : nat) (st : (Array3 * Array3) * Z)
  : result ((Array3 * Array3) * Z) :=
  let '(arrs, nr_sum) := st in
  row <- index pm (Z.of_nat jyp) ;;
  local_patch <- index row (Z.of_nat ixp) ;;
  match local_patch with
  | NoPatch => Ok (arrs, nr_sum)
  | PatchAt a =>
      nr <- attr (nrad (h a)) ;;
      let nr_sum := nr_sum + (nr - 1) in
      arrs <- fill_patch h pm c0 ixp (h a) nr_sum arrs ;;
      Ok (arrs, nr_sum)
  end.

(** The loop over [jyp] for one column [ixp], [nr_sum] starting at 0. *)
Definition fill_column (h : nat -> Patch) (pm : list (list entry))
    (c0 ixp : nat) (arrs : Array3 * Array3) : result (Array3 * Array3) :=
  '(arrs, _) <- for_ (range 1 4) (fill_row h pm c0 ixp) (arrs, 0) ;;
  Ok arrs.

(** The loop over [ixp]: [range(1, 5)] for the first region ([c0 = 1]),
    [range(7, 11)] for the second ([c0 = 7]). *)
Definition fill_region (h : nat -> Patch) (pm : list (list entry))
    (c0 : nat) (arrs : Array3 * Array3) : result (Array3 * Array3) :=
  for_ (range c0 (c0 + 4)) (fill_column h pm c0) arrs.

(** [for i in range(len(arr)): arr[i] = arr[i][::-1]]. *)
Definition flip (arr : Array3) : Array3 := map (@rev (list R)) arr.

(** [np.concatenate((a, b))] along the first axis: the other dimensions
    have to agree. *)
Definition concatenate (a b : Array3) : result Array3 :=
  match a, b with
  | pa :: _, pb :: _ =>
      if (List.length pa =? List.length pb)%nat
         && (List.length (hd [] pa) =? List.length (hd [] pb))%nat
      then Ok (a ++ b)
      else Raise (ValueError "all the input array dimensions except for the concatenation axis must match exactly")
  | _, _ => Ok (a ++ b)
  end.

Section ConcatGrid.

(** [add_guardc] and [animate_grid] are methods that the class at hand
    does not define: they are left open. *)
Variable add_guardc : Array3 -> Z -> Z -> result Array3.
Variable animate_grid : t -> t * result unit.

(** What [concat_grid] does with the four arrays once they are allocated:
    the loops over the cells, the flip of the indices, the guard cells and
    the concatenation into [rm] and [zm]. *)
Definition fill_and_join (h : nat -> Patch) (pm : list (list entry))
    (arrs : (Array3 * Array3) * (Array3 * Array3))
  : result (Array3 * Array3) :=
  let '((rm1, zm1), (rm2, zm2)) := arrs in
  '(rm1, zm1) <- fill_region h pm 1 (rm1, zm1) ;;
  '(rm2, zm2) <- fill_region h pm 7 (rm2, zm2) ;;
  let rm1 := flip rm1 in
  let zm1 := flip zm1 in
  let rm2 := flip rm2 in
  let zm2 := flip zm2 in
  let ixrb1 := Z.of_nat (List.length rm1) - 2 in
  let ixlb1 := 0 in
  let ixrb2 := Z.of_nat (List.length rm2) - 2 in
  let ixlb2 := 0 in
  rm1 <- add_guardc rm1 ixlb1 ixrb1 ;;
  zm1 <- add_guardc zm1 ixlb1 ixrb1 ;;
  rm2 <- add_guardc rm2 ixlb2 ixrb2 ;;
  zm2 <- add_guardc zm2 ixlb2 ixrb2 ;;
  rm <- concatenate rm1 rm2 ;;
  zm <- concatenate zm1 zm2 ;;
  Ok (rm, zm).

(** Everything [concat_grid] computes on its local arrays, from the
    allocation to the concatenated [rm] and [zm]. *)
Definition assemble (h : nat -> Patch) (pm : list (list entry))
  : result (Array3 * Array3) :=
  arrs <- allocate h pm ;;
  fill_and_join h pm arrs.

(** The end of [concat_grid]: [self.rm] and [self.zm] are assigned and the
    grid is shown when the settings ask for it; an exception raised before
    leaves both attributes as they were. *)
Definition finish (self : t) (r : result (Array3 * Array3))
  : t * result unit :=
  match r with
  | Raise e => (self, Raise e)
  | Ok (rm, zm) =>
      let self := with_mesh self rm zm in
      let debug :=
        match settings self ["DEBUG"; "visual"; "gridue"]%string with
        | Some v => negb (v =? 0)
        | None => false
        end in
      if debug then animate_grid self else (self, Ok tt)
  end.

Definition concat_grid (self : t) : t * result unit :=
  let (h, r) := update_counts (objects self) (map snd (patches self)) in
  let self := with_objects self h in
  match r with
  | Raise e => (self, Raise e)
  | Ok _ => finish self (assemble h (patch_matrix self))
  end.

End ConcatGrid.

(** *** GetBoundaryPoints *)

(** The loop over [self.patches.items()]. *)
Fixpoint boundary_of (h : nat -> Patch) (items : list (string * nat))
    (PatchName Boundary : string) : option (list Point) :=
  match items with
  | [] => None
  | (name, a) :: items' =>
      if String.eqb name PatchName then
        if String.eqb Boundary "S" then Some (S_vertices (h a))
        else if String.eqb Boundary "N" then Some (N_vertices (h a))
        else if String.eqb Boundary "E" then Some (W_vertices (h a))
        else if String.eqb Boundary "W" then Some (W_vertices (h a))
        else boundary_of h items' PatchName Boundary
      else boundary_of h items' PatchName Boundary
  end.

(** [None] for Python's [None], both as argument and as result. *)
Definition GetBoundaryPoints (self : t) (AdjacentPatch : option (string * string))
  : option (list Point) :=
  match AdjacentPatch with
  | Some (PatchName, Boundary) =>
      boundary_of (objects self) (patches self) PatchName Boundary
  | None => None
  end.

(** *** GetNpoints *)

(** What a call prints, and what it returns or raises. A message is
    recorded as its template and the values formatted into it; a line
    break inside the template is written as a space, a final one is left
    out. *)
Inductive output : Type :=
| Print (text : string) (args : list Z).

Definition io (A : Type) : Type := list output -> list output * result A.

Definition ret {A : Type} (a : A) : io A := fun out => (out, Ok a).

Definition raise {A : Type} (e : exn) : io A := fun out => (out, Raise e).

Definition lift {A : Type} (c : result A) : io A := fun out => (out, c).

Definition print (text : string) (args : list Z) : io unit :=
  fun out => (out ++ [Print text args], Ok tt).

Definition bind_io {A B : Type} (c : io A) (k : A -> io B) : io B :=
  fun out =>
    match c out with
    | (out', Ok a) => k a out'
    | (out', Raise e) => (out', Raise e)
    end.

Notation "x <~ c ;; k" := (bind_io c (fun x => k))
  (at level 61, c at next level, right associativity).
Notation "' pat <~ c ;; k" := (bind_io c (fun x => match x with pat => k end))
  (at level 61, pat pattern, c at next level, right associativity).

(** [self.settings[k1][k2][k3]]. *)
Definition setting (self : t) (path : list string) : result Z :=
  match settings self path with
  | Some v => Ok v
  | None => Raise KeyError
  end.

(** [try: c  except: handler]. *)
Definition try_except {A : Type} (c handler : result A) : result A :=
  match c with
  | Ok a => Ok a
  | Raise _ => handler
  end.

Definition grid_generation (k : string) : list string :=
  ["grid_params"; "grid_generation"; k]%string.

Definition GetNpoints (self : t) (Patch : Patch) (Enforce : bool)
  : io (value * value) :=
  np_sol <~ lift (try_except (setting self (grid_generation "np_sol"))
                             (setting self (grid_generation "np_global"))) ;;
  np_core <~ lift (try_except (setting self (grid_generation "np_core"))
                              (setting self (grid_generation "np_global"))) ;;
  np_pf <~ lift (try_except (setting self (grid_generation "np_pf"))
                            (setting self (grid_generation "np_global"))) ;;
  '(np_sol, np_core) <~
    (if negb (np_sol =? np_core) then
       _ <~ (if Enforce then
               raise (ValueError "SOL and CORE must have equal POLOIDAL np values")
             else
               print "WARNING: SOL and CORE must have equal POLOIDAL np values! Setting np values to the minimum of np_sol={} and np_core={}."
                     [np_sol; np_core]) ;;
       ret (Z.min np_sol np_core, Z.min np_sol np_core)
     else ret (np_sol, np_core)) ;;
  nr_sol <~ lift (try_except (setting self (grid_generation "nr_sol"))
                             (setting self (grid_generation "nr_global"))) ;;
  nr_core <~ lift (try_except (setting self (grid_generation "nr_core"))
                              (setting self (grid_generation "nr_global"))) ;;
  nr_pf <~ lift (try_except (setting self (grid_generation "nr_pf"))
                            (setting self (grid_generation "nr_global"))) ;;
  '(nr_pf, nr_core) <~
    (if negb (nr_pf =? nr_core) then
       if Enforce then
         raise (ValueError "PF and CORE must have equal RADIAL nr values")
       else
         _ <~ print "WARNING: PF and CORE must have equal RADIAL nr values! Setting nr values to the minimum of nr_pf={} and nr_core={}."
                    [nr_pf; nr_core] ;;
         ret (Z.min nr_pf nr_core, Z.min nr_pf nr_core)
     else ret (nr_pf, nr_core)) ;;
  np_cells <~
    (if platePatch Patch then
       if String.eqb (plateLocation Patch) "W" then
         v <~ lift (setting self ["target_plates"; "plate_W1"; "np_local"]%string) ;;
         ret (Some v)
       else if String.eqb (plateLocation Patch) "E" then
         v <~ lift (setting self ["target_plates"; "plate_E1"; "np_local"]%string) ;;
         ret (Some v)
       else ret None
     else ret None) ;;
  nr_cells <~ lift (load_name module_globals "nr_cells") ;;
  np_cells <~ lift (match np_cells with
                    | Some v => Ok (VInt v)
                    | None => Raise (UnboundLocalError "np_cells")
                    end) ;;
  ret (nr_cells, np_cells).

(** *** AdjustPatch *)

(** Modelled from the spec: [Patch.adjust_corner(point, corner)] is called
    by [AdjustPatch] but defined outside the sources at hand. Following the
    specification ("overwrite that corner's vertex with the exact X-point
    coordinate") it replaces the vertex stored for [corner] by [point] and
    changes nothing else. *)
Definition adjust_corner (P : Patch) (point : Point) (c : coor) : Patch :=
  set_corner P (fun c' => if coor_eqb c' c then point else corner P c').

(** [AdjustPatch(patch)], [patch] being the object at address [a]. *)
Definition AdjustPatch (self : t) (a : nat) : t :=
  let h := objects self in
  let xpt1 := xpt1 self in
  let xpt2 := xpt2 self in
  let tag := tag (h a) in
  with_objects self
    (if String.eqb tag "A2" then put h a (adjust_corner (h a) xpt1 SE)
     else if String.eqb tag "A1" then put h a (adjust_corner (h a) xpt1 NE)
     else if String.eqb tag "B2" then put h a (adjust_corner (h a) xpt1 SW)
     else if String.eqb tag "B1" then put h a (adjust_corner (h a) xpt1 NW)
     else if String.eqb tag "E2" then put h a (adjust_corner (h a) xpt1 SE)
     else if String.eqb tag "E1" then put h a (adjust_corner (h a) xpt1 NE)
     else if String.eqb tag "F3" then put h a (adjust_corner (h a) xpt2 SE)
     else if String.eqb tag "F2" then
       let h := put h a (adjust_corner (h a) xpt1 SW) in
       put h a (adjust_corner (h a) xpt2 NE)
     else if String.eqb tag "F1" then put h a (adjust_corner (h a) xpt1 NW)
     else if String.eqb tag "G3" then put h a (adjust_corner (h a) xpt2 SW)
     else if String.eqb tag "G2" then put h a (adjust_corner (h a) xpt2 NW)
     else if String.eqb tag "H3" then put h a (adjust_corner (h a) xpt2 SE)
     else if String.eqb tag "H2" then put h a (adjust_corner (h a) xpt2 NE)
     else h).

End SF45.

(** ** Notions used to state the properties of SF45.py *)

Module SF45Spec.
Import Py SF45.
Import Geometry(Point, mkPoint).

(** The two X-points of the configuration. *)
Inductive xpoint : Type := X1 | X2.

Definition xpt (self : t) (X : xpoint) : Point :=
  match X with
  | X1 => xpt1 self
  | X2 => xpt2 self
  end.

(** The corners that sit on an X-point, patch tag by patch tag. *)
Definition snap_table : list (string * coor * xpoint) :=
  [("A2", SE, X1); ("A1", NE, X1); ("B2", SW, X1); ("B1", NW, X1);
   ("E2", SE, X1); ("E1", NE, X1); ("F3", SE, X2);
   ("F2", SW, X1); ("F2", NE, X2); ("F1", NW, X1);
   ("G3", SW, X2); ("G2", NW, X2); ("H3", SE, X2); ("H2", NE, X2)]%string.

(** The patch [P] with other East vertices. *)
Definition set_E_vertices (P : Patch) (ev : list Point) : Patch :=
  mkPatch (patchName P) (tag P) (platePatch P) (plateLocation P) (cell_grid P)
          (npol P) (nrad P)
          (N_vertices P) (S_vertices P) ev (W_vertices P) (corner P).

(** The sum of (count - 1) over the patches of a row or column of the
    patch matrix, plus 2. *)
Definition total (counts : list Z) : Z :=
  (fold_right (fun v acc => (v - 1) + acc) 0 counts + 2)%Z.

(** [arr] has shape [(n0, n1, n2)]. *)
Definition has_shape (arr : Array3) (n0 n1 n2 : Z) : Prop :=
  Z.of_nat (List.length arr) = n0
  /\ Forall (fun plane =>
               Z.of_nat (List.length plane) = n1
               /\ Forall (fun line => Z.of_nat (List.length line) = n2) plane)
            arr.

(** The number of poloidal and radial cells of a filled patch. *)
Definition width (P : Patch) : nat := List.length (hd [] (cell_grid P)).
Definition height (P : Patch) : nat := List.length (cell_grid P).

(** [patch_matrix[r][c]], when both indices are in range. *)
Definition entry_at (pm : list (list entry)) (r c : nat) : option entry :=
  match nth_error pm r with
  | Some row => nth_error row c
  | None => None
  end.

(** The places of the patch matrix that [concat_grid] visits: (first
    column of the region, row, column). *)
Definition places : list (nat * nat * nat) :=
  flat_map (fun c0 =>
              flat_map (fun c => map (fun r => (c0, r, c)) (range 1 4))
                       (range c0 (c0 + 4)))
           [1; 7]%nat.

Definition listed (self : t) (a : nat) : bool :=
  existsb (Nat.eqb a) (map snd (patches self)).

(** The entry at row [r], column [c] of the region of first column [c0]
    is a patch of [self.patches] with as many poloidal cells as the patch
    of row 1 in its column, or, outside row 1 and column [c0], the
    placeholder [[None]] that the loops skip. Row 1 and column [c0] are
    read by the sums of the counts and have to hold patches. *)
Definition conforming (self : t) (place : nat * nat * nat) : bool :=
  let '(c0, r, c) := place in
  let pm := patch_matrix self in
  let h := objects self in
  match entry_at pm r c, entry_at pm 1 c with
  | Some (PatchAt a), Some (PatchAt a1) =>
      listed self a && (width (h a) =? width (h a1))%nat
  | Some NoPatch, Some (PatchAt _) =>
      negb (r =? 1)%nat && negb (c =? c0)%nat
  | _, _ => false
  end.

(** A patch set as the topology builds it: every patch is filled, and the
    visited part of the patch matrix is a block structure, with or without
    placeholders. *)
Definition consistent (self : t) : bool :=
  forallb (fun a => negb (height (objects self a) =? 0)%nat)
          (map snd (patches self))
  && forallb (conforming self) places.

(** The number of cells that [concat_grid] has to write. *)
Definition cells_at (self : t) (place : nat * nat * nat) : nat :=
  let '(_, r, c) := place in
  match entry_at (patch_matrix self) r c with
  | Some (PatchAt a) => (width (objects self a) * height (objects self a))%nat
  | _ => 0%nat
  end.

Definition cells (self : t) : nat := list_sum (map (cells_at self) places).

(** The object at [a] is filled and carries the counts that the first loop
    of [concat_grid] sets. *)
Definition counted (h : nat -> Patch) (a : nat) : Prop :=
  npol (h a) = Some (Z.of_nat (width (h a)) + 1)%Z
  /\ nrad (h a) = Some (Z.of_nat (height (h a)) + 1)%Z
  /\ height (h a) <> 0%nat.

Definition counted_entry (h : nat -> Patch) (e : entry) : Prop :=
  exists a, e = PatchAt a /\ counted h a.

(** The poloidal cells of the patches of a stretch of a matrix row. *)
Definition ew (h : nat -> Patch) (e : entry) : nat :=
  match e with
  | PatchAt a => width (h a)
  | NoPatch => 0%nat
  end.

Definition sumw (h : nat -> Patch) (es : list entry) : nat :=
  list_sum (map (ew h) es).

(** The radial count of the patch that a matrix row has in column [c0]. *)
Definition row_nrad (h : nat -> Patch) (c0 : nat) (row : list entry) : Z :=
  match nth_error row c0 with
  | Some (PatchAt a) => (Z.of_nat (height (h a)) + 1)%Z
  | _ => 1%Z
  end.

(** The region of first column [c0], once the counts are set. *)
Definition grid_ok (h : nat -> Patch) (pm : list (list entry)) (c0 : nat)
  : Prop :=
  forall r c, (1 <= r < 4)%nat -> (c0 <= c < c0 + 4)%nat ->
    exists a1,
      entry_at pm 1 c = Some (PatchAt a1) /\ counted h a1
      /\ ((entry_at pm r c = Some NoPatch /\ r <> 1%nat /\ c <> c0)
          \/ exists a, entry_at pm r c = Some (PatchAt a)
                       /\ counted h a /\ width (h a) = width (h a1)).

(** A configuration with distinct counts for SOL and core, and for PF and
    core. *)
Definition mismatched_settings (path : list string) : option Z :=
  assoc [("grid_params/grid_generation/np_global", 3%Z);
         ("grid_params/grid_generation/np_sol", 4%Z);
         ("grid_params/grid_generation/nr_global", 2%Z);
         ("grid_params/grid_generation/nr_pf", 5%Z);
         ("target_plates/plate_W1/np_local", 6%Z);
         ("target_plates/plate_E1/np_local", 6%Z)]%string
        (String.concat "/" path).

Definition plain_patch (name : string) (grid : list (list Cell)) : Patch :=
  mkPatch name name true "W" grid None None [] [] [] []
          (fun _ => mkPoint 0 0).

(** A small patch set: two filled patches, one of 2 x 1 cells and one of a
    single cell, placed in the two regions of the patch matrix. *)
Definition unit_cell : Cell := mkCell (fun _ => mkPoint 0 0).

Definition patch_A : Patch := plain_patch "A" [[unit_cell; unit_cell]].
Definition patch_B : Patch := plain_patch "B" [[unit_cell]].

Definition example_row : list entry :=
  [NoPatch; PatchAt 0; PatchAt 1; PatchAt 0; PatchAt 1; NoPatch;
   NoPatch; PatchAt 1; PatchAt 1; PatchAt 0; PatchAt 0; NoPatch].

Definition example_objects (a : nat) : Patch :=
  match a with
  | O => patch_A
  | _ => patch_B
  end.

Definition example_self : t :=
  mk (fun _ => None) [("A"%string, 0%nat); ("B"%string, 1%nat)]
     [repeat NoPatch 12; example_row; example_row; example_row;
      repeat NoPatch 12]
     (mkPoint 0 0) (mkPoint 0 0) None None example_objects.

Definition mismatched_self : t :=
  mk mismatched_settings [] [] (mkPoint 0 0) (mkPoint 0 0) None None
     (fun _ => plain_patch "A1" []).

End SF45Spec.

(** ** geometry.py: the other methods of Line *)

Module LineOps.
Import Py Geometry.
Open Scope R_scope.

(** [Line.straighten]: [Line([self.p[0], self.p[-1]])]. *)
Definition straighten (self : Line) : result Line :=
  a <- index (p self) 0 ;;
  b <- index (p self) (-1) ;;
  Ok (Line_init [a; b]).

(** [Line.points]: the two end points as coordinate pairs. *)
Definition points (self : Line) : result ((R * R) * (R * R)) :=
  a <- index (p self) 0 ;;
  b <- index (p self) (-1) ;;
  Ok ((x a, y a), (x b, y b)).

(** [np.linspace(start, stop, num)] with the default [endpoint=True]:
    [arange(0, num) * step + start] with [step = (stop - start) / (num - 1)]
    (no division when [num <= 1]), the last sample then being overwritten
    by [stop]. *)
Definition linspace_closed (start stop : R) (num : Z) : result (list R) :=
  if (num <? 0)%Z then Raise (ValueError (samples_message num))
  else
    let delta := stop - start in
    let ys :=
      if (0 <? num - 1)%Z then
        map (fun k => INR k * (delta / IZR (num - 1)) + start)
            (range 0 (Z.to_nat num))
      else
        map (fun k => INR k * delta + start) (range 0 (Z.to_nat num)) in
    Ok (if (1 <? num)%Z then removelast ys ++ [stop] else ys).

(** [Line.divisions]: the arrays that the call stores in [self.xs] and
    [self.ys]. *)
Definition divisions (self : Line) (num : Z) : result (list R * list R) :=
  a <- index (p self) 0 ;;
  b <- index (p self) (-1) ;;
  xs <- linspace_closed (x a) (x b) num ;;
  a <- index (p self) 0 ;;
  b <- index (p self) (-1) ;;
  ys <- linspace_closed (y a) (y b) num ;;
  Ok (xs, ys).

End LineOps.

(** ** geometry.py: Vector and calc_mid_point *)

Module Vector.
Import Py.
Open Scope R_scope.

(** [np.sign]: -1, 0 or 1. *)
Definition sign (r : R) : Z :=
  if Rlt_dec 0 r then 1%Z else if Rlt_dec r 0 then (-1)%Z else 0%Z.

(** The attributes that [Vector.__init__] sets. *)
Record t : Type := mk {
  x : R;
  y : R;
  xorigin : R;
  yorigin : R;
  xnorm : R;
  ynorm : R;
  quadrant : Z * Z
}.

(** [Vector.__init__(xy, origin)]. *)
Definition init (xy origin : R * R) : t :=
  let x := fst xy in
  let y := snd xy in
  let xorigin := fst origin in
  let yorigin := snd origin in
  let xnorm := x - xorigin in
  let ynorm := y - yorigin in
  mk x y xorigin yorigin xnorm ynorm (sign xnorm, sign ynorm).

(** [Vector.arr]. *)
Definition arr (self : t) : R * R := (xnorm self, ynorm self).

(** [np.linalg.norm] of a pair, and [np.dot] of two pairs, in exact
    arithmetic (in binary64 the squares of very small components underflow
    to zero, and so does the norm). *)
Definition norm (a : R * R) : R := sqrt (fst a ^ 2 + snd a ^ 2).
Definition dot (a b : R * R) : R := fst a * fst b + snd a * snd b.

(** [Vector.mag]. *)
Definition mag (self : t) : R := norm (arr self).

Definition quadrant_is (self : t) (q : Z * Z) : bool :=
  (fst (quadrant self) =? fst q)%Z && (snd (quadrant self) =? snd q)%Z.

(** [calc_mid_point]. In the last branch of the chain the source prints
    "Something went wrong" and leaves [angle] unassigned: the sum
    [theta+angle] that follows then raises. NumPy divides by zero without
    raising: when [v1.mag() * v2.mag()] is zero the quotient is nan, and so
    are [theta] and the two coordinates returned; [None] stands for that
    pair (nan, nan). The arithmetic is exact: in binary64 the quotient can
    also round beyond 1 or -1 for parallel or nearly parallel vectors, and
    [np.arccos] then gives nan as well. *)
Definition calc_mid_point (v1 v2 : t) : result (option (R * R)) :=
  let theta := acos (dot (arr v1) (arr v2) / (mag v1 * mag v2)) / 2 in
  angle <-
    (if quadrant_is v1 (1, 1)%Z then Ok (acos (xnorm v1 / mag v1))
     else if quadrant_is v1 (-1, 1)%Z then Ok (PI - asin (ynorm v1 / mag v1))
     else if quadrant_is v1 (-1, -1)%Z then
       Ok (PI + atan (ynorm v1 / xnorm v1))
     else if quadrant_is v1 (1, -1)%Z then Ok (- acos (xnorm v1 / mag v1))
     else Raise (UnboundLocalError "angle")) ;;
  let x := xorigin v1 + mag v1 * cos (theta + angle) in
  let y := yorigin v1 + mag v1 * sin (theta + angle) in
  if Req_dec_T (mag v1 * mag v2) 0 then Ok None else Ok (Some (x, y)).

End Vector.


(** ** geometry.py: test2points and intersect *)

Module Planar.
Import Py.
Open Scope R_scope.

(** A line given by two points, [((x1, y1), (x2, y2))]. *)
Definition line2 : Type := (R * R) * (R * R).

(** [test2points], in exact arithmetic: the signs are those of the exact
    determinants (the code takes the signs of their binary64 values, which
    can differ for a point within rounding distance of the line). *)
Definition test2points (p1 p2 : R * R) (line : line2) : Z * Z :=
  let '((x1, y1), (x2, y2)) := line in
  let '(x, y) := p1 in
  let '(a, b) := p2 in
  let d1 := (x - x1) * (y2 - y1) - (y - y1) * (x2 - x1) in
  let d2 := (a - x1) * (y2 - y1) - (b - y1) * (x2 - x1) in
  (Vector.sign d1, Vector.sign d2).

(** The helper [line] of [intersect], the point-slope form: on a vertical
    segment [x1] is first moved by [1e-4]. The arithmetic is exact: the
    moved [x1] always differs from [x2] here, whereas in binary64 an
    abscissa above about 1e12 absorbs the 1e-4 and the code then divides
    by zero. *)
Definition line (x : R) (l : line2) : R :=
  let '((x1, y1), (x2, y2)) := l in
  let x1 := if Req_dec_T (x2 - x1) 0 then x1 + / 10000 else x1 in
  (y2 - y1) / (x2 - x1) * (x - x1) + y1.

(** The helper [f] of [intersect]. *)
Definition f (line1 line2 : line2) (xy : R * R) : R * R :=
  let '(x, y) := xy in
  (y - line x line1, y - line x line2).

Section Solver.

(** [scipy.optimize.fsolve(func, x0)] is left open. *)
Variable fsolve : (R * R -> R * R) -> R * R -> R * R.

(** [np.mean] of four numbers. *)
Definition mean4 (a b c d : R) : R := (a + b + c + d) / 4.

(** [intersect]. *)
Definition intersect (line1 line2 : line2) : R * R :=
  let '((a, b), (c, d)) := line1 in
  let '((i, j), (p, q)) := line2 in
  let guess := (mean4 a c i p, mean4 b d j q) in
  let '(r, z) := fsolve (f line1 line2) guess in
  (r, z).

End Solver.

End Planar.

(** ** geometry.py: the helper psi_parameterize of Patch.make_subgrid *)

Module Subgrid.
Import Py.
Open Scope R_scope.

Section Psi.

(** [grid.psi_norm.get_psi(r, z)], the normalised flux at a point, is
    left open. *)
Variable get_psi : R -> R -> R.

(** [psi_parameterize(grid, r, z)]. *)
Definition psi_parameterize (r z : list R) : result (list R) :=
  rl <- index r (-1) ;;
  zl <- index z (-1) ;;
  let vmax := get_psi rl zl in
  r0 <- index r 0 ;;
  z0 <- index z 0 ;;
  let vmin := get_psi r0 z0 in
  for_ (range 0 (List.length r))
       (fun i vparameterization =>
          ri <- index r (Z.of_nat i) ;;
          zi <- index z (Z.of_nat i) ;;
          let vcurr := get_psi ri zi in
          Ok (vparameterization ++ [Rabs ((vcurr - vmin) / (vmax - vmin))]))
       [].

End Psi.

End Subgrid.

(** ** Patch sets on which [concat_grid] stops early *)

Module SF45Cases.
Import Py SF45 SF45Spec.
Import Geometry(Point, mkPoint).

(** Three registered patches, the second one without cells. *)
Definition unfilled_objects (a : nat) : Patch :=
  match a with
  | 0%nat => patch_A
  | 1%nat => patch_B
  | _ => plain_patch "C" []
  end.

Definition unfilled_self : t :=
  mk (fun _ => None)
     [("A"%string, 0%nat); ("C"%string, 2%nat); ("B"%string, 1%nat)]
     [repeat NoPatch 12; example_row; example_row; example_row;
      repeat NoPatch 12]
     (mkPoint 0 0) (mkPoint 0 0) None None unfilled_objects.

(** The patch set of [example_self], with placeholders in rows 2 and 3 of
    the patch matrix, outside the first column of each region. *)
Definition sparse_row : list entry :=
  [NoPatch; PatchAt 0; NoPatch; PatchAt 0; NoPatch; NoPatch;
   NoPatch; PatchAt 1; NoPatch; NoPatch; PatchAt 0; NoPatch].

Definition sparse_self : t :=
  mk (fun _ => None) [("A"%string, 0%nat); ("B"%string, 1%nat)]
     [repeat NoPatch 12; example_row; sparse_row; sparse_row;
      repeat NoPatch 12]
     (mkPoint 0 0) (mkPoint 0 0) None None example_objects.

(** The patch set of [example_self], with the placeholder in column 2 of
    row 1 of the patch matrix. *)
Definition holed_row : list entry :=
  [NoPatch; PatchAt 0; NoPatch; PatchAt 0; PatchAt 1; NoPatch;
   NoPatch; PatchAt 1; PatchAt 1; PatchAt 0; PatchAt 0; NoPatch].

Definition holed_self : t :=
  mk (fun _ => None) [("A"%string, 0%nat); ("B"%string, 1%nat)]
     [repeat NoPatch 12; holed_row; example_row; example_row;
      repeat NoPatch 12]
     (mkPoint 0 0) (mkPoint 0 0) None None example_objects.

End SF45Cases.

(** ** Root_Finder.py *)

Module RootFinder.
Import Py.
Open Scope R_scope.

(** The grid attributes that the class reads. *)
Record Grid : Type := mkGrid { rmin : R; rmax : R; zmin : R; zmax : R }.

(** The calls made to the plotting library, to the canvas and to the
    controller of the application, and the lines printed, in the order of
    their execution. They are taken to return. *)
Inductive call : Type :=
| Print (text : string) (args : list R)
| Cla
| PlotEfitData
| PlotTargetPlates
| PlotData
| Plot (x y : R) (marker : string)
| Draw
| Contour (level : R)
| SetCurrClick (x y : R)
| UpdateRootFinder
| MplConnect
| MplDisconnect (cid : nat).

(** A mouse event: [button], whether [inaxes] is the axes of the grid,
    [xdata] and [ydata]. *)
Record Event : Type := mkEvent {
  button : Z;
  inaxes : bool;
  xdata : R;
  ydata : R
}.

Definition Rltb (a b : R) : bool := if Rlt_dec a b then true else false.

Section Instance.

(** The controller object is opaque; [None] is Python's [None]. *)
Variable Controller : Type.

(** [grid.get_psi(x, y, tag)] ([None] when the call gives no tag),
    [scipy.optimize.root(fun, x0).x] and the connection id that
    [mpl_connect] returns are left open. *)
Variable get_psi : R -> R -> option string -> R.
Variable root : (R * R -> R * R) -> R * R -> R * R.
Variable mpl_connect : nat.

(** The attributes of a [RootFinder]; [final_root] is [None] for the empty
    tuple, [cid] is [None] as long as the attribute does not exist. *)
Record t : Type := mk {
  grid : Grid;
  root_finding : bool;
  psi_finding : bool;
  controller : option Controller;
  curr_x : R;
  curr_y : R;
  final_root : option (R * R);
  cid : option nat
}.

Definition set_cid (self : t) (c : nat) : t :=
  mk (grid self) (root_finding self) (psi_finding self) (controller self)
     (curr_x self) (curr_y self) (final_root self) (Some c).

Definition set_curr (self : t) (x y : R) : t :=
  mk (grid self) (root_finding self) (psi_finding self) (controller self)
     x y (final_root self) (cid self).

Definition set_final_root (self : t) (rz : R * R) : t :=
  mk (grid self) (root_finding self) (psi_finding self) (controller self)
     (curr_x self) (curr_y self) (Some rz) (cid self).

Definition set_root_finding (self : t) (b : bool) : t :=
  mk (grid self) b (psi_finding self) (controller self)
     (curr_x self) (curr_y self) (final_root self) (cid self).

(** What a method leaves: the object, the calls made, and the outcome. *)
Definition outcome : Type := t * list call * result unit.

(** [RootFinder.__init__]. *)
Definition init (grid : Grid) (active : bool) (mode : string)
    (controller : option Controller) : t * list call :=
  let self :=
    mk grid (String.eqb mode "root_finder") (String.eqb mode "psi_finder")
       controller 0 0 None None in
  if active then
    (set_cid self mpl_connect,
     [MplConnect; Print "Entering Root Finder. Right click to disable." []])
  else (self, [Print "Root Finder on standby." []]).

(** [RootFinder.func]. *)
Definition func (xy : R * R) : R * R :=
  let '(x, y) := xy in
  (get_psi x y (Some "vr"), get_psi x y (Some "vz"))%string.

(** [RootFinder.toggle_root_finding]. *)
Definition toggle_root_finding (self : t) : t :=
  if root_finding self then set_root_finding self false
  else set_root_finding self true.

(** [RootFinder.find_root]. *)
Definition find_root (self : t) (x y : R) : outcome :=
  match controller self with
  | None => (self, [Cla], Raise AttributeError)
  | Some _ =>
      let sol := root func (x, y) in
      let r := fst sol in
      let z := snd sol in
      let g := grid self in
      if negb (Rltb (rmin g) r && Rltb r (rmax g))
         || negb (Rltb (zmin g) z && Rltb z (zmax g))
      then
        (self,
         [Cla; PlotEfitData; PlotTargetPlates; Plot x y "*";
          Print "You clicked too far from the true zero point" []],
         Ok tt)
      else
        (set_final_root self (r, z),
         [Cla; PlotEfitData; PlotTargetPlates; Plot x y "*";
          Print "You chose ({0:.5f}, {1:.5f}). The zero point is ({0:.5f},{1:.5f})"
                [x; y; r; z];
          Plot r z "1"; Draw; SetCurrClick x y; UpdateRootFinder],
         Ok tt)
  end.

(** [RootFinder.find_psi]. *)
Definition find_psi (self : t) (x y : R) : outcome :=
  match controller self with
  | None => (self, [], Raise AttributeError)
  | Some _ =>
      (self,
       [SetCurrClick x y; UpdateRootFinder; Cla; PlotData; PlotTargetPlates;
        Contour (get_psi x y None)],
       Ok tt)
  end.

(** [RootFinder.__call__]. *)
Definition call_ (self : t) (event : Event) : outcome :=
  if (button event =? 3)%Z then
    match cid self with
    | Some c => (self, [Print "Root Finder Disabled." []; MplDisconnect c],
                 Ok tt)
    | None => (self, [Print "Root Finder Disabled." []], Raise AttributeError)
    end
  else if negb (inaxes event) then (self, [], Ok tt)
  else
    let self := set_curr self (xdata event) (ydata event) in
    if root_finding self then find_root self (curr_x self) (curr_y self)
    else if psi_finding self then find_psi self (curr_x self) (curr_y self)
    else
      (set_final_root self (curr_x self, curr_y self),
       [Print "You chose ({0:.5f}, {1:.5f}). " [curr_x self; curr_y self]],
       Ok tt).

(** What happens to a [RootFinder] in a session: a mouse event handled by
    [__call__], or a call of [toggle_root_finding]. An exception raised by
    a handler ends that handler only. *)
Inductive action : Type :=
| Click (event : Event)
| Toggle.

Definition step (self : t) (a : action) : t :=
  match a with
  | Click event => fst (fst (call_ self event))
  | Toggle => toggle_root_finding self
  end.

Definition run (self : t) (actions : list action) : t :=
  fold_left step actions self.

Definition is_click (a : action) : bool :=
  match a with
  | Click _ => true
  | Toggle => false
  end.

(** [final_root] is still empty, or a point strictly inside the grid. *)
Definition root_inside (self : t) : Prop :=
  match final_root self with
  | None => True
  | Some (r, z) =>
      rmin (grid self) < r < rmax (grid self)
      /\ zmin (grid self) < z < zmax (grid self)
  end.

End Instance.

Arguments grid {Controller}.
Arguments root_finding {Controller}.
Arguments psi_finding {Controller}.
Arguments controller {Controller}.
Arguments curr_x {Controller}.
Arguments curr_y {Controller}.
Arguments final_root {Controller}.
Arguments cid {Controller}.
Arguments set_cid {Controller}.
Arguments set_curr {Controller}.
Arguments set_final_root {Controller}.
Arguments set_root_finding {Controller}.
Arguments init {Controller}.
Arguments toggle_root_finding {Controller}.
Arguments find_root {Controller}.
Arguments find_psi {Controller}.
Arguments call_ {Controller}.
Arguments step {Controller}.
Arguments run {Controller}.
Arguments root_inside {Controller}.

End RootFinder.

(** ** geometry.py in binary64: the length of a Line

    [Line.__init__], [calc_length] and [reverse_copy] once more, on
    IEEE 754 binary64 numbers with the operations rounded to nearest, as
    Python and NumPy compute them. A square [d ** 2] is the product
    [d * d] (what NumPy computes; the C function [pow] that Python calls
    on its own floats agrees with it on the values used below, whose
    squares are exact). [reverse_copy] is taken as a function of the Line:
    the object store plays no role in the length. *)

Module Binary64.
Import PrimFloat.
Open Scope float_scope.

Record Point : Type := mkPoint { x : float; y : float }.

Record Line : Type := mkLine {
  p : list Point;
  xval : list float;
  yval : list float;
  length : float
}.

Definition segment (ps : list Point) (i : nat) : float :=
  let a := nth i ps (mkPoint 0 0) in
  let b := nth (S i) ps (mkPoint 0 0) in
  sqrt ((x b - x a) * (x b - x a) + (y b - y a) * (y b - y a)).

Definition calc_length (ps : list Point) : float :=
  fold_left (fun l i => l + segment ps i)
            (Py.range 0 (List.length ps - 1)) 0.

Definition Line_init (points : list Point) : Line :=
  mkLine points (map x points) (map y points) (calc_length points).

Definition reverse_copy (self : Line) : Line := Line_init (rev (p self)).

(** A Line of four points with integer coordinates. *)
Definition zigzag : Line :=
  Line_init [mkPoint 6 0; mkPoint 1 2; mkPoint 3 0; mkPoint 1 0].

End Binary64.
(** * Properties *)

(** ** Facts about the Python layer *)

Module PyFacts.
Import Py.

Lemma index_nat {A : Type} (xs : list A) (i : nat) (d : A) :
  (i < List.length xs)%nat -> index xs (Z.of_nat i) = Ok (nth i xs d).
Proof.
  intro Hi. unfold index.
  assert ((Z.of_nat i <? 0)%Z = false) as -> by (apply Z.ltb_ge; lia).
  assert ((0 <=? Z.of_nat i) && (Z.of_nat i <? Z.of_nat (List.length xs))
          = true)%Z as ->.
  { apply andb_true_intro; split; [apply Z.leb_le | apply Z.ltb_lt]; lia. }
  rewrite Nat2Z.id, (nth_error_nth' xs d Hi). reflexivity.
Qed.

Lemma index_succ {A : Type} (xs : list A) (i : nat) (d : A) :
  (S i < List.length xs)%nat -> index xs (Z.of_nat i + 1) = Ok (nth (S i) xs d).
Proof.
  intro Hi. replace (Z.of_nat i + 1)%Z with (Z.of_nat (S i)) by lia.
  now apply index_nat.
Qed.

Lemma index_0 {A : Type} (a : A) (xs : list A) : index (a :: xs) 0 = Ok a.
Proof. apply (index_nat (a :: xs) 0 a). simpl. lia. Qed.

Lemma index_1 {A : Type} (a b : A) (xs : list A) :
  index (a :: b :: xs) 1 = Ok b.
Proof. apply (index_nat (a :: b :: xs) 1 a). simpl. lia. Qed.

Lemma index_last {A : Type} (xs : list A) (d : A) :
  xs <> [] -> index xs (-1) = Ok (last xs d).
Proof.
  intro Hne. unfold index. cbn [Z.ltb Z.compare].
  assert (0 < List.length xs)%nat by (destruct xs; [congruence | simpl; lia]).
  assert ((0 <=? -1 + Z.of_nat (List.length xs))
          && (-1 + Z.of_nat (List.length xs) <? Z.of_nat (List.length xs))
          = true)%Z as ->.
  { apply andb_true_intro; split; [apply Z.leb_le | apply Z.ltb_lt]; lia. }
  replace (Z.to_nat (-1 + Z.of_nat (List.length xs)))
    with (List.length xs - 1)%nat by lia.
  rewrite (nth_error_nth' xs d) by lia.
  f_equal. destruct (exists_last Hne) as [xs' [a ->]].
  rewrite last_last, length_app, app_nth2; simpl; [|lia].
  replace (_ + 1 - 1 - _)%nat with 0%nat by lia. reflexivity.
Qed.

Lemma last_app_nonempty {A : Type} (l1 l2 : list A) (d : A) :
  l2 <> [] -> last (l1 ++ l2) d = last l2 d.
Proof.
  intro Hne. induction l1 as [|a l1 IH]; [reflexivity|].
  simpl. rewrite IH. destruct (l1 ++ l2) eqn:E; [|reflexivity].
  apply app_eq_nil in E. tauto.
Qed.

Lemma nth_last {A : Type} (l : list A) (d : A) :
  nth (List.length l - 1) l d = last l d.
Proof.
  destruct l as [|a l]; [reflexivity|].
  assert (a :: l <> []) as Hne by congruence.
  destruct (exists_last Hne) as [l' [b ->]].
  rewrite last_last, length_app, app_nth2; simpl; [|lia].
  replace (_ + 1 - 1 - _)%nat with 0%nat by lia. reflexivity.
Qed.

Lemma last_map {A B : Type} (f : A -> B) (l : list A) (d : A) :
  last (map f l) (f d) = f (last l d).
Proof.
  induction l as [|a l IH]; [reflexivity|].
  destruct l; [reflexivity|]. exact IH.
Qed.

End PyFacts.

(** ** geometry.py: Line *)

Module LineFacts.
Import Py PyFacts Geometry GeometrySpec.
Open Scope R_scope.

Lemma dist_sym a b : dist a b = dist b a.
Proof. unfold dist. f_equal. ring. Qed.

Lemma fold_left_plus (f : nat -> R) (ks : list nat) (acc : R) :
  fold_left (fun l i => l + f i) ks acc
  = acc + fold_left (fun l i => l + f i) ks 0.
Proof.
  revert acc. induction ks as [|i ks IH]; intro acc; simpl.
  - ring.
  - rewrite IH, (IH (0 + f i)). ring.
Qed.

Lemma fold_left_shift (f : nat -> R) (s n : nat) :
  fold_left (fun l i => l + f i) (seq (S s) n) 0
  = fold_left (fun l i => l + f (S i)) (seq s n) 0.
Proof.
  generalize 0. revert s.
  induction n as [|n IH]; intros s acc; simpl; [reflexivity|apply IH].
Qed.

(** The loop of [calc_length] computes the length of the polyline. *)
Lemma calc_length_path ps : calc_length ps = path ps.
Proof.
  unfold calc_length, range. rewrite Nat.sub_0_r.
  induction ps as [|a ps IH]; [reflexivity|].
  destruct ps as [|b ps]; [reflexivity|].
  change (List.length (a :: b :: ps) - 1)%nat with (S (List.length ps)).
  change (List.length (b :: ps) - 1)%nat with (List.length ps - 0)%nat in IH.
  rewrite Nat.sub_0_r in IH.
  rewrite <- cons_seq. cbn [fold_left].
  rewrite fold_left_plus, fold_left_shift.
  change (path (a :: b :: ps)) with (dist a b + path (b :: ps)).
  rewrite <- IH. unfold segment at 1. cbn [nth]. fold (dist a b).
  f_equal. ring.
Qed.

Lemma path_snoc ps b a :
  path (ps ++ [b; a]) = path (ps ++ [b]) + dist b a.
Proof.
  induction ps as [|c ps IH]; simpl.
  - ring.
  - destruct ps as [|c' ps]; simpl in *; [ring|].
    rewrite IH. ring.
Qed.

Lemma path_rev ps : path (rev ps) = path ps.
Proof.
  induction ps as [|a ps IH]; [reflexivity|].
  destruct ps as [|b ps]; [reflexivity|].
  change (rev (a :: b :: ps)) with ((rev ps ++ [b]) ++ [a]).
  rewrite <- app_assoc. cbn [app].
  rewrite path_snoc.
  change (rev ps ++ [b]) with (rev (b :: ps)). rewrite IH.
  change (path (a :: b :: ps)) with (dist a b + path (b :: ps)).
  rewrite (dist_sym a b). ring.
Qed.

Lemma nth_error_alloc_old (h : heap) (l : Line) (a : nat) :
  (a < List.length h)%nat -> nth_error (fst (alloc h l)) a = nth_error h a.
Proof. intro Ha. unfold alloc; simpl. now apply nth_error_app1. Qed.

Lemma nth_error_alloc_new (h : heap) (l : Line) :
  nth_error (fst (alloc h l)) (snd (alloc h l)) = Some l.
Proof.
  unfold alloc; simpl. rewrite nth_error_app2 by lia.
  now rewrite Nat.sub_diag.
Qed.

Lemma nth_error_store_same (h : heap) (a : nat) (l : Line) :
  (a < List.length h)%nat -> nth_error (store h a l) a = Some l.
Proof.
  revert a. induction h as [|l0 h IH]; intros a Ha; simpl in *; [lia|].
  destruct a; simpl; [reflexivity|]. apply IH. lia.
Qed.

Lemma nth_error_store_other (h : heap) (a b : nat) (l : Line) :
  a <> b -> nth_error (store h a l) b = nth_error h b.
Proof.
  revert a b. induction h as [|l0 h IH]; intros a b Hab; [reflexivity|].
  destruct a, b; simpl; try reflexivity; try congruence.
  apply IH. congruence.
Qed.

(** In contrast with [reverse_copy], [reverse] overwrites the points of
    the Line it is called on (and leaves [xval] and [yval] in the former
    order); the other Lines are not touched. *)
Lemma reverse_in_place (h : heap) (self : nat) (l : Line) :
  nth_error h self = Some l ->
  exists h1,
    reverse h self = Some (h1, self)
    /\ nth_error h1 self
       = Some (mkLine (rev (p l)) (xval l) (yval l) (length l))
    /\ forall a, a <> self -> nth_error h1 a = nth_error h a.
Proof.
  intro Hl. unfold reverse. rewrite Hl. eexists. split; [reflexivity|].
  split.
  - apply nth_error_store_same. apply nth_error_Some. congruence.
  - intros a Ha. apply nth_error_store_other. congruence.
Qed.

(** C6. [reverse_copy] on a Line [l] returns a Line at a fresh address whose
    points are those of [l] reversed; every Line that existed before the
    call, [l] included, is left as it was; and reversing the copy again
    gives a Line with the points (and coordinate lists) of [l]. *)
Theorem reverse_copy_spec (h : heap) (self : nat) (l : Line) :
  nth_error h self = Some l ->
  exists h1 r1 l1,
    reverse_copy h self = Some (h1, r1)
    /\ nth_error h r1 = None
    /\ nth_error h1 r1 = Some l1
    /\ p l1 = rev (p l)
    /\ xval l1 = rev (map x (p l))
    /\ yval l1 = rev (map y (p l))
    /\ (forall a, (a < List.length h)%nat -> nth_error h1 a = nth_error h a)
    /\ exists h2 r2 l2,
         reverse_copy h1 r1 = Some (h2, r2)
         /\ nth_error h2 r2 = Some l2
         /\ p l2 = p l
         /\ xval l2 = map x (p l)
         /\ yval l2 = map y (p l)
         /\ nth_error h2 self = Some l
         /\ nth_error h2 r1 = Some l1.
Proof.
  intro Hl.
  assert (self < List.length h)%nat as Hself
    by (apply nth_error_Some; congruence).
  set (l1 := Line_init (rev (p l))).
  exists (fst (alloc h l1)), (snd (alloc h l1)), l1.
  assert (nth_error (fst (alloc h l1)) (snd (alloc h l1)) = Some l1) as H1
    by apply nth_error_alloc_new.
  repeat split.
  - unfold reverse_copy. rewrite Hl. reflexivity.
  - apply nth_error_None. simpl. lia.
  - exact H1.
  - simpl. now rewrite map_rev.
  - simpl. now rewrite map_rev.
  - intros a Ha. now apply nth_error_alloc_old.
  - set (h1 := fst (alloc h l1)) in *. set (r1 := snd (alloc h l1)) in *.
    set (l2 := Line_init (rev (p l1))).
    assert (r1 < List.length h1)%nat as Hr1
      by (apply nth_error_Some; congruence).
    exists (fst (alloc h1 l2)), (snd (alloc h1 l2)), l2.
    repeat split.
    + unfold reverse_copy. rewrite H1. reflexivity.
    + apply nth_error_alloc_new.
    + simpl. apply rev_involutive.
    + simpl. now rewrite rev_involutive.
    + simpl. now rewrite rev_involutive.
    + rewrite nth_error_alloc_old.
      * unfold h1. now rewrite nth_error_alloc_old.
      * unfold h1. simpl. rewrite length_app. lia.
    + now rewrite nth_error_alloc_old.
Qed.

Lemma reverse_copy_spec_witness :
  let l := Line_init [mkPoint 0 0; mkPoint 3 4; mkPoint 3 5] in
  nth_error [l] 0 = Some l
  /\ exists h1 r1 l1,
       reverse_copy [l] 0 = Some (h1, r1)
       /\ nth_error h1 r1 = Some l1
       /\ p l1 = [mkPoint 3 5; mkPoint 3 4; mkPoint 0 0]
       /\ nth_error h1 0 = Some l.
Proof.
  intro l. split; [reflexivity|].
  destruct (reverse_copy_spec [l] 0 l eq_refl)
    as (h1 & r1 & l1 & H1 & _ & H2 & H3 & _ & _ & H4 & _).
  exists h1, r1, l1. repeat split; try assumption.
  apply (H4 0%nat). simpl. lia.
Defined.

(** The distances that [calc_length] adds for the reversed points are
    those it adds for the points, in the opposite order. *)
Lemma segments_rev (ps : list Point) :
  map (segment (rev ps)) (range 0 (List.length (rev ps) - 1))
  = rev (map (segment ps) (range 0 (List.length ps - 1))).
Proof.
  rewrite length_rev. unfold range. rewrite !Nat.sub_0_r.
  set (n := List.length ps).
  apply (nth_ext _ _ 0 0).
  - now rewrite length_rev, !length_map.
  - intros i Hi. rewrite length_map, length_seq in Hi.
    rewrite rev_nth by (rewrite length_map, length_seq; exact Hi).
    rewrite length_map, length_seq.
    rewrite (nth_indep _ 0 (segment (rev ps) 0))
      by (rewrite length_map, length_seq; exact Hi).
    rewrite (nth_indep _ 0 (segment ps 0))
      by (rewrite length_map, length_seq; lia).
    rewrite !map_nth, !seq_nth by lia. cbn [Nat.add].
    unfold segment. rewrite !rev_nth by (fold n; lia). fold n.
    replace (n - S (S i))%nat with (n - 1 - S i)%nat by lia.
    replace (n - S i)%nat with (S (n - 1 - S i))%nat by lia.
    f_equal. ring.
Qed.

(** C7 (amended). In exact arithmetic, for every Line [l] the Line that
    [reverse_copy] returns has the same length as [l]: the distances
    between consecutive points that are added for the copy are those added
    for [l], in the opposite order, their sum is the same, and it is the
    value stored in the [length] attribute of the copy (hence the [length]
    attribute of [l] itself, when that one is up to date). *)
Theorem reverse_copy_length (h : heap) (self : nat) (l : Line) :
  nth_error h self = Some l ->
  exists h1 r1 l1,
    reverse_copy h self = Some (h1, r1)
    /\ nth_error h1 r1 = Some l1
    /\ map (segment (p l1)) (range 0 (List.length (p l1) - 1))
       = rev (map (segment (p l)) (range 0 (List.length (p l) - 1)))
    /\ calc_length (p l1) = calc_length (p l)
    /\ length l1 = calc_length (p l)
    /\ (length l = calc_length (p l) -> length l1 = length l).
Proof.
  intro Hl. unfold reverse_copy. rewrite Hl.
  set (l1 := Line_init (rev (p l))).
  exists (fst (alloc h l1)), (snd (alloc h l1)), l1.
  split; [reflexivity|]. split; [apply nth_error_alloc_new|].
  split; [apply segments_rev|].
  simpl. rewrite !calc_length_path.
  split; [apply path_rev|]. split; [apply path_rev|].
  intros ->. apply path_rev.
Qed.

Lemma reverse_copy_length_witness :
  let l := Line_init [mkPoint 0 0; mkPoint 3 4; mkPoint 3 5] in
  nth_error [l] 0 = Some l
  /\ exists h1 r1 l1,
       reverse_copy [l] 0 = Some (h1, r1)
       /\ nth_error h1 r1 = Some l1
       /\ map (segment (p l1)) (range 0 (List.length (p l1) - 1))
          = rev (map (segment (p l)) (range 0 (List.length (p l) - 1)))
       /\ calc_length (p l1) = calc_length (p l)
       /\ length l1 = calc_length (p l)
       /\ (length l = calc_length (p l) -> length l1 = length l).
Proof.
  intro l. split; [reflexivity|].
  exact (reverse_copy_length [l] 0 l eq_refl).
Defined.


End LineFacts.

(** ** The length of a reversed copy in binary64 *)

Module Binary64Facts.
Import PrimFloat.

(** C7, as stated, fails in binary64: on the Line through (6,0), (1,2),
    (3,0), (1,0) the three distances are added from the other end for the
    reversed copy, and the two sums differ in the last digit:
    10.213591931880694 for the Line, 10.213591931880693 for the copy. *)
Lemma reverse_copy_length_binary64 :
  Binary64.length Binary64.zigzag = 0x1.46d5bebf43bedp+3%float
  /\ Binary64.length (Binary64.reverse_copy Binary64.zigzag)
     = 0x1.46d5bebf43becp+3%float
  /\ Binary64.length (Binary64.reverse_copy Binary64.zigzag)
     <> Binary64.length Binary64.zigzag.
Proof.
  split; [vm_compute; reflexivity|]. split; [vm_compute; reflexivity|].
  intro H.
  apply (f_equal (fun v => PrimFloat.ltb v (Binary64.length Binary64.zigzag)))
    in H.
  vm_compute in H. discriminate H.
Qed.

End Binary64Facts.

(** ** geometry.py: Line.fluff *)

Module FluffFacts.
Import Py PyFacts Geometry GeometrySpec.
Open Scope R_scope.


Lemma linspace_ok (vs : list R) (i : nat) (num : Z) :
  (0 <= num)%Z ->
  linspace (nth i vs 0) (nth (S i) vs 0) num = Ok (block num vs i).
Proof.
  intro Hn. unfold linspace, block, range.
  assert ((num <? 0)%Z = false) as -> by (apply Z.ltb_ge; lia).
  now rewrite Nat.sub_0_r.
Qed.

(** The loop of [fluff], started at pair [s] for [k] passes. *)
Lemma fluff_loop (xs ys : list R) (num : Z) (k s : nat) (ax ay : list R) :
  (0 <= num)%Z ->
  (s + k < List.length xs)%nat -> List.length ys = List.length xs ->
  for_ (seq s k)
    (fun i '(x_fluff, y_fluff) =>
       x0 <- index xs (Z.of_nat i) ;;
       x1 <- index xs (Z.of_nat i + 1) ;;
       bx <- linspace x0 x1 num ;;
       y0 <- index ys (Z.of_nat i) ;;
       y1 <- index ys (Z.of_nat i + 1) ;;
       by_ <- linspace y0 y1 num ;;
       Ok (x_fluff ++ bx, y_fluff ++ by_))
    (ax, ay)
  = Ok (ax ++ List.concat (map (block num xs) (seq s k)),
        ay ++ List.concat (map (block num ys) (seq s k))).
Proof.
  intros Hn. revert s ax ay.
  induction k as [|k IH]; intros s ax ay Hs Hlen; simpl.
  - now rewrite !app_nil_r.
  - rewrite (index_nat xs s 0), (index_succ xs s 0) by lia.
    rewrite (index_nat ys s 0), (index_succ ys s 0) by lia.
    simpl. rewrite !linspace_ok by assumption. simpl.
    rewrite IH by lia. now rewrite !app_assoc.
Qed.

Lemma block_shift (num : Z) (a : R) (vs : list R) (s k : nat) :
  map (block num (a :: vs)) (seq (S s) k) = map (block num vs) (seq s k).
Proof. rewrite <- seq_shift, map_map. reflexivity. Qed.

Lemma block_interp (num : Z) (a b : R) (vs : list R) :
  (1 <= num)%Z ->
  block num (a :: b :: vs) 0 = map (interp a b (Z.to_nat num)) (seq 0 (Z.to_nat num)).
Proof.
  intro Hn. unfold block. apply map_ext. intro k. cbn [nth].
  unfold interp.
  assert (INR (Z.to_nat num) = IZR num) as ->
    by (rewrite INR_IZR_INZ, Z2Nat.id by lia; reflexivity).
  field. apply not_0_IZR. lia.
Qed.

Lemma blocks_samples (num : Z) (vs : list R) (d : R) :
  (1 <= num)%Z -> vs <> [] ->
  List.concat (map (block num vs) (seq 0 (List.length vs - 1))) ++ [last vs d]
  = samples vs (Z.to_nat num).
Proof.
  intros Hn. induction vs as [|a vs IH]; intro Hne; [congruence|].
  destruct vs as [|b vs]; [reflexivity|].
  change (List.length (a :: b :: vs) - 1)%nat with (S (List.length vs)).
  rewrite <- cons_seq. cbn [map List.concat].
  rewrite block_shift, block_interp by assumption.
  change (last (a :: b :: vs) d) with (last (b :: vs) d).
  rewrite <- app_assoc.
  change (samples (a :: b :: vs) (Z.to_nat num))
    with (map (interp a b (Z.to_nat num)) (seq 0 (Z.to_nat num))
          ++ samples (b :: vs) (Z.to_nat num)).
  f_equal. rewrite <- IH by congruence. simpl. now rewrite Nat.sub_0_r.
Qed.

Lemma samples_length (vs : list R) (num : nat) :
  vs <> [] ->
  List.length (samples vs num) = (num * (List.length vs - 1) + 1)%nat.
Proof.
  induction vs as [|a vs IH]; intro Hne; [congruence|].
  destruct vs as [|b vs]; [simpl; lia|].
  change (samples (a :: b :: vs) num)
    with (map (interp a b num) (seq 0 num) ++ samples (b :: vs) num).
  rewrite length_app, length_map, length_seq, IH by congruence.
  simpl List.length. nia.
Qed.

Lemma samples_nth (vs : list R) (num i k : nat) (d : R) :
  (S i < List.length vs)%nat -> (k < num)%nat ->
  nth (i * num + k) (samples vs num) d
  = interp (nth i vs d) (nth (S i) vs d) num k.
Proof.
  revert i. induction vs as [|a vs IH]; intros i Hi Hk; [simpl in Hi; lia|].
  destruct vs as [|b vs]; [simpl in Hi; lia|].
  change (samples (a :: b :: vs) num)
    with (map (interp a b num) (seq 0 num) ++ samples (b :: vs) num).
  destruct i as [|i].
  - rewrite app_nth1 by (rewrite length_map, length_seq; simpl; lia).
    simpl Nat.add.
    rewrite (nth_indep _ d (interp a b num 0))
      by (rewrite length_map, length_seq; lia).
    rewrite map_nth, seq_nth by lia. reflexivity.
  - rewrite app_nth2 by (rewrite length_map, length_seq; simpl; lia).
    rewrite length_map, length_seq.
    replace (S i * num + k - num)%nat with (i * num + k)%nat by (simpl; lia).
    rewrite IH by (simpl in *; lia). reflexivity.
Qed.

Lemma samples_last (vs : list R) (num : nat) (d : R) :
  last (samples vs num) d = last vs d.
Proof.
  induction vs as [|a vs IH]; [reflexivity|].
  destruct vs as [|b vs]; [reflexivity|].
  change (samples (a :: b :: vs) num)
    with (map (interp a b num) (seq 0 num) ++ samples (b :: vs) num).
  rewrite last_app_nonempty; [exact IH|].
  intro E. apply (f_equal (@List.length R)) in E.
  rewrite samples_length in E by congruence. simpl in E. lia.
Qed.

(** C8. For a Line of [n >= 2] points and [num >= 1], [fluff] returns two
    coordinate arrays of [num * (n - 1) + 1] entries: the pair of points
    [i], [i+1] gives the [num] samples at positions [i * num + k], [k < num],
    interpolated linearly from point [i] (at [k = 0]) towards point [i+1]
    (not reached); the final point of the Line is the last entry; so the
    first and last entries are the end points of the Line. *)
Theorem fluff_spec (ps : list Point) (num : Z) :
  (2 <= List.length ps)%nat -> (1 <= num)%Z ->
  let n := List.length ps in
  let m := Z.to_nat num in
  let o := mkPoint 0 0 in
  exists xf yf,
    fluff (Line_init ps) num = Ok (xf, yf)
    /\ xf = samples (map x ps) m /\ yf = samples (map y ps) m
    /\ List.length xf = (m * (n - 1) + 1)%nat
    /\ List.length yf = (m * (n - 1) + 1)%nat
    /\ (forall i k, (S i < n)%nat -> (k < m)%nat ->
          nth (i * m + k) xf 0 = interp (x (nth i ps o)) (x (nth (S i) ps o)) m k
          /\ nth (i * m + k) yf 0
             = interp (y (nth i ps o)) (y (nth (S i) ps o)) m k)
    /\ nth (m * (n - 1)) xf 0 = x (last ps o)
    /\ nth (m * (n - 1)) yf 0 = y (last ps o)
    /\ nth 0 xf 0 = x (hd o ps)
    /\ nth 0 yf 0 = y (hd o ps).
Proof.
  intros Hn Hnum n m o.
  assert (map x ps <> []) as Hx by (destruct ps; simpl in *; [lia|congruence]).
  assert (map y ps <> []) as Hy by (destruct ps; simpl in *; [lia|congruence]).
  exists (samples (map x ps) m), (samples (map y ps) m).
  split.
  { unfold fluff, range. cbn [xval yval Line_init].
    rewrite Nat.sub_0_r, length_map.
    rewrite fluff_loop by (rewrite ?length_map; lia).
    cbn [bind app].
    rewrite (index_last _ 0 Hx), (index_last _ 0 Hy). cbn [bind].
    rewrite <- (length_map x ps) at 1. rewrite <- (length_map y ps).
    rewrite !blocks_samples by (assumption || lia). reflexivity. }
  split; [reflexivity|]. split; [reflexivity|].
  rewrite !samples_length by assumption. rewrite !length_map. fold n.
  split; [reflexivity|]. split; [reflexivity|].
  split.
  { intros i k Hi Hk.
    rewrite !samples_nth by (rewrite ?length_map; assumption).
    rewrite (map_nth x ps o i : nth i (map x ps) 0 = _).
    rewrite (map_nth x ps o (S i) : nth (S i) (map x ps) 0 = _).
    rewrite (map_nth y ps o i : nth i (map y ps) 0 = _).
    rewrite (map_nth y ps o (S i) : nth (S i) (map y ps) 0 = _).
    split; reflexivity. }
  assert (forall vs : list R, vs <> [] -> List.length vs = n ->
          nth (m * (n - 1)) (samples vs m) 0 = last vs 0) as Hlast.
  { intros vs Hvs Hlen. rewrite <- (samples_last vs m 0), <- nth_last.
    rewrite samples_length by assumption. rewrite Hlen.
    now rewrite Nat.add_sub. }
  rewrite !Hlast by (assumption || apply length_map).
  rewrite (last_map x ps o : last (map x ps) 0 = _).
  rewrite (last_map y ps o : last (map y ps) 0 = _).
  split; [reflexivity|]. split; [reflexivity|].
  assert (0 < m)%nat as Hm by lia.
  generalize (samples_nth (map x ps) m 0 0 0).
  generalize (samples_nth (map y ps) m 0 0 0).
  rewrite !length_map. fold n. simpl Nat.add. intros Hy0 Hx0.
  rewrite Hx0, Hy0 by lia.
  destruct ps as [|a [|b ps]]; simpl in Hn; try lia.
  unfold interp. simpl. split; lra.
Qed.

Lemma fluff_spec_witness :
  let ps := [mkPoint 0 0; mkPoint 2 4] in
  (2 <= List.length ps)%nat /\ (1 <= 2)%Z
  /\ exists xf yf,
       fluff (Line_init ps) 2 = Ok (xf, yf)
       /\ List.length xf = 3%nat /\ List.length yf = 3%nat
       /\ nth 0 xf 0 = 0 /\ nth 2 yf 0 = 4.
Proof.
  intro ps. split; [simpl; lia|]. split; [lia|].
  destruct (fluff_spec ps 2) as (xf & yf & H & _ & _ & Hlx & Hly & _ & _ & Hy & Hx & _);
    [simpl; lia | lia |].
  exists xf, yf. repeat split; assumption.
Defined.

End FluffFacts.

(** ** geometry.py: segment_intersect *)

Module SegmentFacts.
Import Py PyFacts Geometry GeometrySpec.
Open Scope R_scope.

Lemma Rleb_true a b : Rleb a b = true <-> a <= b.
Proof. unfold Rleb. destruct (Rle_dec a b); split; intros; auto; discriminate. Qed.

Lemma linalg_solve_singular a b c d r0 r1 :
  a * d - b * c = 0 -> linalg_solve a b c d r0 r1 = Raise LinAlgError.
Proof.
  intro H. unfold linalg_solve. destruct (Req_dec_T _ 0); [reflexivity|tauto].
Qed.

Lemma linalg_solve_regular a b c d r0 r1 :
  a * d - b * c <> 0 ->
  linalg_solve a b c d r0 r1
  = Ok ((r0 * d - b * r1) / (a * d - b * c), (a * r1 - r0 * c) / (a * d - b * c)).
Proof.
  intro H. unfold linalg_solve. destruct (Req_dec_T _ 0); [tauto|reflexivity].
Qed.

(** What [linalg_solve] returns solves the system. *)
Lemma linalg_solve_sound a b c d r0 r1 s t :
  linalg_solve a b c d r0 r1 = Ok (s, t) ->
  a * s + b * t = r0 /\ c * s + d * t = r1.
Proof.
  unfold linalg_solve. destruct (Req_dec_T _ 0) as [|Hd]; [discriminate|].
  intro H. injection H as <- <-. split; field; exact Hd.
Qed.

(** C3. On the crossing diagonals ((0,0),(1,1)) and ((0,1),(1,0)) the
    function pairs the first points of the two Lines and their second
    points, so that the matrix of the system is [[0 0] [1 1]]: the call
    raises [LinAlgError] and returns no (True, (0.5, 0.5)). On the parallel
    segments ((0,0),(1,0)) and ((0,1),(1,1)) the matrix is [[0 0] [1 -1]]:
    the call raises [LinAlgError] and returns no False. *)
Theorem segment_intersect_examples :
  segment_intersect diag1 diag2 = Raise LinAlgError
  /\ segment_intersect par1 par2 = Raise LinAlgError.
Proof.
  split.
  - unfold segment_intersect, diag1, diag2. cbn [Line_init xval yval map x y].
    rewrite !index_0, !index_1. cbn [bind].
    rewrite linalg_solve_singular by lra. reflexivity.
  - unfold segment_intersect, par1, par2. cbn [Line_init xval yval map x y].
    rewrite !index_0, !index_1. cbn [bind].
    rewrite linalg_solve_singular by lra. reflexivity.
Qed.

(** C2. A pair of segments for which the solution of the system is
    (2, 1/2), with a parameter outside [0,1]: the call runs off the end of
    the function and its value is [None], not a pair (False, point). *)
Theorem segment_intersect_outside :
  segment_intersect far1 far2 = Ok None.
Proof.
  unfold segment_intersect, far1, far2. cbn [Line_init xval yval map x y].
  rewrite !index_0, !index_1. cbn [bind].
  rewrite linalg_solve_regular by lra. cbn [bind fst snd].
  replace (Rleb _ 1) with false; [reflexivity|].
  symmetry. apply not_true_iff_false. rewrite Rleb_true.
  intro H. apply (Rmult_le_compat_r 2) in H; [|lra].
  field_simplify in H; lra.
Qed.

(** On two Lines of two points each, with a regular system: the value
    is [(True, sol)] when both parameters are in [0,1], [None] otherwise. *)
Lemma segment_intersect_regular (a c b d : Point) :
  let m00 := x b - x a in
  let m01 := - x d + x c in
  let m10 := y b - y a in
  let m11 := - y d + y c in
  let det := m00 * m11 - m01 * m10 in
  let s := ((x c - x a) * m11 - m01 * (y c - y a)) / det in
  let t := (m00 * (y c - y a) - (x c - x a) * m10) / det in
  det <> 0 ->
  (0 <= s <= 1 /\ 0 <= t <= 1 ->
   segment_intersect (Line_init [a; c]) (Line_init [b; d])
   = Ok (Some (true, (s, t))))
  /\ (~ (0 <= s <= 1 /\ 0 <= t <= 1) ->
      segment_intersect (Line_init [a; c]) (Line_init [b; d]) = Ok None).
Proof.
  intros m00 m01 m10 m11 det s t Hdet.
  assert (segment_intersect (Line_init [a; c]) (Line_init [b; d])
          = if Rleb s 1 && Rleb t 1 && Rleb 0 s && Rleb 0 t
            then Ok (Some (true, (s, t))) else Ok None) as ->.
  { unfold segment_intersect. cbn [Line_init xval yval map].
    rewrite !index_0, !index_1. cbn [bind].
    rewrite linalg_solve_regular by exact Hdet. reflexivity. }
  split; intro H.
  - destruct H as [[H1 H2] [H3 H4]].
    apply Rleb_true in H1, H2, H3, H4. now rewrite H1, H2, H3, H4.
  - destruct (_ && _) eqn:E; [|reflexivity].
    rewrite !andb_true_iff, !Rleb_true in E. tauto.
Qed.

(** Every value the function returns is either [(True, sol)] with both
    parameters in [0,1], or [None]: no value [(False, _)] is ever
    returned. *)
Lemma segment_intersect_returns line1 line2 v :
  segment_intersect line1 line2 = Ok v ->
  v = None
  \/ exists s t, v = Some (true, (s, t)) /\ 0 <= s <= 1 /\ 0 <= t <= 1.
Proof.
  unfold segment_intersect.
  repeat (match goal with
          | |- context [bind ?c _] => destruct c; cbn [bind]; [|discriminate]
          end).
  destruct (_ && _) eqn:E; intro H; injection H as <-; [|now left].
  right. destruct a7 as [s t]. cbn [fst snd] in E.
  rewrite !andb_true_iff, !Rleb_true in E.
  exists s, t. repeat split; tauto.
Qed.

End SegmentFacts.

(** ** SF45.py: GetBoundaryPoints, AdjustPatch, GetNpoints *)

Module SF45Facts.
Import Py PyFacts SF45 SF45Spec.
Import Geometry(Point, mkPoint).
Open Scope Z_scope.

Lemma boundary_of_E (h : nat -> Patch) (items : list (string * nat))
    (name : string) :
  boundary_of h items name "E"
  = option_map (fun a => W_vertices (h a)) (assoc items name).
Proof.
  induction items as [|[n a] items IH]; [reflexivity|].
  simpl. destruct (String.eqb n name); [reflexivity|exact IH].
Qed.

Lemma boundary_of_W (h : nat -> Patch) (items : list (string * nat))
    (name : string) :
  boundary_of h items name "W"
  = option_map (fun a => W_vertices (h a)) (assoc items name).
Proof.
  induction items as [|[n a] items IH]; [reflexivity|].
  simpl. destruct (String.eqb n name); [reflexivity|exact IH].
Qed.

(** An 'E' query on a patch whose East and West vertex lists differ does
    not return the East one. *)
Lemma GetBoundaryPoints_not_E (self : t) (name : string) (a : nat) :
  assoc (patches self) name = Some a ->
  E_vertices (objects self a) <> W_vertices (objects self a) ->
  GetBoundaryPoints self (Some (name, "E"%string))
  <> Some (E_vertices (objects self a)).
Proof.
  intros Ha Hne. unfold GetBoundaryPoints.
  rewrite boundary_of_E, Ha. simpl. congruence.
Qed.

(** C10. Asked for the boundary 'E' of a patch, [GetBoundaryPoints] gives
    what it gives for 'W': the [W_vertices] of the patch stored under that
    name ([None] if there is none). The answer to an 'E' query does not
    depend on the [E_vertices] of any patch. *)
Theorem GetBoundaryPoints_E_is_W (self : t) (name : string) :
  GetBoundaryPoints self (Some (name, "E"%string))
  = option_map (fun a => W_vertices (objects self a)) (assoc (patches self) name)
  /\ GetBoundaryPoints self (Some (name, "W"%string))
     = option_map (fun a => W_vertices (objects self a))
                  (assoc (patches self) name)
  /\ forall (a : nat) (ev : list Point),
       GetBoundaryPoints
         (with_objects self
            (put (objects self) a (set_E_vertices (objects self a) ev)))
         (Some (name, "E"%string))
       = GetBoundaryPoints self (Some (name, "E"%string)).
Proof.
  unfold GetBoundaryPoints. cbn [objects patches with_objects].
  rewrite boundary_of_E, boundary_of_W. repeat split.
  intros a ev. rewrite boundary_of_E.
  destruct (assoc (patches self) name) as [b|]; [|reflexivity].
  simpl. unfold put. destruct (Nat.eqb_spec b a) as [->|]; reflexivity.
Qed.

Ltac in_table H :=
  simpl in H;
  repeat (destruct H as [H|H]; [try discriminate H|]);
  try contradiction.

Ltac not_in_table H c :=
  destruct c; cbn; try reflexivity;
  exfalso;
  first [ apply (H X1); simpl; solve [repeat (first [left; reflexivity | right])]
        | apply (H X2); simpl; solve [repeat (first [left; reflexivity | right])] ].

(** C5. [AdjustPatch] on a patch moves each corner that the patch tag
    places on an X-point to that X-point, exactly. Every other corner of
    the patch keeps its vertex, the other attributes of the patch are
    untouched, and so is every other patch object. A patch of any other tag
    is left as it is. *)
Theorem AdjustPatch_snaps_only_designated (self : t) (a : nat) :
  let P := objects self a in
  let self' := AdjustPatch self a in
  let P' := objects self' a in
  (forall c X, In (tag P, c, X) snap_table -> corner P' c = xpt self X)
  /\ (forall c, (forall X, ~ In (tag P, c, X) snap_table) ->
                corner P' c = corner P c)
  /\ P' = set_corner P (corner P')
  /\ (forall a', a' <> a -> objects self' a' = objects self a')
  /\ with_objects self' (objects self) = self.
Proof.
  intros P self' P'.
  assert (with_objects self' (objects self) = self) as Hself
    by (destruct self; reflexivity).
  assert (forall a', a' <> a -> objects self' a' = objects self a') as Hframe.
  { intros a' Ha'. subst self'. unfold AdjustPatch. cbn [objects with_objects].
    repeat match goal with
           | |- context [if ?b then _ else _] => destruct b
           end;
      unfold put; apply Nat.eqb_neq in Ha'; rewrite ?Ha'; reflexivity. }
  assert (P' = objects (AdjustPatch self a) a) as HP' by reflexivity.
  clearbody self' P'. subst P'.
  cbv beta zeta delta [AdjustPatch]. cbn [objects with_objects].
  subst P. remember (tag (objects self a)) as tg eqn:Etg.
  repeat match goal with
         | |- context [String.eqb tg ?s] =>
             destruct (String.eqb_spec tg s) as [->|]
         end;
    unfold put, adjust_corner; rewrite ?Nat.eqb_refl; cbn [corner set_corner];
    (split; [intros c X H; in_table H;
             try (injection H as <- <-; reflexivity);
             try (injection H as E _ _; congruence)
            |split; [intros c H; try reflexivity; not_in_table H c
                    |split; [destruct (objects self a); reflexivity
                            |split; assumption]]]).
Qed.

Lemma bind_io_raises {A B : Type} (c : io A) (k : A -> io B) out :
  (forall a out', exists e, snd (k a out') = Raise e) ->
  exists e, snd (bind_io c k out) = Raise e.
Proof.
  intro H. unfold bind_io. destruct (c out) as [out' [v|e]].
  - apply H.
  - exists e. reflexivity.
Qed.

(** Whatever the configuration, the patch and the mode, a call of
    [GetNpoints] ends with an exception: its [return] reads [nr_cells],
    a name that nothing binds. *)
Lemma GetNpoints_always_raises (self : t) (P : Patch) (Enforce : bool) out :
  exists e, snd (GetNpoints self P Enforce out) = Raise e.
Proof.
  unfold GetNpoints.
  do 9 (apply bind_io_raises; intros ? ?;
        repeat match goal with
               | p : (_ * _)%type |- _ => destruct p
               end).
  eexists. reflexivity.
Qed.

Lemma setting_ok (self : t) (path : list string) (v : Z) :
  settings self path = Some v -> setting self path = Ok v.
Proof. intro H. unfold setting. now rewrite H. Qed.

(** With [Enforce] set, distinct poloidal counts for SOL and core raise
    [ValueError], and nothing is printed. *)
Lemma GetNpoints_enforce_poloidal (self : t) (P : Patch) out
    (np_sol np_core np_pf : Z) :
  settings self (grid_generation "np_sol") = Some np_sol ->
  settings self (grid_generation "np_core") = Some np_core ->
  settings self (grid_generation "np_pf") = Some np_pf ->
  np_sol <> np_core ->
  GetNpoints self P true out
  = (out, Raise (ValueError "SOL and CORE must have equal POLOIDAL np values")).
Proof.
  intros H1 H2 H3 Hne. unfold GetNpoints.
  rewrite (setting_ok _ _ _ H1), (setting_ok _ _ _ H2), (setting_ok _ _ _ H3).
  apply Z.eqb_neq in Hne.
  unfold bind_io, lift, try_except, raise. cbn. rewrite Hne. reflexivity.
Qed.

(** With [Enforce] set, equal poloidal counts and distinct radial counts
    for PF and core raise [ValueError]. *)
Lemma GetNpoints_enforce_radial (self : t) (P : Patch) out
    (np nr_sol nr_core nr_pf : Z) :
  settings self (grid_generation "np_global") = Some np ->
  settings self (grid_generation "np_sol") = None ->
  settings self (grid_generation "np_core") = None ->
  settings self (grid_generation "np_pf") = None ->
  settings self (grid_generation "nr_sol") = Some nr_sol ->
  settings self (grid_generation "nr_core") = Some nr_core ->
  settings self (grid_generation "nr_pf") = Some nr_pf ->
  nr_pf <> nr_core ->
  GetNpoints self P true out
  = (out, Raise (ValueError "PF and CORE must have equal RADIAL nr values")).
Proof.
  intros H0 H1 H2 H3 H4 H5 H6 Hne. unfold GetNpoints, setting.
  rewrite H0, H1, H2, H3, H4, H5, H6.
  apply Z.eqb_neq in Hne.
  unfold bind_io, lift, try_except, raise, ret. cbn.
  rewrite Z.eqb_refl. cbn. rewrite Hne. reflexivity.
Qed.

(** C4. In the lenient mode, on a configuration whose SOL and core
    poloidal counts differ (4 and 3) and whose PF and core radial counts
    differ (5 and 2), [GetNpoints] prints the two warnings and then raises
    [NameError] for [nr_cells]: no pair of counts is returned. *)
Theorem GetNpoints_lenient_raises_NameError :
  GetNpoints mismatched_self (plain_patch "A1" []) false []
  = ([Print "WARNING: SOL and CORE must have equal POLOIDAL np values! Setting np values to the minimum of np_sol={} and np_core={}." [4; 3];
      Print "WARNING: PF and CORE must have equal RADIAL nr values! Setting nr values to the minimum of nr_pf={} and nr_core={}." [5; 2]],
     Raise (NameError "nr_cells")).
Proof. reflexivity. Qed.

End SF45Facts.

(** ** SF45.py: concat_grid, the allocation *)

Module AllocFacts.
Import Py PyFacts SF45 SF45Spec.
Open Scope Z_scope.

Lemma sum_npol_loop (h : nat -> Patch) (es : list entry) (vs : list Z) :
  Forall2 (fun e v => entry_npol h e = Ok v) es vs ->
  forall acc,
    for_ es (fun e acc => v <- entry_npol h e ;; Ok (acc + (v - 1))) acc
    = Ok (acc + fold_right (fun v acc => (v - 1) + acc) 0 vs).
Proof.
  induction 1 as [|e v es vs He _ IH]; intro acc; simpl.
  - f_equal. lia.
  - rewrite He. simpl. rewrite IH. f_equal. lia.
Qed.

Lemma sum_nrad_loop (h : nat -> Patch) (c : Z) (rows : list (list entry))
    (vs : list Z) :
  Forall2 (fun row v => exists e, index row c = Ok e /\ entry_nrad h e = Ok v)
          rows vs ->
  forall acc,
    for_ rows (fun row acc => e <- index row c ;; v <- entry_nrad h e ;;
                              Ok (acc + (v - 1))) acc
    = Ok (acc + fold_right (fun v acc => (v - 1) + acc) 0 vs).
Proof.
  induction 1 as [|row v rows vs (e & He & Hv) _ IH]; intro acc; simpl.
  - f_equal. lia.
  - rewrite He. simpl. rewrite Hv. simpl. rewrite IH. f_equal. lia.
Qed.

Lemma total_ge_2 (vs : list Z) : Forall (Z.le 1) vs -> 2 <= total vs.
Proof.
  unfold total. induction 1 as [|v vs Hv _ IH]; simpl; lia.
Qed.

Lemma zeros_shape (a b : Z) :
  0 <= a -> 0 <= b ->
  exists arr, zeros a b = Ok arr /\ has_shape arr a b 5.
Proof.
  intros Ha Hb. unfold zeros.
  assert ((a <? 0) || (b <? 0) = false) as ->.
  { apply orb_false_intro; apply Z.ltb_ge; lia. }
  eexists. split; [reflexivity|]. split.
  - rewrite repeat_length. lia.
  - apply Forall_forall. intros plane Hp. apply repeat_spec in Hp. subst plane.
    split; [rewrite repeat_length; lia|].
    apply Forall_forall. intros line Hl. apply repeat_spec in Hl. now subst line.
Qed.

End AllocFacts.

(** ** SF45.py: concat_grid, the loops over the cells *)

Module ConcatFacts.
Import Py PyFacts SF45 SF45Spec AllocFacts.
Open Scope Z_scope.

Lemma for_raises_at {S A : Type} (xs : list A) (body : A -> S -> result S)
    (x : A) :
  In x xs -> (forall s, exists e, body x s = Raise e) ->
  forall s, exists e, for_ xs body s = Raise e.
Proof.
  intros Hin Hx. induction xs as [|a xs IH]; [contradiction|].
  intro s. simpl. destruct Hin as [->|Hin].
  - destruct (Hx s) as [e ->]. now exists e.
  - destruct (body a s) as [s'|e]; [now apply IH|now exists e].
Qed.

Lemma for_first_raise {S A : Type} (xs : list A) (body : A -> S -> result S)
    (s : S) (e : exn) :
  (forall y, In y xs -> body y s = Ok s \/ body y s = Raise e) ->
  (exists x, In x xs /\ body x s = Raise e) ->
  for_ xs body s = Raise e.
Proof.
  induction xs as [|a xs IH]; intros Hall (x & Hin & Hx); [contradiction|].
  simpl. destruct (Hall a (or_introl eq_refl)) as [E|E]; rewrite E;
    [|reflexivity].
  apply IH; [intros y Hy; apply Hall; now right|].
  destruct Hin as [->|Hin]; [congruence|now exists x].
Qed.

Lemma for_all_skip {S A : Type} (xs : list A) (body : A -> S -> result S)
    (s : S) :
  (forall y, In y xs -> body y s = Ok s) -> for_ xs body s = Ok s.
Proof.
  induction xs as [|a xs IH]; intro Hall; [reflexivity|].
  simpl. rewrite (Hall a (or_introl eq_refl)).
  apply IH. intros y Hy. apply Hall. now right.
Qed.

Lemma index_nth_error {A : Type} (xs : list A) (i : nat) (a : A) :
  nth_error xs i = Some a -> index xs (Z.of_nat i) = Ok a.
Proof.
  intro H. assert (i < List.length xs)%nat as Hi
    by (apply nth_error_Some; congruence).
  rewrite (index_nat xs i a Hi). f_equal.
  now apply nth_error_nth.
Qed.

Lemma load_Verbose :
  load_name module_globals "Verbose" = Raise (NameError "Verbose").
Proof. reflexivity. Qed.

Ltac step_raise :=
  repeat match goal with
         | |- exists e, bind (load_name module_globals "Verbose") _ = Raise e =>
             rewrite load_Verbose; eexists; reflexivity
         | |- exists e, bind ?c _ = Raise e =>
             destruct c; cbn [bind]; [|eexists; reflexivity]
         end.

(** Writing a cell never completes: whatever the indices, the pass for
    'CENTER' ends with an exception. *)
Lemma write_cell_raises (P : Patch) (ixcell jycell : Z) (ixl jyl : nat)
    (arrs : Array3 * Array3) :
  exists e, write_cell P ixcell jycell ixl jyl arrs = Raise e.
Proof.
  unfold write_cell.
  match goal with
  | |- exists e, bind (for_ ?xs ?body ?s) _ = Raise e =>
      assert (forall s', exists e, body CENTER s' = Raise e) as Hbody;
      [|destruct (for_raises_at xs body CENTER (or_introl eq_refl) Hbody s)
          as [e ->]; now exists e]
  end.
  intros [[rm zm] ind]. step_raise.
Qed.

Lemma axis_ok (n : nat) (i : Z) :
  0 <= i < Z.of_nat n -> axis n i = Ok (Z.to_nat i).
Proof.
  intro H. unfold axis.
  assert ((i <? 0) = false) as -> by (apply Z.ltb_ge; lia).
  assert ((0 <=? i) && (i <? Z.of_nat n) = true) as ->; [|reflexivity].
  apply andb_true_intro; split; [apply Z.leb_le | apply Z.ltb_lt]; lia.
Qed.

Lemma setitem3_ok (arr : Array3) (n0 n1 n2 i j k : Z) (v : R) :
  has_shape arr n0 n1 n2 ->
  0 <= i < n0 -> 0 <= j < n1 -> 0 <= k < n2 ->
  exists arr', setitem3 arr i j k v = Ok arr'.
Proof.
  intros [H0 H1] Hi Hj Hk. unfold setitem3.
  rewrite axis_ok by lia. cbn [bind].
  assert (In (nth (Z.to_nat i) arr []) arr) as Hin by (apply nth_In; lia).
  rewrite Forall_forall in H1. destruct (H1 _ Hin) as [Hp Hl].
  rewrite axis_ok by lia. cbn [bind].
  assert (In (nth (Z.to_nat j) (nth (Z.to_nat i) arr []) [])
             (nth (Z.to_nat i) arr [])) as Hin' by (apply nth_In; lia).
  rewrite Forall_forall in Hl. specialize (Hl _ Hin').
  rewrite axis_ok by lia. cbn [bind].
  eexists. reflexivity.
Qed.

(** With both arrays of the right shape and the indices in range, the
    pass for 'CENTER' writes [rm] and [zm] and then reads [Verbose]. *)
Lemma write_cell_NameError (P : Patch) (ixcell jycell : Z) (ixl jyl : nat)
    (rm zm : Array3) (n0 n1 : Z) (row : list Cell) (cell : Cell) :
  has_shape rm n0 n1 5 -> has_shape zm n0 n1 5 ->
  0 <= ixcell < n0 -> 0 <= jycell < n1 ->
  nth_error (cell_grid P) jyl = Some row -> nth_error row ixl = Some cell ->
  write_cell P ixcell jycell ixl jyl (rm, zm) = Raise (NameError "Verbose").
Proof.
  intros Hrm Hzm Hi Hj Hrow Hcell. unfold write_cell. cbn [for_ fst snd].
  rewrite (index_nth_error _ _ _ Hrow). cbn [bind].
  rewrite (index_nth_error _ _ _ Hcell). cbn [bind].
  destruct (setitem3_ok rm n0 n1 5 ixcell jycell 0
              (Geometry.x (vertices cell CENTER)) Hrm Hi Hj) as [rm' ->];
    [lia|].
  cbn [bind].
  destruct (setitem3_ok zm n0 n1 5 ixcell jycell 0
              (Geometry.y (vertices cell CENTER)) Hzm Hi Hj) as [zm' ->];
    [lia|].
  cbn [bind]. rewrite load_Verbose. reflexivity.
Qed.

Lemma fill_patch_skip (h : nat -> Patch) (pm : list (list entry))
    (c0 ixp : nat) (P : Patch) (nr_sum : Z) (arrs : Array3 * Array3) :
  height P <> 0%nat -> width P = 0%nat ->
  fill_patch h pm c0 ixp P nr_sum arrs = Ok arrs.
Proof.
  unfold height, width, fill_patch. intros Hh Hw.
  destruct (cell_grid P) as [|row0 rest]; [contradiction|].
  rewrite index_0. cbn [bind]. simpl in Hw. rewrite Hw. reflexivity.
Qed.

Lemma fill_patch_raises (h : nat -> Patch) (pm : list (list entry))
    (c0 ixp : nat) (P : Patch) (nr_sum : Z) (arrs : Array3 * Array3) :
  height P <> 0%nat -> width P <> 0%nat ->
  exists e, fill_patch h pm c0 ixp P nr_sum arrs = Raise e.
Proof.
  unfold height, width, fill_patch. intros Hh Hw.
  destruct (cell_grid P) as [|row0 rest] eqn:Eg; [contradiction|].
  rewrite index_0. cbn [bind]. simpl in Hw.
  apply for_raises_at with (x := 0%nat).
  { unfold range. destruct row0; [contradiction|]. simpl. now left. }
  intro s. apply for_raises_at with (x := 0%nat).
  { unfold range. simpl. now left. }
  intro s'.
  repeat match goal with
         | |- exists e, bind ?c _ = Raise e =>
             destruct c; cbn [bind]; [|eexists; reflexivity]
         end.
  apply write_cell_raises.
Qed.

Lemma fill_patch_NameError (h : nat -> Patch) (pm : list (list entry))
    (c0 ixp : nat) (P : Patch) (nr_sum : Z) (rm zm : Array3) (n0 n1 : Z)
    (row1 : list entry) (S nr : Z) :
  has_shape rm n0 n1 5 -> has_shape zm n0 n1 5 ->
  width P <> 0%nat -> height P <> 0%nat ->
  index pm 1 = Ok row1 ->
  sum_npol h (slice row1 c0 (ixp + 1)) = Ok S ->
  nrad P = Some nr ->
  0 <= S - Z.of_nat (width P) + 1 < n0 ->
  0 <= nr_sum - (nr - 1) + 1 < n1 ->
  fill_patch h pm c0 ixp P nr_sum (rm, zm) = Raise (NameError "Verbose").
Proof.
  unfold height, width, fill_patch.
  intros Hrm Hzm Hw Hh Hrow1 HS Hnr Hi Hj.
  destruct (cell_grid P) as [|row0 rest] eqn:Eg; [contradiction|].
  destruct row0 as [|cell row0]; [contradiction|].
  rewrite index_0. cbn [bind]. unfold range.
  cbn [List.length Nat.sub seq for_].
  rewrite Hrow1. cbn [bind]. rewrite HS. cbn [bind].
  rewrite Hnr. cbn [attr bind].
  rewrite (write_cell_NameError P _ _ 0 0 rm zm n0 n1 (cell :: row0) cell);
    try assumption; try reflexivity.
  - cbn [hd List.length] in Hi. cbn [List.length]. lia.
  - lia.
  - now rewrite Eg.
Qed.

Lemma entry_at_index (pm : list (list entry)) (r c : nat) (e : entry) :
  entry_at pm r c = Some e ->
  exists row, nth_error pm r = Some row /\ nth_error row c = Some e
              /\ index pm (Z.of_nat r) = Ok row
              /\ index row (Z.of_nat c) = Ok e.
Proof.
  unfold entry_at. destruct (nth_error pm r) as [row|] eqn:Er; [|discriminate].
  intro Hc. exists row. repeat split; auto using index_nth_error.
Qed.

Lemma fill_row_skip (h : nat -> Patch) (pm : list (list entry))
    (c0 c r a : nat) (arrs : Array3 * Array3) (n : Z) :
  entry_at pm r c = Some (PatchAt a) -> counted h a ->
  width (h a) = 0%nat ->
  fill_row h pm c0 c r (arrs, n)
  = Ok (arrs, n + (Z.of_nat (height (h a)) + 1 - 1)).
Proof.
  intros He (_ & Hnr & Hh) Hw.
  destruct (entry_at_index _ _ _ _ He) as (row & _ & _ & Hr & Hc).
  unfold fill_row. rewrite Hr. cbn [bind]. rewrite Hc. cbn [bind].
  rewrite Hnr. cbn [attr bind].
  rewrite fill_patch_skip by assumption. reflexivity.
Qed.

Lemma fill_row_raises (h : nat -> Patch) (pm : list (list entry))
    (c0 c r a : nat) :
  entry_at pm r c = Some (PatchAt a) ->
  width (h a) <> 0%nat -> height (h a) <> 0%nat ->
  forall st, exists e, fill_row h pm c0 c r st = Raise e.
Proof.
  intros He Hw Hh [arrs n].
  destruct (entry_at_index _ _ _ _ He) as (row & _ & _ & Hr & Hc).
  unfold fill_row. rewrite Hr. cbn [bind]. rewrite Hc. cbn [bind].
  destruct (attr (nrad (h a))) as [nr|e]; cbn [bind]; [|now exists e].
  destruct (fill_patch_raises h pm c0 c (h a) (n + (nr - 1)) arrs Hh Hw)
    as [e ->].
  now exists e.
Qed.

Lemma fill_row_NameError (h : nat -> Patch) (pm : list (list entry))
    (c0 c r a : nat) (rm zm : Array3) (n n0 n1 : Z) (row1 : list entry)
    (S : Z) :
  has_shape rm n0 n1 5 -> has_shape zm n0 n1 5 ->
  entry_at pm r c = Some (PatchAt a) -> counted h a ->
  width (h a) <> 0%nat ->
  index pm 1 = Ok row1 ->
  sum_npol h (slice row1 c0 (c + 1)) = Ok S ->
  0 <= S - Z.of_nat (width (h a)) + 1 < n0 ->
  0 <= n + 1 < n1 ->
  fill_row h pm c0 c r (rm, zm, n) = Raise (NameError "Verbose").
Proof.
  intros Hrm Hzm He (_ & Hnr & Hh) Hw Hrow1 HS Hi Hj.
  destruct (entry_at_index _ _ _ _ He) as (row & _ & _ & Hr & Hc).
  unfold fill_row. rewrite Hr. cbn [bind]. rewrite Hc. cbn [bind].
  rewrite Hnr. cbn [attr bind].
  rewrite (fill_patch_NameError h pm c0 c (h a) _ rm zm n0 n1 row1 S
             (Z.of_nat (height (h a)) + 1)); try assumption; try reflexivity.
  lia.
Qed.

Lemma fill_row_none (h : nat -> Patch) (pm : list (list entry))
    (c0 c r : nat) (st : (Array3 * Array3) * Z) :
  entry_at pm r c = Some NoPatch -> fill_row h pm c0 c r st = Ok st.
Proof.
  intro He. destruct st as [arrs n].
  destruct (entry_at_index _ _ _ _ He) as (row & _ & _ & Hr & Hc).
  unfold fill_row. rewrite Hr. cbn [bind]. rewrite Hc. reflexivity.
Qed.

(** A row of a column without cells: the placeholder, or a patch of no
    poloidal cell. *)
Lemma fill_row_pass (h : nat -> Patch) (pm : list (list entry))
    (c0 c r : nat) (arrs : Array3 * Array3) (n : Z) :
  entry_at pm r c = Some NoPatch
  \/ (exists a, entry_at pm r c = Some (PatchAt a) /\ counted h a
                /\ width (h a) = 0%nat) ->
  exists n', fill_row h pm c0 c r (arrs, n) = Ok (arrs, n').
Proof.
  intros [He|(a & He & Hc & Hw)].
  - exists n. now apply fill_row_none.
  - eexists. now apply (fill_row_skip h pm c0 c r a).
Qed.

Lemma fill_column_skip (h : nat -> Patch) (pm : list (list entry))
    (c0 c : nat) (arrs : Array3 * Array3) :
  (forall r, (1 <= r < 4)%nat ->
     entry_at pm r c = Some NoPatch
     \/ (exists a, entry_at pm r c = Some (PatchAt a) /\ counted h a
                   /\ width (h a) = 0%nat)) ->
  fill_column h pm c0 c arrs = Ok arrs.
Proof.
  intro H. unfold fill_column, range. cbn [Nat.sub seq for_].
  destruct (fill_row_pass h pm c0 c 1 arrs 0) as [n1 ->]; [apply H; lia|].
  destruct (fill_row_pass h pm c0 c 2 arrs n1) as [n2 ->]; [apply H; lia|].
  destruct (fill_row_pass h pm c0 c 3 arrs n2) as [n3 ->]; [apply H; lia|].
  reflexivity.
Qed.

Lemma fill_column_raises (h : nat -> Patch) (pm : list (list entry))
    (c0 c r a : nat) :
  (1 <= r < 4)%nat -> entry_at pm r c = Some (PatchAt a) ->
  width (h a) <> 0%nat -> height (h a) <> 0%nat ->
  forall arrs, exists e, fill_column h pm c0 c arrs = Raise e.
Proof.
  intros Hr He Hw Hh arrs. unfold fill_column.
  destruct (for_raises_at (range 1 4) (fill_row h pm c0 c) r) with (s := (arrs, 0))
    as [e ->]; [| now apply (fill_row_raises h pm c0 c r a) | now exists e].
  unfold range. simpl. lia.
Qed.

Lemma fill_column_NameError (h : nat -> Patch) (pm : list (list entry))
    (c0 c a : nat) (rm zm : Array3) (n0 n1 : Z) (row1 : list entry) (S : Z) :
  has_shape rm n0 n1 5 -> has_shape zm n0 n1 5 ->
  entry_at pm 1 c = Some (PatchAt a) -> counted h a ->
  width (h a) <> 0%nat ->
  index pm 1 = Ok row1 ->
  sum_npol h (slice row1 c0 (c + 1)) = Ok S ->
  0 <= S - Z.of_nat (width (h a)) + 1 < n0 ->
  2 <= n1 ->
  fill_column h pm c0 c (rm, zm) = Raise (NameError "Verbose").
Proof.
  intros Hrm Hzm He Hc Hw Hrow1 HS Hi Hj.
  unfold fill_column, range. cbn [Nat.sub seq for_].
  rewrite (fill_row_NameError h pm c0 c 1 a rm zm 0 n0 n1 row1 S);
    try assumption; [reflexivity|lia].
Qed.

(** *** Slices of a matrix row *)

Lemma firstn_add {A : Type} (n m : nat) (l : list A) :
  firstn (n + m) l = firstn n l ++ firstn m (skipn n l).
Proof.
  revert l. induction n as [|n IH]; intro l; [reflexivity|].
  destruct l as [|a l]; simpl; [now rewrite firstn_nil|].
  now rewrite IH.
Qed.

Lemma slice_split {A : Type} (l : list A) (a b c : nat) :
  (a <= b <= c)%nat -> slice l a c = slice l a b ++ slice l b c.
Proof.
  intro H. unfold slice.
  replace (c - a)%nat with ((b - a) + (c - b))%nat by lia.
  rewrite firstn_add, skipn_skipn.
  now replace (b - a + a)%nat with b by lia.
Qed.

Lemma slice_one {A : Type} (l : list A) (b : nat) (e : A) :
  nth_error l b = Some e -> slice l b (b + 1) = [e].
Proof.
  intro H. unfold slice. replace (b + 1 - b)%nat with 1%nat by lia.
  rewrite <- hd_error_skipn in H.
  destruct (skipn b l); [discriminate|]. simpl in *. congruence.
Qed.

Lemma In_slice {A : Type} (l : list A) (a b : nat) (x : A) :
  In x (slice l a b) ->
  exists i, (a <= i < b)%nat /\ nth_error l i = Some x.
Proof.
  unfold slice. intro H. apply In_nth_error in H as [i Hi].
  rewrite nth_error_firstn in Hi.
  destruct (Nat.ltb_spec i (b - a)) as [Hlt|]; [|discriminate].
  rewrite nth_error_skipn in Hi. exists (a + i)%nat. split; [lia|assumption].
Qed.

Lemma sum_npol_counted (h : nat -> Patch) (es : list entry) :
  Forall (counted_entry h) es ->
  sum_npol h es = Ok (Z.of_nat (sumw h es)).
Proof.
  unfold sum_npol, sumw. intro H.
  assert (forall acc,
            for_ es (fun e acc => v <- entry_npol h e ;; Ok (acc + (v - 1))) acc
            = Ok (acc + Z.of_nat (list_sum (map (ew h) es)))) as G.
  { induction H as [|e es (a & -> & Hn & _) _ IH]; intro acc; simpl.
    - f_equal. lia.
    - rewrite Hn. cbn [attr bind]. rewrite IH. f_equal. lia. }
  rewrite G. f_equal.
Qed.

Lemma sumw_app (h : nat -> Patch) (es1 es2 : list entry) :
  sumw h (es1 ++ es2) = (sumw h es1 + sumw h es2)%nat.
Proof. unfold sumw. now rewrite map_app, list_sum_app. Qed.

Lemma total_widths (h : nat -> Patch) (es : list entry) :
  total (map (fun e => Z.of_nat (ew h e) + 1) es) = Z.of_nat (sumw h es) + 2.
Proof.
  unfold total, sumw. f_equal.
  induction es as [|e es IH]; simpl; [reflexivity|]. rewrite IH. lia.
Qed.

(** *** A region of the patch matrix *)

Section Region.

Variable h : nat -> Patch.
Variable pm : list (list entry).
Variable c0 : nat.
Hypothesis Hgrid : grid_ok h pm c0.

Variable row1 : list entry.
Hypothesis Hrow1 : nth_error pm 1 = Some row1.

Lemma row1_entry (c : nat) (e : entry) :
  nth_error row1 c = Some e <-> entry_at pm 1 c = Some e.
Proof. unfold entry_at. now rewrite Hrow1. Qed.

Lemma row1_counted (a b : nat) :
  (c0 <= a)%nat -> (b <= c0 + 4)%nat ->
  Forall (counted_entry h) (slice row1 a b).
Proof.
  intros Ha Hb. apply Forall_forall. intros e He.
  apply In_slice in He as (i & Hi & Hn). apply row1_entry in Hn.
  destruct (Hgrid 1%nat i) as (a1 & E & C & _); [lia|lia|].
  exists a1. split; [congruence|assumption].
Qed.

(** The column [c] of the region: skipped when its patches have no cell,
    stopped by the read of [Verbose] otherwise. *)
Lemma column_outcome (c : nat) (rm zm : Array3) (n1 : Z) :
  (c0 <= c < c0 + 4)%nat ->
  has_shape rm (Z.of_nat (sumw h (slice row1 c0 (c0 + 4))) + 2) n1 5 ->
  has_shape zm (Z.of_nat (sumw h (slice row1 c0 (c0 + 4))) + 2) n1 5 ->
  2 <= n1 ->
  exists a1,
    entry_at pm 1 c = Some (PatchAt a1)
    /\ (width (h a1) = 0%nat ->
        fill_column h pm c0 c (rm, zm) = Ok (rm, zm))
    /\ (width (h a1) <> 0%nat ->
        fill_column h pm c0 c (rm, zm) = Raise (NameError "Verbose")).
Proof.
  intros Hc Hrm Hzm Hn1.
  destruct (Hgrid 1%nat c) as (a1 & E1 & C1 & _); [lia|lia|].
  exists a1. split; [assumption|]. split.
  - intro Hw. apply fill_column_skip. intros r Hr.
    destruct (Hgrid r c) as (a' & E' & _ & [(E & _)|(a & E & C & W)]);
      [lia|lia|now left|].
    right. exists a. split; [exact E|]. split; [exact C|].
    assert (a' = a1) by congruence. subst a'. lia.
  - intro Hw.
    assert (slice row1 c0 (c + 1) = slice row1 c0 c ++ [PatchAt a1]) as Es.
    { rewrite (slice_split row1 c0 c (c + 1)) by lia.
      now rewrite (slice_one row1 c (PatchAt a1)) by now apply row1_entry. }
    assert (slice row1 c0 (c0 + 4)
            = slice row1 c0 (c + 1) ++ slice row1 (c + 1) (c0 + 4)) as Et
      by (apply slice_split; lia).
    rewrite Et, sumw_app, Es, sumw_app in Hrm, Hzm.
    apply (fill_column_NameError h pm c0 c a1 rm zm _ n1 row1
             (Z.of_nat (sumw h (slice row1 c0 (c + 1)))) Hrm Hzm);
      try assumption.
    + change 1 with (Z.of_nat 1). now apply index_nth_error.
    + apply sum_npol_counted. apply row1_counted; lia.
    + rewrite Es, sumw_app. unfold sumw at 2 4. simpl. lia.
Qed.

Lemma region_skip (rm zm : Array3) (n1 : Z) :
  has_shape rm (Z.of_nat (sumw h (slice row1 c0 (c0 + 4))) + 2) n1 5 ->
  has_shape zm (Z.of_nat (sumw h (slice row1 c0 (c0 + 4))) + 2) n1 5 ->
  2 <= n1 ->
  (forall c a1, (c0 <= c < c0 + 4)%nat ->
     entry_at pm 1 c = Some (PatchAt a1) -> width (h a1) = 0%nat) ->
  fill_region h pm c0 (rm, zm) = Ok (rm, zm).
Proof.
  intros Hrm Hzm Hn1 Hw. unfold fill_region. apply for_all_skip.
  intros c Hc. unfold range in Hc. apply in_seq in Hc.
  destruct (column_outcome c rm zm n1) as (a1 & E & Hskip & _);
    try assumption; [lia|].
  apply Hskip. apply (Hw c); [lia|assumption].
Qed.

Lemma region_NameError (rm zm : Array3) (n1 : Z) (c a1 : nat) :
  has_shape rm (Z.of_nat (sumw h (slice row1 c0 (c0 + 4))) + 2) n1 5 ->
  has_shape zm (Z.of_nat (sumw h (slice row1 c0 (c0 + 4))) + 2) n1 5 ->
  2 <= n1 ->
  (c0 <= c < c0 + 4)%nat ->
  entry_at pm 1 c = Some (PatchAt a1) -> width (h a1) <> 0%nat ->
  fill_region h pm c0 (rm, zm) = Raise (NameError "Verbose").
Proof.
  intros Hrm Hzm Hn1 Hc E Hw. unfold fill_region. apply for_first_raise.
  - intros c' Hc'. unfold range in Hc'. apply in_seq in Hc'.
    destruct (column_outcome c' rm zm n1) as (a' & _ & Hskip & Hstop);
      try assumption; [lia|].
    destruct (Nat.eq_dec (width (h a')) 0); [left|right]; auto.
  - exists c. split; [unfold range; apply in_seq; lia|].
    destruct (column_outcome c rm zm n1) as (a' & E' & _ & Hstop);
      try assumption.
    apply Hstop. congruence.
Qed.

End Region.

Lemma region_outcome (h : nat -> Patch) (pm : list (list entry)) (c0 : nat)
    (row1 : list entry) (rm zm : Array3) (n1 : Z) :
  grid_ok h pm c0 -> nth_error pm 1 = Some row1 ->
  has_shape rm (Z.of_nat (sumw h (slice row1 c0 (c0 + 4))) + 2) n1 5 ->
  has_shape zm (Z.of_nat (sumw h (slice row1 c0 (c0 + 4))) + 2) n1 5 ->
  2 <= n1 ->
  fill_region h pm c0 (rm, zm) = Ok (rm, zm)
  \/ fill_region h pm c0 (rm, zm) = Raise (NameError "Verbose").
Proof.
  intros Hgrid Hrow1 Hrm Hzm Hn1. unfold fill_region.
  assert (forall c, In c (range c0 (c0 + 4)) ->
            fill_column h pm c0 c (rm, zm) = Ok (rm, zm)
            \/ fill_column h pm c0 c (rm, zm) = Raise (NameError "Verbose"))
    as Hcol.
  { intros c Hc. unfold range in Hc. apply in_seq in Hc.
    destruct (column_outcome h pm c0 Hgrid row1 Hrow1 c rm zm n1)
      as (a' & _ & Hskip & Hstop); try assumption; [lia|].
    destruct (Nat.eq_dec (width (h a')) 0); [left|right]; auto. }
  induction (range c0 (c0 + 4)) as [|c cs IH]; [now left|].
  simpl. destruct (Hcol c (or_introl eq_refl)) as [E|E]; rewrite E;
    [|now right].
  apply IH. intros c' Hc'. apply Hcol. now right.
Qed.

Lemma fill_region_raises (h : nat -> Patch) (pm : list (list entry))
    (c0 c r a : nat) :
  (c0 <= c < c0 + 4)%nat -> (1 <= r < 4)%nat ->
  entry_at pm r c = Some (PatchAt a) ->
  width (h a) <> 0%nat -> height (h a) <> 0%nat ->
  forall arrs, exists e, fill_region h pm c0 arrs = Raise e.
Proof.
  intros Hc Hr He Hw Hh. unfold fill_region.
  apply for_raises_at with (x := c).
  - unfold range. apply in_seq. lia.
  - now apply (fill_column_raises h pm c0 c r a).
Qed.

(** *** The first loop *)

Lemma update_counts_cell_grid (vals : list nat) (h : nat -> Patch) (x : nat) :
  cell_grid (fst (update_counts h vals) x) = cell_grid (h x).
Proof.
  revert h. induction vals as [|a vals IH]; intro h; [reflexivity|].
  simpl. destruct (index (cell_grid (h a)) 0) as [row0|e]; [|reflexivity].
  rewrite IH. unfold put. destruct (Nat.eqb x a) eqn:E; [|reflexivity].
  apply Nat.eqb_eq in E. now subst x.
Qed.

Lemma update_counts_ok (vals : list nat) (h : nat -> Patch) :
  (forall a, In a vals -> height (h a) <> 0%nat) ->
  snd (update_counts h vals) = Ok tt
  /\ forall x, In x vals \/ counted h x ->
               counted (fst (update_counts h vals)) x.
Proof.
  revert h. induction vals as [|a vals IH]; intros h Hfilled.
  - simpl. split; [reflexivity|]. intros x [[]|Hx]. exact Hx.
  - simpl. assert (height (h a) <> 0%nat) as Ha by (apply Hfilled; now left).
    unfold height in Ha.
    destruct (cell_grid (h a)) as [|row0 rest] eqn:Eg; [contradiction|].
    rewrite index_0.
    set (h1 := put h a (set_counts (h a) (Z.of_nat (List.length row0) + 1)
                          (Z.of_nat (List.length (row0 :: rest)) + 1))).
    assert (forall x, cell_grid (h1 x) = cell_grid (h x)) as Hg.
    { intro x. unfold h1, put. destruct (Nat.eqb x a) eqn:E; [|reflexivity].
      apply Nat.eqb_eq in E. now subst x. }
    assert (counted h1 a) as Hca.
    { unfold counted, width, height. rewrite Hg, Eg.
      unfold h1, put. rewrite Nat.eqb_refl. cbn. repeat split. lia. }
    destruct (IH h1) as [Hok Hc].
    { intros x Hx. unfold height. rewrite Hg. apply Hfilled. now right. }
    split; [exact Hok|].
    intros x [[->|Hx]|Hx]; apply Hc; auto.
    destruct (Nat.eq_dec x a) as [->|Hne]; [now right|].
    right. unfold counted, width, height in *. rewrite Hg.
    unfold h1, put. apply Nat.eqb_neq in Hne. now rewrite Hne.
Qed.

(** *** From the patch set to the regions *)

Lemma in_places (c0 r c : nat) :
  In (c0, r, c) places <->
  (c0 = 1 \/ c0 = 7)%nat /\ (1 <= r < 4)%nat /\ (c0 <= c < c0 + 4)%nat.
Proof.
  split.
  - intro H. cbv in H.
    repeat (destruct H as [H|H]; [injection H as <- <- <-; lia|]).
    contradiction.
  - intros ([-> | ->] & Hr & Hc).
    + assert (r = 1 \/ r = 2 \/ r = 3)%nat as Hr' by lia.
      assert (c = 1 \/ c = 2 \/ c = 3 \/ c = 4)%nat as Hc' by lia.
      cbv. intuition subst; tauto.
    + assert (r = 1 \/ r = 2 \/ r = 3)%nat as Hr' by lia.
      assert (c = 7 \/ c = 8 \/ c = 9 \/ c = 10)%nat as Hc' by lia.
      cbv. intuition subst; tauto.
Qed.

Lemma listed_In (self : t) (a : nat) :
  listed self a = true -> In a (map snd (patches self)).
Proof.
  unfold listed. intro H. apply existsb_exists in H as (x & Hx & E).
  apply Nat.eqb_eq in E. now subst x.
Qed.

Lemma conforming_place (self : t) (c0 r c : nat) :
  consistent self = true -> In (c0, r, c) places ->
  exists a1,
    entry_at (patch_matrix self) 1 c = Some (PatchAt a1)
    /\ ((entry_at (patch_matrix self) r c = Some NoPatch
         /\ r <> 1%nat /\ c <> c0)
        \/ exists a,
             entry_at (patch_matrix self) r c = Some (PatchAt a)
             /\ In a (map snd (patches self))
             /\ width (objects self a) = width (objects self a1)).
Proof.
  unfold consistent. intros H Hin. apply andb_true_iff in H as [_ H].
  rewrite forallb_forall in H. specialize (H _ Hin).
  unfold conforming in H.
  destruct (entry_at (patch_matrix self) r c) as [[|a]|]; try discriminate;
    destruct (entry_at (patch_matrix self) 1 c) as [[|a1]|];
    try discriminate; exists a1; (split; [reflexivity|]).
  - left. apply andb_true_iff in H as [Hr Hc].
    apply negb_true_iff, Nat.eqb_neq in Hr, Hc. auto.
  - right. apply andb_true_iff in H as [Hl Hw]. apply Nat.eqb_eq in Hw.
    exists a. auto using listed_In.
Qed.

Lemma consistent_grid_ok (self : t) (c0 : nat) :
  consistent self = true -> (c0 = 1 \/ c0 = 7)%nat ->
  snd (update_counts (objects self) (map snd (patches self))) = Ok tt
  /\ grid_ok (fst (update_counts (objects self) (map snd (patches self))))
             (patch_matrix self) c0.
Proof.
  intros Hcons Hc0.
  assert (forall a, In a (map snd (patches self)) ->
                    height (objects self a) <> 0%nat) as Hfilled.
  { intros a Ha. unfold consistent in Hcons.
    apply andb_true_iff in Hcons as [H _]. rewrite forallb_forall in H.
    specialize (H a Ha). apply negb_true_iff, Nat.eqb_neq in H. exact H. }
  destruct (update_counts_ok _ _ Hfilled) as [Hok Hcounted].
  split; [exact Hok|]. intros r c Hr Hc.
  destruct (conforming_place self c0 r c Hcons) as (a1 & E1 & Hrc);
    [apply in_places; tauto|].
  destruct (conforming_place self c0 1 c Hcons)
    as (b1 & F1 & [(_ & N & _)|(b & F & L1 & _)]);
    [apply in_places; split; [tauto|split; [lia|tauto]]|contradiction|].
  assert (b = a1) by congruence. subst b.
  exists a1. split; [exact E1|]. split; [apply Hcounted; now left|].
  destruct Hrc as [Hnone|(a & E & L & W)]; [now left|].
  right. exists a. split; [exact E|]. split; [apply Hcounted; now left|].
  unfold width. now rewrite !update_counts_cell_grid.
Qed.

(** *** The whole assembly *)

Lemma Forall2_map_spec {A B : Type} (R : A -> B -> Prop) (f : A -> B)
    (l : list A) :
  Forall (fun x => R x (f x)) l -> Forall2 R l (map f l).
Proof. induction 1; simpl; constructor; assumption. Qed.

Lemma rows_counted (h : nat -> Patch) (pm : list (list entry)) (c0 : nat) :
  grid_ok h pm c0 ->
  Forall2 (fun row v => exists e, index row (Z.of_nat c0) = Ok e
                                  /\ entry_nrad h e = Ok v)
          (slice pm 1 4) (map (row_nrad h c0) (slice pm 1 4)).
Proof.
  intro Hgrid. apply Forall2_map_spec, Forall_forall. intros row Hrow.
  apply In_slice in Hrow as (r & Hr & Hn).
  destruct (Hgrid r c0)
    as (_ & _ & _ & [(_ & _ & N)|(a & E & (_ & Hnr & _) & _)]);
    [lia|lia|contradiction|].
  unfold entry_at in E. rewrite Hn in E.
  exists (PatchAt a). split; [now apply index_nth_error|].
  unfold row_nrad. rewrite E. simpl. now rewrite Hnr.
Qed.

Lemma row_nrad_ge_1 (h : nat -> Patch) (c0 : nat) (rows : list (list entry)) :
  Forall (Z.le 1) (map (row_nrad h c0) rows).
Proof.
  apply Forall_forall. intros v Hv. apply in_map_iff in Hv as (row & <- & _).
  unfold row_nrad. destruct (nth_error row c0) as [[|a]|]; lia.
Qed.

Lemma widths_ge_1 (h : nat -> Patch) (es : list entry) :
  Forall (Z.le 1) (map (fun e => Z.of_nat (ew h e) + 1) es).
Proof.
  apply Forall_forall. intros v Hv. apply in_map_iff in Hv as (e & <- & _). lia.
Qed.

Lemma row_npol (h : nat -> Patch) (es : list entry) :
  Forall (counted_entry h) es ->
  Forall2 (fun e v => entry_npol h e = Ok v) es
          (map (fun e => Z.of_nat (ew h e) + 1) es).
Proof.
  intro H. apply Forall2_map_spec. revert H. apply Forall_impl.
  intros e (a & -> & Hn & _). simpl. now rewrite Hn.
Qed.

(** On a patch set whose two regions are in order, the allocation
    succeeds with the shapes that the loops over the cells rely on. *)
Lemma allocate_regions (h : nat -> Patch) (pm : list (list entry))
    (row1 : list entry) :
  grid_ok h pm 1 -> grid_ok h pm 7 -> nth_error pm 1 = Some row1 ->
  exists rm1 zm1 rm2 zm2 n1 n2,
    allocate h pm = Ok ((rm1, zm1), (rm2, zm2))
    /\ 2 <= n1 /\ 2 <= n2
    /\ has_shape rm1 (Z.of_nat (sumw h (slice row1 1 (1 + 4))) + 2) n1 5
    /\ has_shape zm1 (Z.of_nat (sumw h (slice row1 1 (1 + 4))) + 2) n1 5
    /\ has_shape rm2 (Z.of_nat (sumw h (slice row1 7 (7 + 4))) + 2) n2 5
    /\ has_shape zm2 (Z.of_nat (sumw h (slice row1 7 (7 + 4))) + 2) n2 5.
Proof.
  intros G1 G7 Hrow1.
  assert (index pm 1 = Ok row1) as Hrow
    by (change 1 with (Z.of_nat 1); now apply index_nth_error).
  pose proof (sum_npol_counted h _ (row1_counted h pm 1 G1 row1 Hrow1 1 5
                                      (le_n _) (le_n _))) as P1.
  pose proof (sum_npol_counted h _ (row1_counted h pm 7 G7 row1 Hrow1 7 11
                                      (le_n _) (le_n _))) as P7.
  pose proof (sum_nrad_loop h 1 _ _ (rows_counted h pm 1 G1) 0) as R1.
  pose proof (sum_nrad_loop h 7 _ _ (rows_counted h pm 7 G7) 0) as R7.
  pose proof (total_ge_2 _ (row_nrad_ge_1 h 1 (slice pm 1 4))) as L1.
  pose proof (total_ge_2 _ (row_nrad_ge_1 h 7 (slice pm 1 4))) as L7.
  unfold total in L1, L7.
  set (n1 := fold_right (fun v acc => v - 1 + acc) 0
                        (map (row_nrad h 1) (slice pm 1 4)) + 2) in *.
  set (n2 := fold_right (fun v acc => v - 1 + acc) 0
                        (map (row_nrad h 7) (slice pm 1 4)) + 2) in *.
  destruct (zeros_shape (Z.of_nat (sumw h (slice row1 1 5)) + 2) n1)
    as (a1 & Ea1 & Sa1); try lia.
  destruct (zeros_shape (Z.of_nat (sumw h (slice row1 7 11)) + 2) n2)
    as (a2 & Ea2 & Sa2); try lia.
  exists a1, a1, a2, a2, n1, n2.
  split; [|repeat split; (assumption || apply Sa1 || apply Sa2)].
  unfold allocate, totals, sum_nrad. rewrite Hrow. cbn [bind].
  rewrite P1. cbn [bind]. rewrite R1. cbn [bind].
  rewrite P7. cbn [bind]. rewrite R7. cbn [bind].
  rewrite !Z.add_0_l. fold n1 n2.
  rewrite Ea1. cbn [bind]. rewrite Ea2. reflexivity.
Qed.

Section Assemble.

Variable add_guardc : Array3 -> Z -> Z -> result Array3.
Variable animate_grid : t -> t * result unit.

Lemma assemble_NameError (h : nat -> Patch) (pm : list (list entry))
    (c0 c a1 : nat) :
  grid_ok h pm 1 -> grid_ok h pm 7 ->
  (c0 = 1 \/ c0 = 7)%nat -> (c0 <= c < c0 + 4)%nat ->
  entry_at pm 1 c = Some (PatchAt a1) -> width (h a1) <> 0%nat ->
  assemble add_guardc h pm = Raise (NameError "Verbose").
Proof.
  intros G1 G7 Hc0 Hc E Hw.
  assert (exists row1, nth_error pm 1 = Some row1) as [row1 Hrow1].
  { unfold entry_at in E. destruct (nth_error pm 1) as [row|]; [|discriminate].
    now exists row. }
  destruct (allocate_regions h pm row1 G1 G7 Hrow1)
    as (rm1 & zm1 & rm2 & zm2 & n1 & n2 & Ea & L1 & L2 & S1 & S2 & S3 & S4).
  unfold assemble. rewrite Ea. cbn [bind fill_and_join].
  destruct Hc0 as [-> | ->].
  - rewrite (region_NameError h pm 1 G1 row1 Hrow1 rm1 zm1 n1 c a1);
      try assumption. reflexivity.
  - destruct (region_outcome h pm 1 row1 rm1 zm1 n1 G1 Hrow1 S1 S2 L1)
      as [-> | ->]; [|reflexivity].
    cbn [bind].
    rewrite (region_NameError h pm 7 G7 row1 Hrow1 rm2 zm2 n2 c a1);
      try assumption. reflexivity.
Qed.

Lemma assemble_raises (h : nat -> Patch) (pm : list (list entry))
    (c0 r c a : nat) :
  In (c0, r, c) places -> entry_at pm r c = Some (PatchAt a) ->
  width (h a) <> 0%nat -> height (h a) <> 0%nat ->
  exists e, assemble add_guardc h pm = Raise e.
Proof.
  intros Hin E Hw Hh. apply in_places in Hin as (Hc0 & Hr & Hc).
  unfold assemble.
  destruct (allocate h pm) as [[[rm1 zm1] [rm2 zm2]]|e];
    cbn [bind fill_and_join]; [|now exists e].
  destruct Hc0 as [-> | ->].
  - destruct (fill_region_raises h pm 1 c r a Hc Hr E Hw Hh (rm1, zm1))
      as [e ->].
    now exists e.
  - destruct (fill_region h pm 1 (rm1, zm1)) as [[rm1' zm1']|e]; cbn [bind];
      [|now exists e].
    destruct (fill_region_raises h pm 7 c r a Hc Hr E Hw Hh (rm2, zm2))
      as [e ->].
    now exists e.
Qed.

End Assemble.

Lemma list_sum_pos (l : list nat) :
  (0 < list_sum l)%nat -> exists x, In x l /\ (0 < x)%nat.
Proof.
  induction l as [|x l IH]; simpl; [lia|]. intro H.
  destruct (Nat.eq_dec x 0) as [->|Hx].
  - destruct (IH H) as (y & Hy & Hpos). exists y. auto.
  - exists x. split; [now left|lia].
Qed.

(** A patch set with a cell has a visited place whose patch has a cell. *)
Lemma cells_place (self : t) :
  (0 < cells self)%nat ->
  exists c0 r c a,
    In (c0, r, c) places
    /\ entry_at (patch_matrix self) r c = Some (PatchAt a)
    /\ width (objects self a) <> 0%nat /\ height (objects self a) <> 0%nat.
Proof.
  unfold cells. intro H. apply list_sum_pos in H as (n & Hn & Hpos).
  apply in_map_iff in Hn as ([[c0 r] c] & <- & Hin).
  unfold cells_at in Hpos.
  destruct (entry_at (patch_matrix self) r c) as [[|a]|] eqn:E; try lia.
  exists c0, r, c, a. repeat split; try assumption; nia.
Qed.

(** C9 (amended). On a patch set with at least one cell to write,
    [concat_grid] ends with an exception, and [rm] and [zm] are not
    assigned. When every registered patch has cells and the visited part
    of the patch matrix is a block structure ([consistent]: registered
    patches in row 1 and in the first column of each region, elsewhere the
    placeholder [[None]] or a registered patch with as many poloidal cells
    as the patch of row 1 in its column), the first loop and the allocation
    succeed and the exception is the [NameError] raised for [Verbose] in
    the pass that writes the first cell: the flip of the indices, the guard
    cells and the concatenation are not reached. *)
Theorem concat_grid_raises_NameError
    (add_guardc : Array3 -> Z -> Z -> result Array3)
    (animate_grid : t -> t * result unit) (self : t) :
  (0 < cells self)%nat ->
  let out := concat_grid add_guardc animate_grid self in
  (exists e, snd out = Raise e)
  /\ (consistent self = true -> snd out = Raise (NameError "Verbose"))
  /\ rm (fst out) = rm self
  /\ zm (fst out) = zm self.
Proof.
  intro Hcells.
  destruct (cells_place self Hcells) as (c0 & r & c & a & Hin & E & Hw & Hh).
  unfold concat_grid.
  pose proof (update_counts_cell_grid (map snd (patches self)) (objects self))
    as Hg.
  pose proof (consistent_grid_ok self 1) as H1.
  pose proof (consistent_grid_ok self 7) as H7.
  destruct (update_counts (objects self) (map snd (patches self)))
    as [h' res]. cbn [fst snd] in Hg, H1, H7.
  cbn [patch_matrix with_objects].
  destruct res as [u|e0].
  - destruct (assemble_raises add_guardc h' (patch_matrix self) c0 r c a)
      as [e He]; try assumption.
    { unfold width. now rewrite Hg. }
    { unfold height. now rewrite Hg. }
    rewrite He. cbn. split; [now exists e|]. split; [|split; reflexivity].
    intro Hcons.
    destruct (H1 Hcons) as [_ G1]; [now left|].
    destruct (H7 Hcons) as [_ G7]; [now right|].
    destruct (conforming_place self c0 r c Hcons Hin)
      as (a1 & E1 & [(E' & _)|(a' & E' & _ & W)]); [congruence|].
    assert (a' = a) by congruence. subst a'.
    apply in_places in Hin as (Hc0 & _ & Hc).
    rewrite (assemble_NameError add_guardc h' (patch_matrix self) c0 c a1)
      in He; try assumption.
    + injection He as <-. reflexivity.
    + unfold width in *. rewrite Hg. congruence.
  - cbn. split; [now exists e0|]. split; [|split; reflexivity].
    intro Hcons. destruct (H1 Hcons) as [Hok _]; [now left|discriminate].
Qed.

Lemma concat_grid_raises_NameError_witness :
  (0 < cells SF45Cases.sparse_self)%nat
  /\ consistent SF45Cases.sparse_self = true
  /\ snd (concat_grid (fun arr _ _ => Ok arr) (fun self => (self, Ok tt))
                      SF45Cases.sparse_self)
     = Raise (NameError "Verbose").
Proof.
  assert (0 < cells SF45Cases.sparse_self)%nat as H
    by (apply Nat.ltb_lt; reflexivity).
  split; [exact H|]. split; [reflexivity|].
  destruct (concat_grid_raises_NameError
              (fun arr _ _ => Ok arr) (fun self => (self, Ok tt))
              SF45Cases.sparse_self H) as (_ & HN & _).
  exact (HN eq_refl).
Defined.

(** C9, as stated, fails: a patch set can have cells to write and stop
    before the loop that writes them. With a registered patch that has no
    row of cells the first loop raises [IndexError]; with the placeholder
    in row 1 of the patch matrix the sum of the poloidal counts raises
    [AttributeError]. In both cases no cell is written and [Verbose] is
    not read. *)
Lemma concat_grid_other_exceptions :
  ((0 < cells SF45Cases.unfilled_self)%nat
   /\ snd (concat_grid (fun arr _ _ => Ok arr) (fun self => (self, Ok tt))
                       SF45Cases.unfilled_self)
      = Raise IndexError)
  /\ ((0 < cells SF45Cases.holed_self)%nat
      /\ snd (concat_grid (fun arr _ _ => Ok arr) (fun self => (self, Ok tt))
                          SF45Cases.holed_self)
         = Raise AttributeError).
Proof.
  split; (split; [apply Nat.ltb_lt; reflexivity|reflexivity]).
Qed.

End ConcatFacts.

(** ** concat_grid: the arrays it allocates *)

Module AllocationFacts.
Import Py PyFacts SF45 SF45Spec AllocFacts ConcatFacts.
Open Scope Z_scope.

Section Allocation.

Variable add_guardc : Array3 -> Z -> Z -> result Array3.
Variable animate_grid : t -> t * result unit.
Variable self : t.

(** The counts that the first loop gives the patch at [a]: its cells in
    the poloidal direction plus one, its cells in the radial direction
    plus one. *)
Let count_p (a : nat) : Z := Z.of_nat (width (objects self a)) + 1.
Let count_r (a : nat) : Z := Z.of_nat (height (objects self a)) + 1.

Hypothesis Hfilled :
  forall a, In a (map snd (patches self)) -> cell_grid (objects self a) <> [].

Lemma first_loop :
  let h := fst (update_counts (objects self) (map snd (patches self))) in
  update_counts (objects self) (map snd (patches self)) = (h, Ok tt)
  /\ forall a, In a (map snd (patches self)) ->
       npol (h a) = Some (count_p a) /\ nrad (h a) = Some (count_r a).
Proof.
  intro h.
  assert (forall a, In a (map snd (patches self)) ->
                    height (objects self a) <> 0%nat) as Hh.
  { intros a Ha. unfold height. specialize (Hfilled a Ha).
    destruct (cell_grid (objects self a)); [congruence|discriminate]. }
  destruct (update_counts_ok _ (objects self) Hh) as [Hok Hc].
  split.
  - subst h. destruct (update_counts _ _) as [h r]. cbn [fst snd] in *.
    now subst r.
  - intros a Ha. destruct (Hc a (or_introl Ha)) as (Hn & Hr & _).
    fold h in Hn, Hr. unfold width, height in Hn, Hr.
    unfold h in Hn, Hr at 2. rewrite update_counts_cell_grid in Hn, Hr.
    now split.
Qed.

Lemma row_counts (h : nat -> Patch) (ps : list nat) :
  (forall a, In a ps -> npol (h a) = Some (count_p a)) ->
  Forall2 (fun e v => entry_npol h e = Ok v) (map PatchAt ps)
          (map count_p ps).
Proof.
  induction ps as [|a ps IH]; intro H; cbn [map]; constructor.
  - cbn [entry_npol]. rewrite (H a (or_introl eq_refl)). reflexivity.
  - apply IH. intros b Hb. apply H. now right.
Qed.

Lemma column_counts (h : nat -> Patch) (c : nat) (rows : list (list entry))
    (cs : list nat) :
  Forall2 (fun row a => nth_error row c = Some (PatchAt a)) rows cs ->
  (forall a, In a cs -> nrad (h a) = Some (count_r a)) ->
  Forall2 (fun row v => exists e, index row (Z.of_nat c) = Ok e
                                  /\ entry_nrad h e = Ok v)
          rows (map count_r cs).
Proof.
  induction 1 as [|row a rows cs Hrow _ IH]; intro H; cbn [map]; constructor.
  - exists (PatchAt a). split; [now apply index_nth_error|].
    cbn [entry_nrad]. rewrite (H a (or_introl eq_refl)). reflexivity.
  - apply IH. intros b Hb. apply H. now right.
Qed.

Lemma counts_ge_1 (f : nat -> nat) (l : list nat) :
  Forall (Z.le 1) (map (fun a => Z.of_nat (f a) + 1) l).
Proof.
  apply Forall_forall. intros v Hv. apply in_map_iff in Hv as (a & <- & _).
  lia.
Qed.

(** C1. On a patch set whose registered patches all have cells, and whose
    patch matrix holds registered patches in row 1 (columns 1 to 4 for the
    first region, 7 to 10 for the second) and in the first column of each
    region (rows 1 to 3 of column 1, of column 7): the first loop of
    [concat_grid] gives every registered patch its counts [npol] and
    [nrad]; the arrays [rm] and [zm] that [concat_grid] then allocates for
    a region have as poloidal dimension the sum of ([npol] - 1) over the
    patches of the row plus 2, as radial dimension the sum of ([nrad] - 1)
    over the patches of the column plus 2, and 5 as last dimension; and
    the rest of the call works on these four arrays. *)
Theorem concat_grid_allocation (row1 : list entry)
    (ps1 cs1 ps2 cs2 : list nat) :
  nth_error (patch_matrix self) 1 = Some row1 ->
  slice row1 1 5 = map PatchAt ps1 ->
  slice row1 7 11 = map PatchAt ps2 ->
  Forall2 (fun row a => nth_error row 1 = Some (PatchAt a))
          (slice (patch_matrix self) 1 4) cs1 ->
  Forall2 (fun row a => nth_error row 7 = Some (PatchAt a))
          (slice (patch_matrix self) 1 4) cs2 ->
  (forall a, In a (ps1 ++ cs1 ++ ps2 ++ cs2) ->
             In a (map snd (patches self))) ->
  let h := fst (update_counts (objects self) (map snd (patches self))) in
  (forall a, In a (map snd (patches self)) ->
     npol (h a) = Some (count_p a) /\ nrad (h a) = Some (count_r a))
  /\ exists rm1 zm1 rm2 zm2,
       allocate h (patch_matrix self) = Ok ((rm1, zm1), (rm2, zm2))
       /\ has_shape rm1 (total (map count_p ps1)) (total (map count_r cs1)) 5
       /\ has_shape zm1 (total (map count_p ps1)) (total (map count_r cs1)) 5
       /\ has_shape rm2 (total (map count_p ps2)) (total (map count_r cs2)) 5
       /\ has_shape zm2 (total (map count_p ps2)) (total (map count_r cs2)) 5
       /\ concat_grid add_guardc animate_grid self
          = finish animate_grid (with_objects self h)
              (fill_and_join add_guardc h (patch_matrix self)
                 ((rm1, zm1), (rm2, zm2))).
Proof.
  intros Hrow Hp1 Hp2 Hc1 Hc2 Hreg h.
  destruct first_loop as [Hu Hcounts]. fold h in Hu, Hcounts.
  split; [exact Hcounts|].
  assert (forall l, (forall a, In a l -> In a (ps1 ++ cs1 ++ ps2 ++ cs2)) ->
            (forall a, In a l -> npol (h a) = Some (count_p a))
            /\ (forall a, In a l -> nrad (h a) = Some (count_r a))) as Hin.
  { intros l Hl. split; intros a Ha; apply Hcounts, Hreg, Hl, Ha. }
  destruct (Hin ps1) as [Np1 _]; [intros; apply in_or_app; tauto|].
  destruct (Hin cs1) as [_ Nc1].
  { intros; apply in_or_app; right; apply in_or_app; tauto. }
  destruct (Hin ps2) as [Np2 _].
  { intros; apply in_or_app; right; apply in_or_app; right;
      apply in_or_app; tauto. }
  destruct (Hin cs2) as [_ Nc2].
  { intros; apply in_or_app; right; apply in_or_app; right;
      apply in_or_app; tauto. }
  assert (2 <= total (map count_p ps1)) as L1
    by exact (total_ge_2 _ (counts_ge_1 (fun a => width (objects self a)) ps1)).
  assert (2 <= total (map count_r cs1)) as L2
    by exact (total_ge_2 _ (counts_ge_1 (fun a => height (objects self a)) cs1)).
  assert (2 <= total (map count_p ps2)) as L3
    by exact (total_ge_2 _ (counts_ge_1 (fun a => width (objects self a)) ps2)).
  assert (2 <= total (map count_r cs2)) as L4
    by exact (total_ge_2 _ (counts_ge_1 (fun a => height (objects self a)) cs2)).
  destruct (zeros_shape (total (map count_p ps1)) (total (map count_r cs1)))
    as (a1 & Ea1 & Sa1); try lia.
  destruct (zeros_shape (total (map count_p ps2)) (total (map count_r cs2)))
    as (a2 & Ea2 & Sa2); try lia.
  assert (allocate h (patch_matrix self) = Ok ((a1, a1), (a2, a2))) as Ea.
  { unfold allocate, totals, sum_npol, sum_nrad.
    assert (index (patch_matrix self) 1 = Ok row1) as ->
      by exact (index_nth_error (patch_matrix self) 1 row1 Hrow).
    cbn [bind]. rewrite Hp1, Hp2.
    rewrite (sum_npol_loop h _ _ (row_counts h ps1 Np1)).
    rewrite (sum_nrad_loop h 1 _ _ (column_counts h 1 _ cs1 Hc1 Nc1)).
    cbn [bind].
    rewrite (sum_npol_loop h _ _ (row_counts h ps2 Np2)).
    rewrite (sum_nrad_loop h 7 _ _ (column_counts h 7 _ cs2 Hc2 Nc2)).
    cbn [bind].
    unfold total in Ea1, Ea2. rewrite !Z.add_0_l.
    rewrite Ea1. cbn [bind]. rewrite Ea2. reflexivity. }
  exists a1, a1, a2, a2. split; [exact Ea|].
  split; [exact Sa1|]. split; [exact Sa1|].
  split; [exact Sa2|]. split; [exact Sa2|].
  unfold concat_grid. rewrite Hu. cbn [patch_matrix with_objects].
  unfold assemble. rewrite Ea. reflexivity.
Qed.

End Allocation.

Lemma concat_grid_allocation_witness :
  let add_guardc := fun (arr : Array3) (_ _ : Z) => Ok arr in
  let animate_grid := fun self : t => (self, Ok tt) in
  let h := fst (update_counts (objects example_self)
                              (map snd (patches example_self))) in
  npol (h 0%nat) = Some 3 /\ nrad (h 0%nat) = Some 2
  /\ npol (h 1%nat) = Some 2 /\ nrad (h 1%nat) = Some 2
  /\ exists rm1 zm1 rm2 zm2,
       allocate h (patch_matrix example_self) = Ok ((rm1, zm1), (rm2, zm2))
       /\ has_shape rm1 8 5 5 /\ has_shape zm1 8 5 5
       /\ has_shape rm2 8 5 5 /\ has_shape zm2 8 5 5
       /\ concat_grid add_guardc animate_grid example_self
          = finish animate_grid (with_objects example_self h)
              (fill_and_join add_guardc h (patch_matrix example_self)
                 ((rm1, zm1), (rm2, zm2))).
Proof.
  intros add_guardc animate_grid h.
  destruct (concat_grid_allocation add_guardc animate_grid example_self)
    with (row1 := example_row) (ps1 := [0; 1; 0; 1]%nat)
         (cs1 := [0; 0; 0]%nat) (ps2 := [1; 1; 0; 0]%nat)
         (cs2 := [1; 1; 1]%nat)
    as (Hcounts & rm1 & zm1 & rm2 & zm2 & Ea & S1 & S2 & S3 & S4 & Ec).
  - intros a [<-|[<-|[]]]; discriminate.
  - reflexivity.
  - reflexivity.
  - reflexivity.
  - repeat constructor.
  - repeat constructor.
  - intros a Ha. simpl in Ha. simpl.
    repeat (destruct Ha as [<-|Ha]; [tauto|]). contradiction.
  - fold h in Hcounts, Ea, Ec.
    destruct (Hcounts 0%nat) as [N0 R0]; [simpl; tauto|].
    destruct (Hcounts 1%nat) as [N1 R1]; [simpl; tauto|].
    split; [exact N0|]. split; [exact R0|].
    split; [exact N1|]. split; [exact R1|].
    exists rm1, zm1, rm2, zm2.
    split; [exact Ea|]. split; [exact S1|]. split; [exact S2|].
    split; [exact S3|]. split; [exact S4|exact Ec].
Defined.

End AllocationFacts.

(** ** geometry.py: more on Line *)

Module LineOpsFacts.
Import Py PyFacts Geometry GeometrySpec LineFacts FluffFacts LineOps.
Open Scope R_scope.

Lemma store_store_id (h : heap) (a : nat) (l l' : Line) :
  nth_error h a = Some l -> store (store h a l') a l = h.
Proof.
  revert a. induction h as [|l0 h IH]; intros a H; [reflexivity|].
  destruct a; simpl in *; [congruence|]. now rewrite IH.
Qed.

Lemma store_length (h : heap) (a : nat) (l : Line) :
  List.length (store h a l) = List.length h.
Proof.
  revert a. induction h as [|l0 h IH]; intro a; [reflexivity|].
  destruct a; simpl; [reflexivity|]. now rewrite IH.
Qed.

(** X1. [reverse] is its own inverse: called twice on a Line it gives back
    the store it started from, every attribute of every Line included. *)
Theorem reverse_involutive (h : heap) (self : nat) (l : Line) :
  nth_error h self = Some l ->
  exists h1,
    reverse h self = Some (h1, self)
    /\ reverse h1 self = Some (h, self).
Proof.
  intro Hl.
  assert (self < List.length h)%nat as Hlt by (apply nth_error_Some; congruence).
  unfold reverse at 1. rewrite Hl. eexists. split; [reflexivity|].
  unfold reverse. rewrite nth_error_store_same by assumption.
  destruct l as [pp xv yv len]. cbn [p xval yval length].
  rewrite rev_involutive.
  now rewrite (store_store_id h self (mkLine pp xv yv len)).
Qed.

Lemma reverse_involutive_witness :
  let l := Line_init [mkPoint 0 0; mkPoint 3 4] in
  nth_error [l] 0 = Some l
  /\ exists h1, reverse [l] 0 = Some (h1, 0%nat)
                /\ reverse h1 0 = Some ([l], 0%nat).
Proof.
  intro l. split; [reflexivity|].
  exact (reverse_involutive [l] 0 l eq_refl).
Defined.

(** X2. [reverse] turns the points around but leaves the cached [xval],
    [yval] and [length] as they are, whatever they hold: on the reversed
    Line [fluff] returns exactly what it returned before, and the end
    points that [points] reports are swapped. *)
Theorem reverse_keeps_caches (h : heap) (self : nat) (l : Line) :
  nth_error h self = Some l ->
  exists h1 l1,
    reverse h self = Some (h1, self)
    /\ nth_error h1 self = Some l1
    /\ p l1 = rev (p l)
    /\ xval l1 = xval l /\ yval l1 = yval l /\ length l1 = length l
    /\ (forall num, fluff l1 num = fluff l num)
    /\ (forall a b, points l = Ok (a, b) -> points l1 = Ok (b, a)).
Proof.
  intro Hl.
  assert (self < List.length h)%nat as Hlt by (apply nth_error_Some; congruence).
  unfold reverse. rewrite Hl. do 2 eexists.
  split; [reflexivity|]. split; [now apply nth_error_store_same|].
  cbn [p xval yval length]. split; [reflexivity|].
  split; [reflexivity|]. split; [reflexivity|]. split; [reflexivity|].
  split; [reflexivity|].
  { intros a b. unfold points. cbn [p].
    destruct (p l) as [|q qs] eqn:Ep; [discriminate|].
    assert (q :: qs <> []) as Hne by discriminate.
    assert (rev (q :: qs) <> []) as Hne'.
    { intro E. apply (f_equal (@rev Point)) in E.
      rewrite rev_involutive in E. discriminate. }
    rewrite index_0, (index_last _ q Hne). cbn [bind].
    rewrite (index_last _ q Hne').
    destruct (rev (q :: qs)) as [|r rs] eqn:Er; [congruence|].
    rewrite index_0. cbn [bind].
    assert (last (r :: rs) q = q) as Hq.
    { rewrite <- Er. simpl rev. now rewrite last_last. }
    assert (last (q :: qs) q = r) as Hr.
    { rewrite <- (rev_involutive (q :: qs)), Er. simpl rev.
      now rewrite last_last. }
    rewrite Hq, Hr. intro H. injection H as <- <-. reflexivity. }
Qed.

Lemma reverse_keeps_caches_witness :
  let l := Line_init [mkPoint 0 0; mkPoint 3 4] in
  nth_error [l] 0 = Some l
  /\ exists h1 l1,
       reverse [l] 0 = Some (h1, 0%nat)
       /\ nth_error h1 0 = Some l1
       /\ p l1 = [mkPoint 3 4; mkPoint 0 0]
       /\ xval l1 = [0; 3].
Proof.
  intro l. split; [reflexivity|].
  destruct (reverse_keeps_caches [l] 0 l eq_refl)
    as (h1 & l1 & H1 & H2 & H3 & _).
  exists h1, l1. repeat split; try assumption.
  unfold reverse in H1. simpl in H1. injection H1 as <-.
  simpl in H2. injection H2 as <-. reflexivity.
Defined.

(** *** Resampling and reversal *)

Lemma nth_map_seq (f : nat -> R) (m i : nat) (d : R) :
  (i < m)%nat -> nth i (map f (seq 0 m)) d = f i.
Proof.
  intro Hi. rewrite (nth_indep _ d (f 0%nat))
    by (rewrite length_map, length_seq; exact Hi).
  rewrite map_nth, seq_nth by exact Hi. reflexivity.
Qed.

Lemma block_turned (a b : R) (m : nat) :
  (1 <= m)%nat ->
  map (interp b a m) (seq 0 m) ++ [a]
  = b :: rev (map (interp a b m) (seq 0 m)).
Proof.
  intro Hm.
  assert (INR m <> 0) as Hm0 by (apply not_0_INR; lia).
  apply (nth_ext _ _ 0 0).
  { simpl. rewrite length_app, length_rev, !length_map, !length_seq.
    simpl. lia. }
  intros i Hi. rewrite length_app, length_map, length_seq in Hi. simpl in Hi.
  destruct i as [|j].
  - rewrite app_nth1 by (rewrite length_map, length_seq; lia).
    rewrite nth_map_seq by lia. unfold interp. simpl. field. exact Hm0.
  - cbn [nth].
    rewrite rev_nth by (rewrite length_map, length_seq; lia).
    rewrite length_map, length_seq.
    rewrite nth_map_seq by lia.
    destruct (Nat.eq_dec (S j) m) as [E|E].
    + rewrite app_nth2 by (rewrite length_map, length_seq; lia).
      rewrite length_map, length_seq, E, Nat.sub_diag. simpl.
      unfold interp. simpl. field. exact Hm0.
    + rewrite app_nth1 by (rewrite length_map, length_seq; lia).
      rewrite nth_map_seq by lia. unfold interp.
      rewrite (minus_INR m (S j)) by lia. field. exact Hm0.
Qed.

Lemma samples_cons2 (a b : R) (t : list R) (m : nat) :
  samples (a :: b :: t) m = map (interp a b m) (seq 0 m) ++ samples (b :: t) m.
Proof. reflexivity. Qed.

Lemma samples_snoc (u : list R) (a : R) (m : nat) :
  (1 <= m)%nat -> u <> [] ->
  samples (u ++ [a]) m
  = samples u m ++ rev (map (interp a (last u 0) m) (seq 0 m)).
Proof.
  intros Hm. induction u as [|c u IH]; intro Hne; [congruence|].
  destruct u as [|d u].
  - cbn [app last]. rewrite samples_cons2. cbn [samples].
    exact (block_turned a c m Hm).
  - change ((c :: d :: u) ++ [a]) with (c :: d :: (u ++ [a])).
    rewrite !samples_cons2.
    change (d :: u ++ [a]) with ((d :: u) ++ [a]).
    rewrite IH by discriminate. now rewrite app_assoc.
Qed.

Lemma samples_rev (vs : list R) (m : nat) :
  (1 <= m)%nat -> samples (rev vs) m = rev (samples vs m).
Proof.
  intro Hm. induction vs as [|a vs IH]; [reflexivity|].
  destruct vs as [|b t]; [reflexivity|].
  rewrite samples_cons2, rev_app_distr, <- IH.
  change (rev (a :: b :: t)) with (rev (b :: t) ++ [a]).
  rewrite samples_snoc; [|exact Hm|].
  - simpl rev at 2. now rewrite last_last.
  - simpl. intro E. apply app_eq_nil in E. destruct E. discriminate.
Qed.

(** What [fluff] returns on a freshly built Line, for [num >= 1]. *)
Lemma fluff_samples (ps : list Point) (num : Z) :
  ps <> [] -> (1 <= num)%Z ->
  fluff (Line_init ps) num
  = Ok (samples (map x ps) (Z.to_nat num), samples (map y ps) (Z.to_nat num)).
Proof.
  intros Hne Hnum.
  assert (map x ps <> []) as Hx by (destruct ps; simpl; congruence).
  assert (map y ps <> []) as Hy by (destruct ps; simpl; congruence).
  assert (0 < List.length ps)%nat
    by (destruct ps; simpl; [congruence|lia]).
  unfold fluff, range. cbn [xval yval Line_init].
  rewrite Nat.sub_0_r, length_map.
  rewrite fluff_loop by (rewrite ?length_map; lia).
  cbn [bind app].
  rewrite (index_last _ 0 Hx), (index_last _ 0 Hy). cbn [bind].
  rewrite <- (length_map x ps) at 1. rewrite <- (length_map y ps).
  rewrite !blocks_samples by (assumption || lia). reflexivity.
Qed.

(** X3. [fluff] commutes with [reverse_copy]: for a Line built from at
    least one point and [num >= 1], the samples of the reversed copy are
    the samples of the Line in the opposite order. *)
Theorem fluff_reverse_copy (h : heap) (self : nat) (ps : list Point)
    (num : Z) :
  nth_error h self = Some (Line_init ps) -> ps <> [] -> (1 <= num)%Z ->
  exists h1 r1 l1 xf yf,
    reverse_copy h self = Some (h1, r1)
    /\ nth_error h1 r1 = Some l1
    /\ fluff (Line_init ps) num = Ok (xf, yf)
    /\ fluff l1 num = Ok (rev xf, rev yf).
Proof.
  intros Hl Hne Hnum. unfold reverse_copy. rewrite Hl. cbn [p Line_init].
  set (l1 := Line_init (rev ps)).
  exists (fst (alloc h l1)), (snd (alloc h l1)), l1.
  exists (samples (map x ps) (Z.to_nat num)),
         (samples (map y ps) (Z.to_nat num)).
  split; [reflexivity|]. split; [apply nth_error_alloc_new|].
  split; [now apply fluff_samples|].
  unfold l1. rewrite fluff_samples; [|
    intro E; apply (f_equal (@rev Point)) in E;
    rewrite rev_involutive in E; now apply Hne | exact Hnum].
  rewrite !map_rev, !samples_rev by lia. reflexivity.
Qed.

Lemma fluff_reverse_copy_witness :
  let ps := [mkPoint 0 0; mkPoint 2 4] in
  nth_error [Line_init ps] 0 = Some (Line_init ps)
  /\ ps <> [] /\ (1 <= 2)%Z
  /\ exists h1 r1 l1 xf yf,
       reverse_copy [Line_init ps] 0 = Some (h1, r1)
       /\ nth_error h1 r1 = Some l1
       /\ fluff (Line_init ps) 2 = Ok (xf, yf)
       /\ fluff l1 2 = Ok (rev xf, rev yf).
Proof.
  intro ps. split; [reflexivity|]. split; [discriminate|]. split; [lia|].
  apply (fluff_reverse_copy [Line_init ps] 0 ps 2);
    [reflexivity | discriminate | lia].
Defined.

(** *** Length of a polyline and of its chord *)

Lemma dist_nonneg (a b : Point) : 0 <= dist a b.
Proof. apply sqrt_pos. Qed.

Lemma dist_triangle (a b c : Point) : dist a c <= dist a b + dist b c.
Proof.
  assert (forall u v, dist u v = dist_euc (x u) (y u) (x v) (y v)) as E.
  { intros u v. unfold dist, dist_euc, Rsqr. f_equal. ring. }
  rewrite !E. apply triangle.
Qed.

Lemma path_nonneg (ps : list Point) : 0 <= path ps.
Proof.
  induction ps as [|a ps IH]; [simpl; lra|].
  destruct ps as [|b ps]; [simpl; lra|].
  change (path (a :: b :: ps)) with (dist a b + path (b :: ps)).
  pose proof (dist_nonneg a b). lra.
Qed.

Lemma last_cons_default {A : Type} (ps : list A) (a b : A) :
  last (b :: ps) a = last ps b.
Proof.
  revert a b. induction ps as [|c ps IH]; intros a b; [reflexivity|].
  change (last (b :: c :: ps) a) with (last (c :: ps) a).
  now rewrite !IH.
Qed.

Lemma path_chord (a : Point) (ps : list Point) :
  dist a (last ps a) <= path (a :: ps).
Proof.
  revert a. induction ps as [|b ps IH]; intro a.
  - simpl. unfold dist. replace ((x a - x a) ^ 2 + (y a - y a) ^ 2) with 0 by ring.
    rewrite sqrt_0. lra.
  - change (path (a :: b :: ps)) with (dist a b + path (b :: ps)).
    rewrite last_cons_default.
    pose proof (dist_triangle a b (last ps b)). pose proof (IH b). lra.
Qed.

(** X4. [straighten] raises [IndexError] on a Line without points;
    otherwise it returns the two-point Line from the first to the last
    point, whose length is the distance between them and is not negative.
    In exact arithmetic this chord is never longer than the polyline (in
    binary64 the two lengths are rounded sums and can compare either way
    in the last digit). *)
Theorem straighten_chord (l : Line) :
  (p l = [] -> straighten l = Raise IndexError)
  /\ (forall a ps, p l = a :: ps ->
        exists s,
          straighten l = Ok s
          /\ p s = [a; last ps a]
          /\ length s = dist a (last ps a)
          /\ 0 <= length s <= calc_length (p l)).
Proof.
  split.
  - intro E. unfold straighten. now rewrite E.
  - intros a ps E. unfold straighten. rewrite E.
    rewrite index_0, (index_last (a :: ps) a) by discriminate. cbn [bind].
    assert (last (a :: ps) a = last ps a) as ->
      by (destruct ps; reflexivity).
    eexists. split; [reflexivity|]. split; [reflexivity|].
    cbn [length Line_init]. rewrite !calc_length_path.
    assert (path [a; last ps a] = dist a (last ps a)) as ->
      by (simpl; ring).
    split; [reflexivity|]. split; [apply dist_nonneg|apply path_chord].
Qed.

(** *** divisions *)

Lemma interp_first (a b : R) (m : nat) : interp a b m 0 = a.
Proof. unfold interp, Rdiv. simpl. ring. Qed.

Lemma interp_last (a b : R) (m : nat) : INR m <> 0 -> interp a b m m = b.
Proof. intro H. unfold interp. field. exact H. Qed.

Lemma linspace_closed_spec (start stop : R) (num : Z) :
  (2 <= num)%Z ->
  exists vs,
    linspace_closed start stop num = Ok vs
    /\ List.length vs = Z.to_nat num
    /\ forall k, (k < Z.to_nat num)%nat ->
         nth k vs 0 = interp start stop (Z.to_nat num - 1) k.
Proof.
  intro Hnum. unfold linspace_closed, range.
  assert ((num <? 0)%Z = false) as -> by (apply Z.ltb_ge; lia).
  assert ((0 <? num - 1)%Z = true) as -> by (apply Z.ltb_lt; lia).
  assert ((1 <? num)%Z = true) as -> by (apply Z.ltb_lt; lia).
  rewrite Nat.sub_0_r.
  destruct (Z.to_nat num) as [|n] eqn:En; [lia|].
  assert (IZR (num - 1) = INR n) as ->
    by (rewrite INR_IZR_INZ; f_equal; lia).
  assert (INR n <> 0) as Hn0 by (apply not_0_INR; lia).
  rewrite seq_S, map_app. cbn [Nat.add map]. rewrite removelast_last.
  eexists. split; [reflexivity|]. split.
  - rewrite length_app, length_map, length_seq. simpl. lia.
  - intros k Hk. replace (S n - 1)%nat with n by lia.
    destruct (Nat.eq_dec k n) as [->|Hne].
    + rewrite app_nth2 by (rewrite length_map, length_seq; lia).
      rewrite length_map, length_seq, Nat.sub_diag. simpl.
      unfold interp. field. exact Hn0.
    + rewrite app_nth1 by (rewrite length_map, length_seq; lia).
      rewrite nth_map_seq by lia. unfold interp. field. exact Hn0.
Qed.

(** X5. For a Line with at least one point and [num >= 2], [divisions]
    stores [num] abscissas and [num] ordinates, spread evenly on the chord
    from the first point (sample 0, exactly) to the last point (sample
    [num - 1], exactly): the intermediate points of the Line play no
    role. *)
Theorem divisions_spec (l : Line) (a : Point) (ps : list Point) (num : Z) :
  p l = a :: ps -> (2 <= num)%Z ->
  let b := last ps a in
  let n := Z.to_nat num in
  exists xs ys,
    divisions l num = Ok (xs, ys)
    /\ List.length xs = n /\ List.length ys = n
    /\ (forall k, (k < n)%nat ->
          nth k xs 0 = interp (x a) (x b) (n - 1) k
          /\ nth k ys 0 = interp (y a) (y b) (n - 1) k)
    /\ nth 0 xs 0 = x a /\ nth 0 ys 0 = y a
    /\ nth (n - 1) xs 0 = x b /\ nth (n - 1) ys 0 = y b.
Proof.
  intros E Hnum b n. unfold divisions. rewrite E.
  rewrite index_0, (index_last (a :: ps) a) by discriminate.
  rewrite last_cons_default. fold b. cbn [bind].
  destruct (linspace_closed_spec (x a) (x b) num Hnum) as (xs & -> & Lx & Nx).
  destruct (linspace_closed_spec (y a) (y b) num Hnum) as (ys & -> & Ly & Ny).
  cbn [bind]. exists xs, ys. fold n in Lx, Ly, Nx, Ny.
  assert (INR (n - 1) <> 0) as Hn0 by (apply not_0_INR; lia).
  split; [reflexivity|]. split; [exact Lx|]. split; [exact Ly|].
  split; [intros k Hk; split; [now apply Nx|now apply Ny]|].
  rewrite (Nx 0%nat), (Ny 0%nat), (Nx (n - 1)%nat), (Ny (n - 1)%nat) by lia.
  rewrite !interp_first, !interp_last by exact Hn0. tauto.
Qed.

Lemma divisions_spec_witness :
  let l := Line_init [mkPoint 0 0; mkPoint 5 5; mkPoint 2 4] in
  p l = mkPoint 0 0 :: [mkPoint 5 5; mkPoint 2 4] /\ (2 <= 3)%Z
  /\ exists xs ys,
       divisions l 3 = Ok (xs, ys)
       /\ List.length xs = 3%nat
       /\ nth 0 xs 0 = 0 /\ nth 2 xs 0 = 2 /\ nth 2 ys 0 = 4.
Proof.
  intro l. split; [reflexivity|]. split; [lia|].
  destruct (divisions_spec l (mkPoint 0 0) [mkPoint 5 5; mkPoint 2 4] 3
              eq_refl ltac:(lia))
    as (xs & ys & H & Lx & _ & _ & X0 & _ & X2 & Y2).
  exists xs, ys. repeat split; assumption.
Defined.

(** X6. The edge cases of [divisions]: [IndexError] on a Line without
    points, [ValueError] for a negative [num], empty arrays for [num = 0],
    and for [num = 1] the first point alone (the last point is not a
    sample). *)
Theorem divisions_edges (l : Line) :
  (p l = [] -> forall num, divisions l num = Raise IndexError)
  /\ (forall a ps num, p l = a :: ps ->
        ((num < 0)%Z ->
         divisions l num
         = Raise (ValueError (samples_message num)))
        /\ divisions l 0 = Ok ([], [])
        /\ divisions l 1 = Ok ([x a], [y a])).
Proof.
  split.
  - intros E num. unfold divisions. now rewrite E.
  - intros a ps num E. unfold divisions. rewrite E.
    rewrite index_0, (index_last (a :: ps) a) by discriminate.
    cbn [bind]. unfold linspace_closed, range. split; [|split].
    + intro Hneg. apply Z.ltb_lt in Hneg. now rewrite Hneg.
    + reflexivity.
    + cbn [Z.ltb Z.compare Z.sub Z.add Z.opp Z.pos_sub Z.to_nat].
      change (Pos.to_nat 1) with 1%nat. cbn [Nat.sub seq map bind].
      change (1 <? 1)%Z with false. cbv iota.
      f_equal. f_equal; f_equal; simpl; ring.
Qed.

End LineOpsFacts.

(** ** geometry.py: Vector and calc_mid_point *)

Module VectorFacts.
Import Py Vector.
Open Scope R_scope.

Lemma sign_pos r : 0 < r -> sign r = 1%Z.
Proof. intro H. unfold sign. destruct (Rlt_dec 0 r); [reflexivity|tauto]. Qed.

Lemma sign_neg r : r < 0 -> sign r = (-1)%Z.
Proof.
  intro H. unfold sign. destruct (Rlt_dec 0 r); [lra|].
  destruct (Rlt_dec r 0); [reflexivity|tauto].
Qed.

Lemma sign_zero r : sign r = 0%Z <-> r = 0.
Proof.
  unfold sign. destruct (Rlt_dec 0 r); [split; [discriminate|lra]|].
  destruct (Rlt_dec r 0); [split; [discriminate|lra]|]. split; [lra|reflexivity].
Qed.

Lemma mag_sqr (v : t) : mag v * mag v = xnorm v ^ 2 + ynorm v ^ 2.
Proof. unfold mag, norm, arr. cbn [fst snd]. apply sqrt_sqrt. nra. Qed.

Lemma mag_nonneg (v : t) : 0 <= mag v.
Proof. apply sqrt_pos. Qed.

Lemma mag_pos (v : t) : xnorm v <> 0 \/ ynorm v <> 0 -> 0 < mag v.
Proof.
  intro H. unfold mag, norm, arr. cbn [fst snd]. apply sqrt_lt_R0.
  destruct H; nra.
Qed.

(** X7. The magnitude of a Vector is never negative and is zero when the
    Vector sits on its origin; the quadrant is (0, 0) exactly when it does.
    In exact arithmetic the magnitude is zero only there (in binary64 the
    squares of very small components underflow, and the magnitude of a
    Vector off its origin can be 0.0). *)
Theorem mag_zero_iff (xy origin : R * R) :
  let v := init xy origin in
  0 <= mag v
  /\ (mag v = 0 <-> xy = origin)
  /\ (quadrant v = (0, 0)%Z <-> xy = origin).
Proof.
  destruct xy as [a b], origin as [c d]. intro v.
  split; [apply mag_nonneg|].
  assert ((a, b) = (c, d) <-> a - c = 0 /\ b - d = 0) as E.
  { split; [intro H; injection H as -> ->; lra|].
    intros [H1 H2]. f_equal; lra. }
  rewrite E. split.
  - pose proof (mag_sqr v) as Hs. subst v. cbn [xnorm ynorm init fst snd] in Hs.
    split.
    + intro H0. rewrite H0 in Hs.
      pose proof (pow2_ge_0 (a - c)). pose proof (pow2_ge_0 (b - d)).
      assert ((a - c) ^ 2 = 0) as Ha by lra.
      assert ((b - d) ^ 2 = 0) as Hb by lra.
      split; apply Rsqr_0_uniq; unfold Rsqr; lra.
    + intros [H1 H2]. rewrite H1, H2 in Hs.
      pose proof (mag_nonneg (init (a, b) (c, d))). nra.
  - unfold v, init. cbn [quadrant fst snd]. split.
    + intro H. injection H as H1 H2. now rewrite sign_zero in H1, H2.
    + intros [H1 H2]. f_equal; now apply sign_zero.
Qed.

Lemma unit_component (u m : R) (w : R) :
  0 < m -> m * m = u ^ 2 + w ^ 2 -> -1 <= u / m <= 1.
Proof.
  intros Hm Hs.
  assert (u / m * m = u) as E by (field; lra).
  assert (- m <= u <= m) as [H1 H2].
  { pose proof (pow2_ge_0 w). simpl in *. split.
    - destruct (Rle_dec (- m) u); [assumption|]. exfalso. nra.
    - destruct (Rle_dec u m); [assumption|]. exfalso. nra. }
  split.
  - apply (Rmult_le_reg_r m); [exact Hm|]. rewrite E. lra.
  - apply (Rmult_le_reg_r m); [exact Hm|]. rewrite E. lra.
Qed.

Lemma sqrt_unit_complement (u w m : R) :
  0 < m -> m * m = u ^ 2 + w ^ 2 -> m * sqrt (1 - (u / m)²) = Rabs w.
Proof.
  intros Hm Hs.
  assert (Rabs w * Rabs w = w * w) as Hr
    by (rewrite <- Rabs_mult; apply Rabs_right; nra).
  assert (1 - (u / m)² = (Rabs w / m) * (Rabs w / m)) as ->.
  { unfold Rsqr. simpl in Hs. field_simplify_eq; [|lra]. nra. }
  rewrite sqrt_square.
  - field. lra.
  - apply Rmult_le_pos; [apply Rabs_pos|]. apply Rlt_le, Rinv_0_lt_compat, Hm.
Qed.

(** The angle that [calc_mid_point] picks from the quadrant of [v1] is the
    heading of [v1]. *)
Lemma heading (v : t) :
  quadrant v = (sign (xnorm v), sign (ynorm v)) ->
  xnorm v <> 0 -> ynorm v <> 0 ->
  exists angle,
    (if quadrant_is v (1, 1)%Z then Ok (acos (xnorm v / mag v))
     else if quadrant_is v (-1, 1)%Z then Ok (PI - asin (ynorm v / mag v))
     else if quadrant_is v (-1, -1)%Z then
       Ok (PI + atan (ynorm v / xnorm v))
     else if quadrant_is v (1, -1)%Z then Ok (- acos (xnorm v / mag v))
     else Raise (UnboundLocalError "angle")) = Ok angle
    /\ mag v * cos angle = xnorm v
    /\ mag v * sin angle = ynorm v.
Proof.
  intros Hq Hx Hy.
  pose proof (mag_sqr v) as Hs.
  assert (0 < mag v) as Hm by (apply mag_pos; now left).
  pose proof (unit_component (xnorm v) (mag v) (ynorm v) Hm Hs) as Bx.
  assert (mag v * mag v = ynorm v ^ 2 + xnorm v ^ 2) as Hs' by lra.
  pose proof (unit_component (ynorm v) (mag v) (xnorm v) Hm Hs') as By.
  unfold quadrant_is. rewrite Hq. cbn [fst snd].
  destruct (Rlt_dec 0 (xnorm v)) as [Px|Nx];
    destruct (Rlt_dec 0 (ynorm v)) as [Py|Ny].
  - rewrite (sign_pos _ Px), (sign_pos _ Py). cbn.
    eexists. split; [reflexivity|].
    rewrite cos_acos, sin_acos by assumption.
    rewrite (sqrt_unit_complement _ (ynorm v)) by assumption.
    rewrite Rabs_right by lra. split; [field; lra|reflexivity].
  - assert (ynorm v < 0) as Ny' by lra.
    rewrite (sign_pos _ Px), (sign_neg _ Ny'). cbn.
    eexists. split; [reflexivity|].
    rewrite cos_neg, sin_neg, cos_acos, sin_acos by assumption.
    rewrite Ropp_mult_distr_r_reverse.
    rewrite (sqrt_unit_complement _ (ynorm v)) by assumption.
    rewrite Rabs_left by lra. split; [field; lra|ring].
  - assert (xnorm v < 0) as Nx' by lra.
    rewrite (sign_neg _ Nx'), (sign_pos _ Py). cbn.
    eexists. split; [reflexivity|].
    replace (PI - asin (ynorm v / mag v))
      with (- asin (ynorm v / mag v) + PI) by ring.
    rewrite neg_cos, neg_sin, cos_neg, sin_neg, cos_asin, sin_asin
      by assumption.
    rewrite Ropp_mult_distr_r_reverse.
    rewrite (sqrt_unit_complement _ (xnorm v)) by assumption.
    rewrite Rabs_left by lra. split; [ring|field; lra].
  - assert (xnorm v < 0) as Nx' by lra. assert (ynorm v < 0) as Ny' by lra.
    rewrite (sign_neg _ Nx'), (sign_neg _ Ny'). cbn.
    eexists. split; [reflexivity|].
    replace (PI + atan (ynorm v / xnorm v))
      with (atan (ynorm v / xnorm v) + PI) by ring.
    rewrite neg_cos, neg_sin, cos_atan, sin_atan.
    assert (sqrt (1 + (ynorm v / xnorm v)²) = mag v / - xnorm v) as ->.
    { apply sqrt_lem_1.
      - unfold Rsqr. nra.
      - apply Rlt_le, Rdiv_lt_0_compat; lra.
      - unfold Rsqr.
        replace (mag v / - xnorm v * (mag v / - xnorm v))
          with ((mag v * mag v) / (xnorm v * xnorm v)) by (field; lra).
        rewrite Hs. field. lra. }
    split; field; split; lra.
Qed.

Lemma init_off_axes (xy origin : R * R) :
  fst xy <> fst origin -> snd xy <> snd origin ->
  let v := init xy origin in
  quadrant v = (sign (xnorm v), sign (ynorm v))
  /\ xnorm v <> 0 /\ ynorm v <> 0.
Proof.
  intros Hx Hy v. unfold v, init. cbn [quadrant xnorm ynorm].
  split; [reflexivity|]. split; lra.
Qed.

(** On a vector off the axes and a second vector that is not null, the
    result is the tip of [v1] turned counterclockwise about the origin by
    [theta]; on a null second vector it is the pair (nan, nan). *)
Lemma mid_point_turn (v1 v2 : t) :
  quadrant v1 = (sign (xnorm v1), sign (ynorm v1)) ->
  xnorm v1 <> 0 -> ynorm v1 <> 0 ->
  let theta := acos (dot (arr v1) (arr v2) / (mag v1 * mag v2)) / 2 in
  (mag v2 <> 0 ->
   calc_mid_point v1 v2
   = Ok (Some (xorigin v1 + (xnorm v1 * cos theta - ynorm v1 * sin theta),
               yorigin v1 + (xnorm v1 * sin theta + ynorm v1 * cos theta))))
  /\ (mag v2 = 0 -> calc_mid_point v1 v2 = Ok None).
Proof.
  intros Hq Hx Hy theta.
  destruct (heading v1 Hq Hx Hy) as (angle & Ea & Hc & Hs).
  assert (0 < mag v1) as Hpos by (apply mag_pos; now left).
  unfold calc_mid_point. rewrite Ea. cbn [bind]. fold theta.
  split; intro H2.
  - destruct (Req_dec_T (mag v1 * mag v2) 0) as [E|_].
    { exfalso. apply Rmult_integral in E. destruct E; [lra|contradiction]. }
    rewrite cos_plus, sin_plus. f_equal. f_equal. f_equal; f_equal.
    + rewrite <- Hc at 1. rewrite <- Hs at 1. ring.
    + rewrite <- Hc at 1. rewrite <- Hs at 1. ring.
  - destruct (Req_dec_T (mag v1 * mag v2) 0) as [_|N]; [reflexivity|].
    exfalso. apply N. rewrite H2. ring.
Qed.

(** X8. When the first vector lies on one of the axes through its origin
    (its quadrant has a zero), [calc_mid_point] returns nothing: no branch
    assigns [angle], and the call raises [UnboundLocalError]. *)
Theorem calc_mid_point_on_axis (xy origin : R * R) (v2 : t) :
  fst xy = fst origin \/ snd xy = snd origin ->
  calc_mid_point (init xy origin) v2 = Raise (UnboundLocalError "angle").
Proof.
  intro H. unfold calc_mid_point, quadrant_is, init.
  cbn [quadrant fst snd xnorm ynorm].
  destruct H as [H|H].
  - assert (sign (fst xy - fst origin) = 0%Z) as -> by (apply sign_zero; lra).
    reflexivity.
  - assert (sign (snd xy - snd origin) = 0%Z) as -> by (apply sign_zero; lra).
    rewrite !andb_false_r. reflexivity.
Qed.

Lemma calc_mid_point_on_axis_witness :
  (fst (1, 0) = fst (0, 0) \/ snd (1, 0) = snd (0, 0))
  /\ calc_mid_point (init (1, 0) (0, 0)) (init (0, 1) (0, 0))
     = Raise (UnboundLocalError "angle").
Proof.
  split; [right; reflexivity|].
  apply calc_mid_point_on_axis. right. reflexivity.
Defined.

(** X9. In exact arithmetic: when the first vector is off the axes and
    the second one is not null, [calc_mid_point] returns the tip of [v1]
    turned counterclockwise about the origin of [v1] by half the angle
    [acos (v1.v2 / (|v1| |v2|))]; the result is as far from that origin as
    the tip of [v1]. When the magnitude of the second vector is zero, the
    quotient is 0/0 and the function returns the pair (nan, nan). *)
Theorem calc_mid_point_turn (xy origin : R * R) (v2 : t) :
  fst xy <> fst origin -> snd xy <> snd origin ->
  let v1 := init xy origin in
  let theta := acos (dot (arr v1) (arr v2) / (mag v1 * mag v2)) / 2 in
  (mag v2 = 0 -> calc_mid_point v1 v2 = Ok None)
  /\ (mag v2 <> 0 ->
      exists mx my,
        calc_mid_point v1 v2 = Ok (Some (mx, my))
        /\ mx - fst origin = xnorm v1 * cos theta - ynorm v1 * sin theta
        /\ my - snd origin = xnorm v1 * sin theta + ynorm v1 * cos theta
        /\ (mx - fst origin) ^ 2 + (my - snd origin) ^ 2 = mag v1 * mag v1).
Proof.
  intros Hx Hy v1 theta.
  destruct (init_off_axes xy origin Hx Hy) as (Hq & Hxn & Hyn).
  fold v1 in Hq, Hxn, Hyn.
  destruct (mid_point_turn v1 v2 Hq Hxn Hyn) as [Hsome Hnone].
  split; [exact Hnone|]. intro H2.
  do 2 eexists. split; [exact (Hsome H2)|].
  fold theta. change (xorigin v1) with (fst origin).
  change (yorigin v1) with (snd origin).
  split; [ring|]. split; [ring|].
  rewrite mag_sqr. pose proof (sin2_cos2 theta) as H. unfold Rsqr in H.
  replace (fst origin + (xnorm v1 * cos theta - ynorm v1 * sin theta)
           - fst origin)
    with (xnorm v1 * cos theta - ynorm v1 * sin theta) by ring.
  replace (snd origin + (xnorm v1 * sin theta + ynorm v1 * cos theta)
           - snd origin)
    with (xnorm v1 * sin theta + ynorm v1 * cos theta) by ring.
  replace ((xnorm v1 * cos theta - ynorm v1 * sin theta) ^ 2
           + (xnorm v1 * sin theta + ynorm v1 * cos theta) ^ 2)
    with ((xnorm v1 ^ 2 + ynorm v1 ^ 2)
          * (sin theta * sin theta + cos theta * cos theta)) by ring.
  rewrite H. ring.
Qed.

Lemma calc_mid_point_turn_witness :
  fst (1, 1) <> fst (0, 0) /\ snd (1, 1) <> snd (0, 0)
  /\ calc_mid_point (init (1, 1) (0, 0)) (init (0, 0) (0, 0)) = Ok None
  /\ exists mx my,
       calc_mid_point (init (1, 1) (0, 0)) (init (-1, 1) (0, 0))
       = Ok (Some (mx, my))
       /\ (mx - 0) ^ 2 + (my - 0) ^ 2
          = mag (init (1, 1) (0, 0)) * mag (init (1, 1) (0, 0)).
Proof.
  assert (fst (1, 1) <> fst (0, 0)) as H1 by (simpl; lra).
  assert (snd (1, 1) <> snd (0, 0)) as H2 by (simpl; lra).
  split; [exact H1|]. split; [exact H2|]. split.
  - apply (calc_mid_point_turn (1, 1) (0, 0) (init (0, 0) (0, 0)) H1 H2).
    unfold mag, norm, arr, init. cbn [xnorm ynorm fst snd].
    replace ((0 - 0) ^ 2 + (0 - 0) ^ 2) with 0 by ring. apply sqrt_0.
  - destruct (calc_mid_point_turn (1, 1) (0, 0) (init (-1, 1) (0, 0)) H1 H2)
      as [_ H].
    destruct H as (mx & my & E & _ & _ & C).
    + apply Rgt_not_eq. apply mag_pos. left.
      unfold init. cbn [xnorm fst]. lra.
    + exists mx, my. split; assumption.
Defined.

(** X10. The bisector, in exact arithmetic: when the second vector is the
    first one turned counterclockwise by an angle [phi] between 0 and pi
    (the two have the same origin and length), the point returned is the
    tip of [v1] turned by [phi / 2], and it is equally far from the tips of
    the two vectors. (In binary64 the quotient given to [np.arccos] can
    round beyond 1 or -1 when [phi] is 0, pi or close to them, and the
    code then returns (nan, nan).) *)
Theorem calc_mid_point_bisects (xy origin : R * R) (v2 : t) (phi : R) :
  fst xy <> fst origin -> snd xy <> snd origin ->
  0 <= phi <= PI ->
  let v1 := init xy origin in
  xnorm v2 = xnorm v1 * cos phi - ynorm v1 * sin phi ->
  ynorm v2 = xnorm v1 * sin phi + ynorm v1 * cos phi ->
  exists mx my,
    calc_mid_point v1 v2 = Ok (Some (mx, my))
    /\ mx = fst origin
            + (xnorm v1 * cos (phi / 2) - ynorm v1 * sin (phi / 2))
    /\ my = snd origin
            + (xnorm v1 * sin (phi / 2) + ynorm v1 * cos (phi / 2))
    /\ (mx - (fst origin + xnorm v1)) ^ 2
       + (my - (snd origin + ynorm v1)) ^ 2
       = (mx - (fst origin + xnorm v2)) ^ 2
         + (my - (snd origin + ynorm v2)) ^ 2.
Proof.
  intros Hx Hy Hphi v1 Hx2 Hy2.
  destruct (init_off_axes xy origin Hx Hy) as (Hq & Hxn & Hyn).
  fold v1 in Hq, Hxn, Hyn.
  pose proof (sin2_cos2 phi) as Hsc. unfold Rsqr in Hsc.
  pose proof (mag_sqr v1) as Hm1.
  assert (0 < mag v1) as Hpos by (apply mag_pos; now left).
  assert (mag v2 = mag v1) as Hm2.
  { unfold mag, norm, arr. cbn [fst snd]. f_equal. rewrite Hx2, Hy2.
    replace ((xnorm v1 * cos phi - ynorm v1 * sin phi) ^ 2
             + (xnorm v1 * sin phi + ynorm v1 * cos phi) ^ 2)
      with ((xnorm v1 ^ 2 + ynorm v1 ^ 2)
            * (sin phi * sin phi + cos phi * cos phi)) by ring.
    rewrite Hsc. ring. }
  assert (acos (dot (arr v1) (arr v2) / (mag v1 * mag v2)) / 2 = phi / 2)
    as Htheta.
  { f_equal. rewrite <- (acos_cos phi Hphi). f_equal.
    rewrite Hm2, Hm1. unfold dot, arr. cbn [fst snd]. rewrite Hx2, Hy2.
    field. simpl in Hm1. nra. }
  do 2 eexists.
  split; [apply (mid_point_turn v1 v2 Hq Hxn Hyn); rewrite Hm2; lra|].
  rewrite Htheta. change (xorigin v1) with (fst origin).
  change (yorigin v1) with (snd origin).
  split; [reflexivity|]. split; [reflexivity|].
  rewrite Hx2, Hy2.
  assert (cos phi = cos (phi / 2) * cos (phi / 2)
                    - sin (phi / 2) * sin (phi / 2)) as ->
    by (rewrite <- cos_2a; f_equal; field).
  assert (sin phi = 2 * sin (phi / 2) * cos (phi / 2)) as ->
    by (rewrite <- sin_2a; f_equal; field).
  pose proof (sin2_cos2 (phi / 2)) as Hh. unfold Rsqr in Hh.
  set (c := cos (phi / 2)) in *. set (s := sin (phi / 2)) in *.
  set (u := xnorm v1). set (w := ynorm v1).
  assert (forall A B : R, A - B = 0 -> A = B) as Hsub by (intros; lra).
  apply Hsub.
  replace ((fst origin + (u * c - w * s) - (fst origin + u)) ^ 2
           + (snd origin + (u * s + w * c) - (snd origin + w)) ^ 2
           - ((fst origin + (u * c - w * s)
               - (fst origin + (u * (c * c - s * s) - w * (2 * s * c)))) ^ 2
              + (snd origin + (u * s + w * c)
                 - (snd origin + (u * (2 * s * c) + w * (c * c - s * s)))) ^ 2))
    with (- (u ^ 2 + w ^ 2) * (c * c + s * s - 2 * c + 1)
          * (s * s + c * c - 1)) by ring.
  rewrite Hh. ring.
Qed.

Lemma calc_mid_point_bisects_witness :
  let v2 := init (-1, 1) (0, 0) in
  fst (1, 1) <> fst (0, 0) /\ snd (1, 1) <> snd (0, 0) /\ 0 <= PI / 2 <= PI
  /\ exists mx my,
       calc_mid_point (init (1, 1) (0, 0)) v2 = Ok (Some (mx, my))
       /\ (mx - (0 + 1)) ^ 2 + (my - (0 + 1)) ^ 2
          = (mx - (0 + -1)) ^ 2 + (my - (0 + 1)) ^ 2.
Proof.
  intro v2.
  assert (fst (1, 1) <> fst (0, 0)) as H1 by (simpl; lra).
  assert (snd (1, 1) <> snd (0, 0)) as H2 by (simpl; lra).
  assert (0 <= PI / 2 <= PI) as H3 by (pose proof PI_RGT_0; lra).
  split; [exact H1|]. split; [exact H2|]. split; [exact H3|].
  destruct (calc_mid_point_bisects (1, 1) (0, 0) v2 (PI / 2) H1 H2 H3)
    as (mx & my & E & _ & _ & D).
  - unfold v2, init. cbn [xnorm ynorm fst snd].
    rewrite cos_PI2, sin_PI2. ring.
  - unfold v2, init. cbn [xnorm ynorm fst snd].
    rewrite cos_PI2, sin_PI2. ring.
  - exists mx, my. split; [exact E|].
    unfold v2, init in D. cbn [xnorm ynorm fst snd] in D.
    replace (1 - 0) with 1 in D by ring.
    replace (-1 - 0) with (-1) in D by ring. exact D.
Defined.

End VectorFacts.

(** ** test2points and intersect *)

Module PlanarFacts.
Import Py Planar.
Import Vector(sign).
Import VectorFacts.
Open Scope R_scope.

Lemma sign_opp (r : R) : sign (- r) = (- sign r)%Z.
Proof.
  unfold sign.
  destruct (Rlt_dec 0 r), (Rlt_dec r 0), (Rlt_dec 0 (- r)), (Rlt_dec (- r) 0);
    try reflexivity; exfalso; lra.
Qed.

Lemma sign_cases (r : R) :
  (sign r = 1%Z /\ 0 < r) \/ (sign r = (-1)%Z /\ r < 0)
  \/ (sign r = 0%Z /\ r = 0).
Proof.
  unfold sign. destruct (Rlt_dec 0 r); [now left|].
  destruct (Rlt_dec r 0); [right; now left|].
  right; right. split; [reflexivity|lra].
Qed.

(** X11. In exact arithmetic: when [test2points] returns two opposite
    non-zero signs, the segment from [p1] to [p2] meets the straight line
    through the two points of [line]: some point strictly between [p1] and
    [p2] is collinear with them. (In binary64 the two determinants are
    rounded, and a sign can come out wrong for a point within rounding
    distance of the line.) *)
Theorem test2points_opposite_crosses (p1 p2 : R * R) (l : line2) :
  (fst (test2points p1 p2 l) * snd (test2points p1 p2 l) < 0)%Z ->
  exists t, 0 < t < 1
    /\ let px := fst p1 + t * (fst p2 - fst p1) in
       let py := snd p1 + t * (snd p2 - snd p1) in
       (px - fst (fst l)) * (snd (snd l) - snd (fst l))
       = (py - snd (fst l)) * (fst (snd l) - fst (fst l)).
Proof.
  destruct p1 as [x y], p2 as [a b], l as [[x1 y1] [x2 y2]].
  unfold test2points. cbn [fst snd].
  set (d1 := (x - x1) * (y2 - y1) - (y - y1) * (x2 - x1)).
  set (d2 := (a - x1) * (y2 - y1) - (b - y1) * (x2 - x1)).
  intro H.
  assert (d1 - d2 <> 0 /\ 0 < d1 / (d1 - d2) < 1) as [Hd Ht].
  { destruct (sign_cases d1) as [[E1 H1]|[[E1 H1]|[E1 H1]]];
      destruct (sign_cases d2) as [[E2 H2]|[[E2 H2]|[E2 H2]]];
      rewrite E1, E2 in H; try (exfalso; lia).
    - split; [lra|]. split.
      + apply Rdiv_lt_0_compat; lra.
      + apply (Rmult_lt_reg_r (d1 - d2)); [lra|].
        unfold Rdiv. rewrite Rmult_assoc, Rinv_l by lra. lra.
    - split; [lra|].
      replace (d1 / (d1 - d2)) with ((- d1) / (d2 - d1)) by (field; lra).
      split.
      + apply Rdiv_lt_0_compat; lra.
      + apply (Rmult_lt_reg_r (d2 - d1)); [lra|].
        unfold Rdiv. rewrite Rmult_assoc, Rinv_l by lra. lra. }
  exists (d1 / (d1 - d2)). split; [exact Ht|]. cbv zeta.
  apply Rminus_diag_uniq.
  replace ((x + d1 / (d1 - d2) * (a - x) - x1) * (y2 - y1)
           - (y + d1 / (d1 - d2) * (b - y) - y1) * (x2 - x1))
    with (d1 + d1 / (d1 - d2) * (d2 - d1)) by (unfold d1, d2; field; exact Hd).
  field. exact Hd.
Qed.

Lemma test2points_opposite_crosses_witness :
  (fst (test2points (0, 1)%R (0, -1)%R ((-1, 0), (1, 0))%R)
   * snd (test2points (0, 1)%R (0, -1)%R ((-1, 0), (1, 0))%R) < 0)%Z
  /\ exists t, 0 < t < 1
       /\ (0 + t * (0 - 0) - -1) * (0 - 0)
          = (1 + t * (-1 - 1) - 0) * (1 - -1).
Proof.
  assert (fst (test2points (0, 1)%R (0, -1)%R ((-1, 0), (1, 0))%R)
          * snd (test2points (0, 1)%R (0, -1)%R ((-1, 0), (1, 0))%R) < 0)%Z
    as H.
  { unfold test2points. cbn [fst snd].
    rewrite (sign_neg ((0 - -1) * (0 - 0) - (1 - 0) * (1 - -1))) by lra.
    rewrite (sign_pos ((0 - -1) * (0 - 0) - (-1 - 0) * (1 - -1))) by lra.
    reflexivity. }
  split; [exact H|].
  exact (test2points_opposite_crosses (0, 1) (0, -1) ((-1, 0), (1, 0)) H).
Defined.

(** X12. In exact arithmetic: giving the two points of the line in the
    other order negates both signs that [test2points] returns, so that
    whether the signs agree does not depend on the direction of the line.
    (In binary64 the two orders round differently, and for a point within
    rounding distance of the line the signs need not be opposite.) *)
Theorem test2points_line_reversed (p1 p2 a b : R * R) :
  test2points p1 p2 (b, a)
  = ((- fst (test2points p1 p2 (a, b)))%Z,
     (- snd (test2points p1 p2 (a, b)))%Z).
Proof.
  destruct p1 as [x y], p2 as [u v], a as [x1 y1], b as [x2 y2].
  unfold test2points. cbn [fst snd]. rewrite <- !sign_opp.
  f_equal; f_equal; ring.
Qed.

Lemma line_regular (x x1 y1 x2 y2 : R) :
  x2 <> x1 ->
  line x ((x1, y1), (x2, y2)) = (y2 - y1) / (x2 - x1) * (x - x1) + y1.
Proof.
  intro H. unfold line. destruct (Req_dec_T (x2 - x1) 0); [lra|reflexivity].
Qed.

Lemma line_collinear (x y x1 y1 x2 y2 : R) :
  x2 <> x1 ->
  y - line x ((x1, y1), (x2, y2)) = 0
  <-> (x - x1) * (y2 - y1) = (y - y1) * (x2 - x1).
Proof.
  intro H. rewrite line_regular by exact H.
  assert (x2 - x1 <> 0) as Hd by lra.
  split; intro E.
  - assert (y - y1 = (y2 - y1) / (x2 - x1) * (x - x1)) as -> by lra.
    field. exact Hd.
  - assert ((y2 - y1) / (x2 - x1) * (x - x1) = y - y1) as ->; [|ring].
    unfold Rdiv. rewrite (Rmult_comm (y2 - y1)), Rmult_assoc.
    rewrite (Rmult_comm (y2 - y1)), E. field. exact Hd.
Qed.

Lemma f_zero (l1 l2 : line2) (x y : R) :
  f l1 l2 (x, y) = (0, 0) <-> y - line x l1 = 0 /\ y - line x l2 = 0.
Proof.
  unfold f. split.
  - intro H. injection H as H1 H2. now split.
  - intros [H1 H2]. now rewrite H1, H2.
Qed.

(** X13. For two segments that are not vertical: when [fsolve] comes back
    with a zero of the helper [f], the point that [intersect] returns is
    collinear with the two points of each segment, and when the segments
    are not parallel it is the only such point. *)
Theorem intersect_crossing
    (fsolve : (R * R -> R * R) -> R * R -> R * R)
    (a b c d i j p q : R) :
  let line1 := ((a, b), (c, d)) in
  let line2 := ((i, j), (p, q)) in
  c <> a -> p <> i ->
  f line1 line2 (fsolve (f line1 line2) (mean4 a c i p, mean4 b d j q))
  = (0, 0) ->
  let r := fst (intersect fsolve line1 line2) in
  let z := snd (intersect fsolve line1 line2) in
  (r - a) * (d - b) = (z - b) * (c - a)
  /\ (r - i) * (q - j) = (z - j) * (p - i)
  /\ ((d - b) * (p - i) <> (q - j) * (c - a) ->
      forall x y,
        (x - a) * (d - b) = (y - b) * (c - a) ->
        (x - i) * (q - j) = (y - j) * (p - i) ->
        (x, y) = intersect fsolve line1 line2).
Proof.
  intros line1 line2 Hca Hpi Hz r z. subst r z.
  assert (intersect fsolve line1 line2
          = fsolve (f line1 line2) (mean4 a c i p, mean4 b d j q)) as ->.
  { unfold intersect, line1, line2. now destruct (fsolve _ _). }
  destruct (fsolve (f line1 line2) (mean4 a c i p, mean4 b d j q))
    as [r z]. cbn [fst snd].
  apply f_zero in Hz as [H1 H2].
  apply line_collinear in H1; [|exact Hca].
  apply line_collinear in H2; [|exact Hpi].
  split; [exact H1|]. split; [exact H2|].
  intros Hnp x y E1 E2.
  assert ((x - r) * (d - b) = (y - z) * (c - a)) as F1 by lra.
  assert ((x - r) * (q - j) = (y - z) * (p - i)) as F2 by lra.
  assert ((x - r) * ((d - b) * (p - i) - (q - j) * (c - a)) = 0) as G.
  { replace ((x - r) * ((d - b) * (p - i) - (q - j) * (c - a)))
      with ((x - r) * (d - b) * (p - i) - (x - r) * (q - j) * (c - a))
      by ring.
    rewrite F1, F2. ring. }
  apply Rmult_integral in G as [G|G]; [|lra].
  assert (x = r) as -> by lra.
  assert ((y - z) * (c - a) = 0) as K by lra.
  apply Rmult_integral in K as [K|K]; [|lra].
  f_equal. lra.
Qed.

Lemma intersect_crossing_witness :
  let fsolve := fun (_ : R * R -> R * R) (_ : R * R) => (1, 1) in
  2 <> 0 /\ 2 <> 0
  /\ f ((0, 0), (2, 2)) ((0, 2), (2, 0))
       (fsolve (f ((0, 0), (2, 2)) ((0, 2), (2, 0)))
               (mean4 0 2 0 2, mean4 0 2 2 0)) = (0, 0)
  /\ intersect fsolve ((0, 0), (2, 2)) ((0, 2), (2, 0)) = (1, 1)
  /\ forall x y,
       (x - 0) * (2 - 0) = (y - 0) * (2 - 0) ->
       (x - 0) * (0 - 2) = (y - 2) * (2 - 0) ->
       (x, y) = (1, 1).
Proof.
  intro fsolve.
  assert (2 <> 0) as H2 by lra.
  assert (f ((0, 0), (2, 2)) ((0, 2), (2, 0))
            (fsolve (f ((0, 0), (2, 2)) ((0, 2), (2, 0)))
                    (mean4 0 2 0 2, mean4 0 2 2 0)) = (0, 0)) as Hz.
  { unfold fsolve. apply f_zero. rewrite !line_regular by lra.
    split; field. }
  split; [exact H2|]. split; [exact H2|]. split; [exact Hz|].
  split; [reflexivity|].
  pose proof (intersect_crossing fsolve 0 0 2 2 0 2 2 0 H2 H2 Hz) as H.
  cbv zeta in H. destruct H as (_ & _ & H).
  apply H. lra.
Defined.


End PlanarFacts.

(** ** psi_parameterize *)

Module SubgridFacts.
Import Py PyFacts Subgrid.
Open Scope R_scope.

Section Psi.

Variable get_psi : R -> R -> R.

(** The loop of [psi_parameterize], started at point [s] for [k] passes. *)
Lemma psi_loop (r z : list R) (vmin vmax : R) (k s : nat) (acc : list R) :
  (s + k <= List.length r)%nat -> List.length z = List.length r ->
  for_ (seq s k)
       (fun i vparameterization =>
          ri <- index r (Z.of_nat i) ;;
          zi <- index z (Z.of_nat i) ;;
          let vcurr := get_psi ri zi in
          Ok (vparameterization ++ [Rabs ((vcurr - vmin) / (vmax - vmin))]))
       acc
  = Ok (acc ++ map (fun i => Rabs ((get_psi (nth i r 0) (nth i z 0) - vmin)
                                   / (vmax - vmin)))
                   (seq s k)).
Proof.
  revert s acc. induction k as [|k IH]; intros s acc Hs Hlen; simpl.
  - now rewrite app_nil_r.
  - rewrite (index_nat r s 0), (index_nat z s 0) by lia. simpl.
    rewrite IH by lia. now rewrite <- app_assoc.
Qed.

Lemma psi_parameterize_value (r z : list R) :
  r <> [] -> List.length z = List.length r ->
  let n := List.length r in
  let psi := fun i => get_psi (nth i r 0) (nth i z 0) in
  psi_parameterize get_psi r z
  = Ok (map (fun i => Rabs ((psi i - psi 0%nat) / (psi (n - 1)%nat - psi 0%nat)))
            (seq 0 n)).
Proof.
  intros Hr Hlen n psi. unfold psi_parameterize.
  assert (z <> []) as Hz.
  { intro E. rewrite E in Hlen. destruct r; [congruence|discriminate]. }
  assert (0 < n)%nat as Hn by (unfold n; destruct r; [congruence|simpl; lia]).
  rewrite (index_last r 0 Hr), (index_last z 0 Hz). cbn [bind].
  assert (index r 0 = Ok (nth 0 r 0)) as -> by exact (index_nat r 0 0 Hn).
  assert (index z 0 = Ok (nth 0 z 0)) as ->
    by (apply (index_nat z 0 0); rewrite Hlen; exact Hn).
  cbn [bind].
  unfold range. rewrite Nat.sub_0_r.
  rewrite psi_loop by (simpl; lia || assumption). cbn [app].
  rewrite <- (nth_last r 0), <- (nth_last z 0), Hlen. reflexivity.
Qed.

End Psi.

(** X15. On a non-empty list of points, with as many ordinates as
    abscissas and distinct flux values at the two ends, [psi_parameterize]
    returns one parameter per point: the parameter of point [i] is
    [|psi_i - psi_0| / |psi_last - psi_0|], none is negative, the first is
    0 and the last is 1. *)
Theorem psi_parameterize_spec (get_psi : R -> R -> R) (r z : list R) :
  r <> [] -> List.length z = List.length r ->
  let n := List.length r in
  let psi := fun i => get_psi (nth i r 0) (nth i z 0) in
  psi (n - 1)%nat <> psi 0%nat ->
  exists u,
    psi_parameterize get_psi r z = Ok u
    /\ List.length u = n
    /\ (forall i, (i < n)%nat ->
          nth i u 0
          = Rabs (psi i - psi 0%nat) / Rabs (psi (n - 1)%nat - psi 0%nat))
    /\ Forall (fun v => 0 <= v) u
    /\ nth 0 u 0 = 0
    /\ last u 0 = 1.
Proof.
  intros Hr Hlen n psi Hends.
  assert (0 < n)%nat as Hn by (unfold n; destruct r; [congruence|simpl; lia]).
  assert (psi (n - 1)%nat - psi 0%nat <> 0) as Hd by lra.
  set (g := fun i => Rabs ((psi i - psi 0%nat)
                           / (psi (n - 1)%nat - psi 0%nat))).
  assert (forall i, g i
                    = Rabs (psi i - psi 0%nat)
                      / Rabs (psi (n - 1)%nat - psi 0%nat)) as Hg.
  { intro i. unfold g, Rdiv. rewrite Rabs_mult, Rabs_inv. reflexivity. }
  assert (forall i, (i < n)%nat -> nth i (map g (seq 0 n)) 0 = g i) as Hnth.
  { intros i Hi. rewrite (nth_indep _ 0 (g 0%nat))
      by (rewrite length_map, length_seq; exact Hi).
    rewrite map_nth, seq_nth by exact Hi. reflexivity. }
  exists (map g (seq 0 n)).
  split; [exact (psi_parameterize_value get_psi r z Hr Hlen)|].
  split; [now rewrite length_map, length_seq|].
  split; [intros i Hi; rewrite Hnth by exact Hi; apply Hg|].
  split; [|split].
  - apply Forall_forall. intros v Hv. apply in_map_iff in Hv as (i & <- & _).
    apply Rabs_pos.
  - rewrite Hnth by exact Hn. rewrite Hg.
    replace (psi 0%nat - psi 0%nat) with 0 by ring.
    rewrite Rabs_R0. field. now apply Rabs_no_R0.
  - rewrite <- nth_last, length_map, length_seq.
    rewrite Hnth by lia. rewrite Hg. field. now apply Rabs_no_R0.
Qed.

Lemma psi_parameterize_spec_witness :
  let get_psi := fun r z : R => r + z in
  [1; 2; 4] <> [] /\ List.length [0; 0; 0] = List.length [1; 2; 4]
  /\ get_psi 4 0 <> get_psi 1 0
  /\ exists u,
       psi_parameterize get_psi [1; 2; 4] [0; 0; 0] = Ok u
       /\ List.length u = 3%nat /\ nth 0 u 0 = 0 /\ last u 0 = 1.
Proof.
  intro get_psi.
  assert ([1; 2; 4] <> []) as H1 by discriminate.
  assert (List.length [0; 0; 0] = List.length [1; 2; 4]) as H2 by reflexivity.
  assert (get_psi 4 0 <> get_psi 1 0) as H3 by (unfold get_psi; lra).
  split; [exact H1|]. split; [exact H2|]. split; [exact H3|].
  destruct (psi_parameterize_spec get_psi [1; 2; 4] [0; 0; 0] H1 H2 H3)
    as (u & E & L & _ & _ & F & G).
  exists u. repeat split; assumption.
Defined.

(** X16. When the flux is monotone along the points (never decreasing, or
    never increasing) and differs at the two ends, the parameters that
    [psi_parameterize] returns never decrease along the list and stay
    between 0 and 1. *)
Theorem psi_parameterize_monotone (get_psi : R -> R -> R) (r z : list R) :
  r <> [] -> List.length z = List.length r ->
  let n := List.length r in
  let psi := fun i => get_psi (nth i r 0) (nth i z 0) in
  psi (n - 1)%nat <> psi 0%nat ->
  (forall i j, (i <= j < n)%nat -> psi i <= psi j)
  \/ (forall i j, (i <= j < n)%nat -> psi j <= psi i) ->
  exists u,
    psi_parameterize get_psi r z = Ok u
    /\ forall i j, (i <= j < n)%nat -> 0 <= nth i u 0 /\ nth i u 0 <= nth j u 0 <= 1.
Proof.
  intros Hr Hlen n psi Hends Hmono.
  assert (0 < n)%nat as Hn by (unfold n; destruct r; [congruence|simpl; lia]).
  set (D := psi (n - 1)%nat - psi 0%nat).
  assert (D <> 0) as Hd by (unfold D; lra).
  set (g := fun i => Rabs ((psi i - psi 0%nat) / D)).
  assert (forall i, (i < n)%nat -> nth i (map g (seq 0 n)) 0 = g i) as Hnth.
  { intros i Hi. rewrite (nth_indep _ 0 (g 0%nat))
      by (rewrite length_map, length_seq; exact Hi).
    rewrite map_nth, seq_nth by exact Hi. reflexivity. }
  assert (forall i, (i < n)%nat -> g i = (psi i - psi 0%nat) / D) as Hg.
  { intros i Hi. unfold g. apply Rabs_right, Rle_ge.
    destruct Hmono as [Hm|Hm].
    - assert (psi 0%nat <= psi i) by (apply Hm; lia).
      assert (psi 0%nat <= psi (n - 1)%nat) by (apply Hm; lia).
      apply Rmult_le_pos; [lra|].
      left. apply Rinv_0_lt_compat. unfold D. lra.
    - assert (psi i <= psi 0%nat) by (apply Hm; lia).
      assert (psi (n - 1)%nat <= psi 0%nat) by (apply Hm; lia).
      replace ((psi i - psi 0%nat) / D)
        with ((psi 0%nat - psi i) / (- D)) by (field; exact Hd).
      apply Rmult_le_pos; [lra|].
      left. apply Rinv_0_lt_compat. unfold D. lra. }
  exists (map g (seq 0 n)).
  split; [exact (psi_parameterize_value get_psi r z Hr Hlen)|].
  intros i j Hij. rewrite !Hnth by lia.
  assert (0 <= g i) as H0 by (unfold g; apply Rabs_pos).
  split; [exact H0|]. rewrite !Hg by lia.
  destruct Hmono as [Hm|Hm].
  - assert (psi i <= psi j) by (apply Hm; lia).
    assert (psi j <= psi (n - 1)%nat) by (apply Hm; lia).
    assert (psi 0%nat <= psi (n - 1)%nat) by (apply Hm; lia).
    assert (0 < / D) by (apply Rinv_0_lt_compat; unfold D; lra).
    split.
    + apply Rmult_le_compat_r; lra.
    + apply (Rmult_le_reg_r D); [unfold D; lra|].
      unfold Rdiv. rewrite Rmult_assoc, Rinv_l by exact Hd. unfold D. lra.
  - assert (psi j <= psi i) by (apply Hm; lia).
    assert (psi (n - 1)%nat <= psi j) by (apply Hm; lia).
    assert (psi (n - 1)%nat <= psi 0%nat) by (apply Hm; lia).
    assert (0 < / (- D)) by (apply Rinv_0_lt_compat; unfold D; lra).
    replace ((psi i - psi 0%nat) / D)
      with ((psi 0%nat - psi i) / (- D)) by (field; exact Hd).
    replace ((psi j - psi 0%nat) / D)
      with ((psi 0%nat - psi j) / (- D)) by (field; exact Hd).
    split.
    + apply Rmult_le_compat_r; lra.
    + apply (Rmult_le_reg_r (- D)); [unfold D; lra|].
      unfold Rdiv. rewrite Rmult_assoc, Rinv_l by lra. unfold D. lra.
Qed.

Lemma psi_parameterize_monotone_witness :
  let get_psi := fun r z : R => r + z in
  [1; 2; 4] <> [] /\ List.length [0; 0; 0] = List.length [1; 2; 4]
  /\ get_psi 4 0 <> get_psi 1 0
  /\ exists u,
       psi_parameterize get_psi [1; 2; 4] [0; 0; 0] = Ok u
       /\ 0 <= nth 1 u 0 /\ nth 1 u 0 <= nth 2 u 0 <= 1.
Proof.
  intro get_psi.
  assert ([1; 2; 4] <> []) as H1 by discriminate.
  assert (List.length [0; 0; 0] = List.length [1; 2; 4]) as H2 by reflexivity.
  assert (get_psi 4 0 <> get_psi 1 0) as H3 by (unfold get_psi; lra).
  split; [exact H1|]. split; [exact H2|]. split; [exact H3|].
  destruct (psi_parameterize_monotone get_psi [1; 2; 4] [0; 0; 0] H1 H2 H3)
    as (u & E & M).
  - left. intros i j Hij. cbn [List.length] in Hij.
    assert (i = 0 \/ i = 1 \/ i = 2)%nat as Hi by lia.
    assert (j = 0 \/ j = 1 \/ j = 2)%nat as Hj by lia.
    destruct Hi as [-> | [-> | ->]], Hj as [-> | [-> | ->]];
      try (exfalso; lia); unfold get_psi; simpl; lra.
  - exists u. split; [exact E|]. apply M. simpl. lia.
Defined.

End SubgridFacts.

(** ** segment_intersect: which segments it tests *)

Module SegmentMore.
Import Py PyFacts Geometry GeometrySpec SegmentFacts.
Open Scope R_scope.

Lemma index_ok_nth {A : Type} (xs : list A) (i : nat) (a d : A) :
  index xs (Z.of_nat i) = Ok a -> nth i xs d = a.
Proof.
  unfold index.
  assert ((Z.of_nat i <? 0)%Z = false) as -> by (apply Z.ltb_ge; lia).
  destruct (_ && _); [|discriminate].
  rewrite Nat2Z.id. destruct (nth_error xs i) as [b|] eqn:E; [|discriminate].
  intro H. injection H as <-. now apply nth_error_nth.
Qed.

(** X17. When [segment_intersect] returns a pair, its flag is True and
    the two numbers [s], [t] are in [0,1] and satisfy
    [A + s (B - A) = C + t (D - C)], where [A], [C] are the first and second
    point of [line1] and [B], [D] the first and second point of [line2]:
    the segments tested are the one joining the first points of the two
    Lines and the one joining their second points. *)
Theorem segment_intersect_pairing (line1 line2 : Line) (flag : bool)
    (s t : R) :
  segment_intersect line1 line2 = Ok (Some (flag, (s, t))) ->
  let xa := nth 0 (xval line1) 0 in
  let ya := nth 0 (yval line1) 0 in
  let xc := nth 1 (xval line1) 0 in
  let yc := nth 1 (yval line1) 0 in
  let xb := nth 0 (xval line2) 0 in
  let yb := nth 0 (yval line2) 0 in
  let xd := nth 1 (xval line2) 0 in
  let yd := nth 1 (yval line2) 0 in
  flag = true /\ 0 <= s <= 1 /\ 0 <= t <= 1
  /\ xa + s * (xb - xa) = xc + t * (xd - xc)
  /\ ya + s * (yb - ya) = yc + t * (yd - yc).
Proof.
  unfold segment_intersect. intro H.
  destruct (index (xval line1) 0) as [xa|] eqn:Exa; [|discriminate].
  destruct (index (yval line1) 0) as [ya|] eqn:Eya; [|discriminate].
  destruct (index (xval line2) 0) as [xb|] eqn:Exb; [|discriminate].
  destruct (index (yval line2) 0) as [yb|] eqn:Eyb; [|discriminate].
  destruct (index (xval line1) 1) as [xc|] eqn:Exc; [|discriminate].
  destruct (index (yval line1) 1) as [yc|] eqn:Eyc; [|discriminate].
  destruct (index (xval line2) 1) as [xd|] eqn:Exd; [|discriminate].
  destruct (index (yval line2) 1) as [yd|] eqn:Eyd; [|discriminate].
  cbn [bind] in H.
  rewrite (index_ok_nth (xval line1) 0 xa 0 Exa).
  rewrite (index_ok_nth (yval line1) 0 ya 0 Eya).
  rewrite (index_ok_nth (xval line2) 0 xb 0 Exb).
  rewrite (index_ok_nth (yval line2) 0 yb 0 Eyb).
  rewrite (index_ok_nth (xval line1) 1 xc 0 Exc).
  rewrite (index_ok_nth (yval line1) 1 yc 0 Eyc).
  rewrite (index_ok_nth (xval line2) 1 xd 0 Exd).
  rewrite (index_ok_nth (yval line2) 1 yd 0 Eyd).
  cbv zeta.
  destruct (linalg_solve _ _ _ _ _ _) as [[s' t']|] eqn:Es; [|discriminate].
  cbn [bind fst snd] in H.
  destruct (_ && _) eqn:E; [|discriminate].
  injection H as <- <- <-.
  rewrite !andb_true_iff, !Rleb_true in E.
  apply linalg_solve_sound in Es as [E1 E2].
  split; [reflexivity|]. split; [tauto|]. split; [tauto|]. split; lra.
Qed.

Lemma segment_intersect_pairing_witness :
  segment_intersect (Line_init [mkPoint 0 0; mkPoint 0 1])
                    (Line_init [mkPoint 1 0; mkPoint 1 (-1)])
  = Ok (Some (true, (1 / 2, 1 / 2)))
  /\ 0 + 1 / 2 * (1 - 0) = 0 + 1 / 2 * (1 - 0)
  /\ 0 + 1 / 2 * (0 - 0) = 1 + 1 / 2 * (-1 - 1).
Proof.
  assert (segment_intersect (Line_init [mkPoint 0 0; mkPoint 0 1])
                            (Line_init [mkPoint 1 0; mkPoint 1 (-1)])
          = Ok (Some (true, (1 / 2, 1 / 2)))) as H.
  { unfold segment_intersect. cbn [Line_init xval yval map x y].
    rewrite !index_0, !index_1. cbn [bind].
    rewrite linalg_solve_regular by lra. cbn [bind fst snd].
    assert (forall u v, u = 1 / 2 -> v = 1 / 2 ->
              (if Rleb u 1 && Rleb v 1 && Rleb 0 u && Rleb 0 v
               then Ok (Some (true, (u, v))) else Ok None)
              = Ok (Some (true, (1 / 2, 1 / 2)))) as K.
    { intros u v -> ->.
      assert (Rleb (1 / 2) 1 = true) as -> by (apply Rleb_true; lra).
      assert (Rleb 0 (1 / 2) = true) as -> by (apply Rleb_true; lra).
      reflexivity. }
    apply K; field. }
  split; [exact H|].
  pose proof (segment_intersect_pairing _ _ _ _ _ H) as P.
  cbv zeta in P. cbn [Line_init xval yval map x y nth] in P.
  destruct P as (_ & _ & _ & P1 & P2). split; assumption.
Defined.

(** X18. Two Lines of at least two points that start at the same point,
    or whose second points coincide, make [segment_intersect] raise
    [LinAlgError]: a column of the matrix of the system is zero. *)
Theorem segment_intersect_shared_point (a c b d : Point)
    (ps qs : list Point) :
  (x a = x b /\ y a = y b) \/ (x c = x d /\ y c = y d) ->
  segment_intersect (Line_init (a :: c :: ps)) (Line_init (b :: d :: qs))
  = Raise LinAlgError.
Proof.
  intro H. unfold segment_intersect. cbn [Line_init xval yval map].
  rewrite !index_0, !index_1. cbn [bind].
  rewrite linalg_solve_singular; [reflexivity|].
  destruct H as [[-> ->]|[-> ->]]; ring.
Qed.

Lemma segment_intersect_shared_point_witness :
  ((0 = 0 /\ 0 = 0) \/ (1 = 1 /\ 1 = 0))
  /\ segment_intersect (Line_init [mkPoint 0 0; mkPoint 1 1])
                       (Line_init [mkPoint 0 0; mkPoint 1 0])
     = Raise LinAlgError.
Proof.
  split; [left; split; reflexivity|].
  apply (segment_intersect_shared_point
           (mkPoint 0 0) (mkPoint 1 1) (mkPoint 0 0) (mkPoint 1 0) [] []).
  left. split; reflexivity.
Defined.

End SegmentMore.

(** ** SF45: further properties of the methods *)

Module SF45More.
Import Py PyFacts SF45 SF45Spec SF45Facts SF45Cases.
Import Geometry(Point, mkPoint).
Open Scope Z_scope.

(** X19. [GetBoundaryPoints] answers [None] exactly when it is given
    [None], when no patch is registered under the name asked for, or when
    the boundary asked for is none of 'S', 'N', 'E', 'W'. *)
Theorem GetBoundaryPoints_None_iff (self : t)
    (AdjacentPatch : option (string * string)) :
  GetBoundaryPoints self AdjacentPatch = None
  <-> match AdjacentPatch with
      | None => True
      | Some (PatchName, Boundary) =>
          assoc (patches self) PatchName = None
          \/ (Boundary <> "S" /\ Boundary <> "N"
              /\ Boundary <> "E" /\ Boundary <> "W")%string
      end.
Proof.
  destruct AdjacentPatch as [[name b]|]; [|simpl; tauto].
  unfold GetBoundaryPoints.
  induction (patches self) as [|[n a] items IH]; [simpl; tauto|].
  cbn [boundary_of assoc].
  destruct (String.eqb n name); [|exact IH].
  destruct (String.eqb_spec b "S") as [->|HS].
  { split; [discriminate|]. intros [H|H]; [discriminate|tauto]. }
  destruct (String.eqb_spec b "N") as [->|HN].
  { split; [discriminate|]. intros [H|H]; [discriminate|tauto]. }
  destruct (String.eqb_spec b "E") as [->|HE].
  { split; [discriminate|]. intros [H|H]; [discriminate|tauto]. }
  destruct (String.eqb_spec b "W") as [->|HW].
  { split; [discriminate|]. intros [H|H]; [discriminate|tauto]. }
  rewrite IH. tauto.
Qed.

Lemma silent_bind {A B : Type} (c : io A) (k : A -> io B) :
  (forall out, fst (c out) = out) ->
  (forall a out, fst (k a out) = out) ->
  forall out, fst (bind_io c k out) = out.
Proof.
  intros Hc Hk out. unfold bind_io. specialize (Hc out).
  destruct (c out) as [out' [a|e]]; cbn [fst] in Hc; subst out'.
  - apply Hk.
  - reflexivity.
Qed.

(** X20. Whatever the configuration and the patch, a call of [GetNpoints]
    returns no value: it ends with an exception. With [Enforce] set it
    prints nothing on the way. *)
Theorem GetNpoints_never_returns (self : t) (P : Patch) (Enforce : bool)
    (out : list output) :
  (forall v, snd (GetNpoints self P Enforce out) <> Ok v)
  /\ fst (GetNpoints self P true out) = out.
Proof.
  split.
  - intros v H.
    destruct (GetNpoints_always_raises self P Enforce out) as [e He].
    congruence.
  - revert out. unfold GetNpoints.
    repeat first
      [ apply silent_bind; [|intros ?]
      | intro out; reflexivity
      | match goal with
        | p : (_ * _)%type |- _ => destruct p
        | |- context [if ?b then _ else _] => destruct b
        end ].
Qed.

Lemma bind_io_ok {A B : Type} (c : io A) (k : A -> io B) out out' a :
  c out = (out', Ok a) -> bind_io c k out = k a out'.
Proof. intro H. unfold bind_io. now rewrite H. Qed.

(** A computation that only adds to the log and raises no [ValueError]. *)
Lemma lenient_bind {A B : Type} (c : io A) (k : A -> io B) :
  (forall out, (exists w, fst (c out) = out ++ w)
               /\ forall m, snd (c out) <> Raise (ValueError m)) ->
  (forall a out, (exists w, fst (k a out) = out ++ w)
                 /\ forall m, snd (k a out) <> Raise (ValueError m)) ->
  forall out, (exists w, fst (bind_io c k out) = out ++ w)
              /\ forall m, snd (bind_io c k out) <> Raise (ValueError m).
Proof.
  intros Hc Hk out. unfold bind_io. destruct (Hc out) as [[w Hw] Hv].
  destruct (c out) as [out' [a|e]]; cbn [fst snd] in *; subst out'.
  - destruct (Hk a (out ++ w)) as [[w' Hw'] Hv'].
    split; [|exact Hv']. exists (w ++ w'). now rewrite Hw', app_assoc.
  - split; [now exists w|].
    intros m H. apply (Hv m). injection H as ->. reflexivity.
Qed.

Lemma lenient_lookup (self : t) (a b : list string) :
  forall out, (exists w, fst (lift (try_except (setting self a)
                                               (setting self b)) out)
                         = out ++ w)
              /\ forall m, snd (lift (try_except (setting self a)
                                                 (setting self b)) out)
                           <> Raise (ValueError m).
Proof.
  intro out. unfold lift, try_except, setting. cbn [fst snd].
  split; [exists []; now rewrite app_nil_r|].
  intro m. destruct (settings self a); [discriminate|].
  destruct (settings self b); discriminate.
Qed.

Ltac lenient_leaf :=
  let out := fresh "out" in
  intro out; unfold lift, ret, print, setting; cbn [fst snd];
  split;
  [ first [ exists []; now rewrite app_nil_r | eexists; reflexivity ]
  | let m := fresh "m" in
    intro m;
    repeat match goal with
           | |- context [settings ?s ?p] => destruct (settings s p)
           | |- context [match ?o with Some _ => _ | None => _ end] =>
               destruct o
           end;
    discriminate ].

Ltac lenient_steps :=
  repeat first
    [ apply lenient_lookup
    | apply lenient_bind; [|intros ?]
    | match goal with
      | p : (_ * _)%type |- _ => destruct p
      | |- context [if ?b then _ else _] => destruct b
      end
    | lenient_leaf ].

(** X21. With [Enforce] unset, [GetNpoints] raises no [ValueError], and
    what it prints comes after what was printed before. *)
Theorem GetNpoints_lenient_no_ValueError (self : t) (P : Patch)
    (out : list output) :
  (exists w, fst (GetNpoints self P false out) = out ++ w)
  /\ forall m, snd (GetNpoints self P false out) <> Raise (ValueError m).
Proof.
  revert out. unfold GetNpoints. cbv iota. lenient_steps.
Qed.

(** X22. When the three poloidal counts, for SOL, core and PF, are found
    (each under its own key or, failing that, under [np_global]) and those
    for SOL and core differ: with [Enforce] set
    [GetNpoints] raises [ValueError] and prints nothing; with [Enforce]
    unset the first thing it prints is the warning that carries the two
    counts, and it ends with an exception that is not a [ValueError]. *)
Theorem GetNpoints_poloidal_mismatch (self : t) (P : Patch)
    (out : list output) (np_sol np_core np_pf : Z) :
  try_except (setting self (grid_generation "np_sol"))
             (setting self (grid_generation "np_global")) = Ok np_sol ->
  try_except (setting self (grid_generation "np_core"))
             (setting self (grid_generation "np_global")) = Ok np_core ->
  try_except (setting self (grid_generation "np_pf"))
             (setting self (grid_generation "np_global")) = Ok np_pf ->
  np_sol <> np_core ->
  GetNpoints self P true out
  = (out, Raise (ValueError "SOL and CORE must have equal POLOIDAL np values"))
  /\ exists rest e,
       GetNpoints self P false out
       = (out ++ Print "WARNING: SOL and CORE must have equal POLOIDAL np values! Setting np values to the minimum of np_sol={} and np_core={}."
                       [np_sol; np_core] :: rest,
          Raise e)
       /\ forall m, e <> ValueError m.
Proof.
  intros H1 H2 H3 Hne. apply Z.eqb_neq in Hne. split.
  - unfold GetNpoints. rewrite H1, H2, H3.
    rewrite (bind_io_ok _ _ out out np_sol) by reflexivity.
    rewrite (bind_io_ok _ _ out out np_core) by reflexivity.
    rewrite (bind_io_ok _ _ out out np_pf) by reflexivity.
    rewrite Hne. reflexivity.
  - destruct (GetNpoints_always_raises self P false out) as [e He].
    exists (tl (skipn (List.length out) (fst (GetNpoints self P false out)))).
    exists e. revert e He. unfold GetNpoints. rewrite H1, H2, H3.
    rewrite (bind_io_ok _ _ out out np_sol) by reflexivity.
    rewrite (bind_io_ok _ _ out out np_core) by reflexivity.
    rewrite (bind_io_ok _ _ out out np_pf) by reflexivity.
    rewrite Hne. cbv iota. cbn [negb].
    match goal with
    | |- context [bind_io ?c ?k out] =>
        rewrite (bind_io_ok c k out (out ++ [Print "WARNING: SOL and CORE must have equal POLOIDAL np values! Setting np values to the minimum of np_sol={} and np_core={}." [np_sol; np_core]])
                   (Z.min np_sol np_core, Z.min np_sol np_core))
          by reflexivity;
        assert (forall o, (exists w, fst (k (Z.min np_sol np_core,
                                             Z.min np_sol np_core) o)
                                     = o ++ w)
                          /\ forall m,
                               snd (k (Z.min np_sol np_core,
                                       Z.min np_sol np_core) o)
                               <> Raise (ValueError m)) as Hk
          by (cbv beta iota; lenient_steps);
        destruct (Hk (out ++ [Print "WARNING: SOL and CORE must have equal POLOIDAL np values! Setting np values to the minimum of np_sol={} and np_core={}." [np_sol; np_core]]))
          as [[w Hw] Hv];
        destruct (k (Z.min np_sol np_core, Z.min np_sol np_core)
                    (out ++ [Print "WARNING: SOL and CORE must have equal POLOIDAL np values! Setting np values to the minimum of np_sol={} and np_core={}." [np_sol; np_core]]))
          as [o res]
    end.
    cbn [fst snd] in *. intros e He. subst o res.
    split.
    + f_equal. rewrite <- app_assoc. f_equal. cbn [app].
      rewrite skipn_app, skipn_all, Nat.sub_diag. reflexivity.
    + intros m ->. exact (Hv m eq_refl).
Qed.

Lemma GetNpoints_poloidal_mismatch_witness :
  GetNpoints mismatched_self (plain_patch "A1" []) true []
  = ([], Raise (ValueError "SOL and CORE must have equal POLOIDAL np values"))
  /\ exists rest e,
       GetNpoints mismatched_self (plain_patch "A1" []) false []
       = ([] ++ Print "WARNING: SOL and CORE must have equal POLOIDAL np values! Setting np values to the minimum of np_sol={} and np_core={}."
                      [4; 3] :: rest,
          Raise e)
       /\ forall m, e <> ValueError m.
Proof.
  apply (GetNpoints_poloidal_mismatch mismatched_self (plain_patch "A1" [])
           [] 4 3 3); [reflexivity | reflexivity | reflexivity | lia].
Defined.

Lemma update_counts_app (h : nat -> Patch) (xs ys : list nat) :
  snd (update_counts h xs) = Ok tt ->
  update_counts h (xs ++ ys) = update_counts (fst (update_counts h xs)) ys.
Proof.
  revert h. induction xs as [|a xs IH]; intros h H; [reflexivity|].
  cbn [app update_counts] in *.
  destruct (index (cell_grid (h a)) 0) as [row0|e]; [|discriminate].
  now apply IH.
Qed.

Lemma update_counts_other (vals : list nat) (h : nat -> Patch) (x : nat) :
  ~ In x vals -> fst (update_counts h vals) x = h x.
Proof.
  revert h. induction vals as [|a vals IH]; intros h Hx; [reflexivity|].
  cbn [update_counts].
  destruct (index (cell_grid (h a)) 0) as [row0|e]; [|reflexivity].
  rewrite IH by (intro; apply Hx; now right).
  unfold put. destruct (Nat.eqb_spec x a) as [->|]; [|reflexivity].
  exfalso. apply Hx. now left.
Qed.

(** X23. When a registered patch has no row of cells, [concat_grid] raises
    [IndexError] at the first such patch: the patches registered before it
    carry their counts [npol] and [nrad] by then, every other patch object
    is as it was, and no mesh is stored. *)
Theorem concat_grid_unfilled_patch
    (add_guardc : Array3 -> Z -> Z -> result Array3)
    (animate_grid : t -> t * result unit) (self : t)
    (pre post : list (string * nat)) (name : string) (a : nat) :
  patches self = pre ++ (name, a) :: post ->
  (forall b, In b (map snd pre) -> cell_grid (objects self b) <> []) ->
  cell_grid (objects self a) = [] ->
  let out := concat_grid add_guardc animate_grid self in
  snd out = Raise IndexError
  /\ (forall b, In b (map snd pre) ->
        npol (objects (fst out) b)
        = Some (Z.of_nat (width (objects self b)) + 1)
        /\ nrad (objects (fst out) b)
           = Some (Z.of_nat (height (objects self b)) + 1))
  /\ (forall b, ~ In b (map snd pre) ->
        objects (fst out) b = objects self b)
  /\ rm (fst out) = rm self /\ zm (fst out) = zm self.
Proof.
  intros Hp Hpre Ha out.
  assert (forall b, In b (map snd pre) -> height (objects self b) <> 0%nat)
    as Hfilled.
  { intros b Hb. unfold height. specialize (Hpre b Hb).
    destruct (cell_grid (objects self b)); [congruence|discriminate]. }
  destruct (ConcatFacts.update_counts_ok (map snd pre) (objects self) Hfilled)
    as [Hok Hcounted].
  pose proof (ConcatFacts.update_counts_cell_grid (map snd pre) (objects self))
    as Hg.
  assert (update_counts (objects self) (map snd (patches self))
          = (fst (update_counts (objects self) (map snd pre)),
             Raise IndexError)) as Hu.
  { rewrite Hp, map_app. rewrite update_counts_app by exact Hok.
    cbn [map snd update_counts]. rewrite Hg, Ha. reflexivity. }
  subst out. unfold concat_grid. rewrite Hu. cbn [fst snd].
  cbn [objects with_objects rm zm].
  split; [reflexivity|]. split; [|split].
  - intros b Hb. destruct (Hcounted b (or_introl Hb)) as (Hn & Hr & _).
    unfold width, height in *. rewrite Hg in Hn, Hr. now split.
  - intros b Hb. now apply update_counts_other.
  - destruct self; split; reflexivity.
Qed.

Lemma concat_grid_unfilled_patch_witness :
  let out := concat_grid (fun arr _ _ => Ok arr) (fun self => (self, Ok tt))
                         unfilled_self in
  snd out = Raise IndexError
  /\ npol (objects (fst out) 0%nat) = Some 3
  /\ objects (fst out) 1%nat = patch_B.
Proof.
  intro out.
  destruct (concat_grid_unfilled_patch
              (fun arr _ _ => Ok arr) (fun self => (self, Ok tt))
              unfilled_self [("A"%string, 0%nat)] [("B"%string, 1%nat)]
              "C"%string 2%nat)
    as (H1 & H2 & H3 & _).
  - reflexivity.
  - intros b [<-|[]]. discriminate.
  - reflexivity.
  - split; [exact H1|]. split.
    + apply (H2 0%nat). now left.
    + apply (H3 1%nat). intros [H|[]]. discriminate.
Defined.

Lemma sum_npol_AttributeError (h : nat -> Patch) (es : list entry) (e : entry) :
  In e es -> entry_npol h e = Raise AttributeError ->
  sum_npol h es = Raise AttributeError.
Proof.
  unfold sum_npol. generalize 0. intros acc Hin He.
  revert acc. induction es as [|e' es IH]; intro acc; [destruct Hin|].
  cbn [for_].
  destruct (entry_npol h e') as [v|x] eqn:E'; cbn [bind].
  - destruct Hin as [->|Hin]; [congruence|]. now apply IH.
  - destruct e' as [|b]; cbn [entry_npol] in E'.
    + now injection E' as <-.
    + unfold attr in E'. destruct (npol (h b)); [discriminate|].
      now injection E' as <-.
Qed.

(** X24. When every registered patch has cells, and one of the entries in
    columns 1 to 4 of row 1 of the patch matrix is the placeholder
    [[None]] or a patch object that is not registered and has no [npol],
    [concat_grid] raises [AttributeError] while it sums the counts, before
    any array is allocated. *)
Theorem concat_grid_placeholder
    (add_guardc : Array3 -> Z -> Z -> result Array3)
    (animate_grid : t -> t * result unit) (self : t)
    (row1 : list entry) (e : entry) :
  (forall b, In b (map snd (patches self)) ->
             cell_grid (objects self b) <> []) ->
  nth_error (patch_matrix self) 1 = Some row1 ->
  In e (slice row1 1 5) ->
  e = NoPatch
  \/ (exists a, e = PatchAt a /\ ~ In a (map snd (patches self))
                /\ npol (objects self a) = None) ->
  snd (concat_grid add_guardc animate_grid self) = Raise AttributeError.
Proof.
  intros Hall Hrow Hin He.
  assert (forall b, In b (map snd (patches self)) ->
                    height (objects self b) <> 0%nat) as Hfilled.
  { intros b Hb. unfold height. specialize (Hall b Hb).
    destruct (cell_grid (objects self b)); [congruence|discriminate]. }
  destruct (ConcatFacts.update_counts_ok _ (objects self) Hfilled)
    as [Hok _].
  pose proof (update_counts_other (map snd (patches self)) (objects self))
    as Hother.
  unfold concat_grid.
  destruct (update_counts (objects self) (map snd (patches self)))
    as [h r]. cbn [fst snd] in Hok, Hother. subst r.
  cbn [patch_matrix with_objects].
  assert (entry_npol h e = Raise AttributeError) as Hraise.
  { destruct He as [->|(a & -> & Hna & Hnone)]; [reflexivity|].
    cbn [entry_npol]. rewrite Hother by exact Hna. now rewrite Hnone. }
  assert (assemble add_guardc h (patch_matrix self) = Raise AttributeError)
    as ->; [|reflexivity].
  unfold assemble, allocate, totals.
  assert (index (patch_matrix self) 1 = Ok row1) as ->
    by exact (ConcatFacts.index_nth_error (patch_matrix self) 1 row1 Hrow).
  cbn [bind].
  now rewrite (sum_npol_AttributeError h _ e Hin Hraise).
Qed.

Lemma concat_grid_placeholder_witness :
  snd (concat_grid (fun arr _ _ => Ok arr) (fun self => (self, Ok tt))
                   holed_self)
  = Raise AttributeError.
Proof.
  apply (concat_grid_placeholder _ _ holed_self holed_row NoPatch).
  - intros b [<-|[<-|[]]]; discriminate.
  - reflexivity.
  - simpl. right. now left.
  - now left.
Defined.

End SF45More.

(** ** Root_Finder.py: what a session can store in final_root *)

Module RootFinderFacts.
Import Py RootFinder.
Open Scope R_scope.

Section Instance.

Variable Controller : Type.
Variable get_psi : R -> R -> option string -> R.
Variable root : (R * R -> R * R) -> R * R -> R * R.

Lemma Rltb_true (a b : R) : Rltb a b = true <-> a < b.
Proof.
  unfold Rltb. destruct (Rlt_dec a b); split; intros; auto; discriminate.
Qed.

(** What no method changes, and what one call of [find_root] or
    [find_psi] does to [final_root]. *)
Lemma find_root_frame (self : t Controller) (x y : R) :
  let self' := fst (fst (find_root get_psi root self x y)) in
  grid self' = grid self /\ root_finding self' = root_finding self
  /\ psi_finding self' = psi_finding self
  /\ controller self' = controller self
  /\ (controller self = None -> final_root self' = final_root self)
  /\ (final_root self' = final_root self
      \/ exists r z, final_root self' = Some (r, z)
           /\ rmin (grid self) < r < rmax (grid self)
           /\ zmin (grid self) < z < zmax (grid self)).
Proof.
  unfold find_root. destruct (controller self) as [c|] eqn:Ec.
  - destruct (_ || _) eqn:E; cbn [fst snd set_final_root grid root_finding
                                  psi_finding controller final_root].
    + repeat split; auto.
    + repeat split; auto; [discriminate|]. right.
      apply orb_false_iff in E as [E1 E2].
      apply negb_false_iff, andb_true_iff in E1 as [A1 A2].
      apply negb_false_iff, andb_true_iff in E2 as [B1 B2].
      apply Rltb_true in A1, A2, B1, B2.
      do 2 eexists. split; [reflexivity|]. split; split; assumption.
  - cbn [fst snd]. repeat split; auto.
Qed.

Lemma find_psi_frame (self : t Controller) (x y : R) :
  fst (fst (find_psi get_psi self x y)) = self.
Proof. unfold find_psi. now destruct (controller self). Qed.

Lemma toggle_frame (self : t Controller) :
  let self' := toggle_root_finding self in
  grid self' = grid self /\ psi_finding self' = psi_finding self
  /\ controller self' = controller self
  /\ final_root self' = final_root self.
Proof.
  unfold toggle_root_finding. destruct (root_finding self); repeat split.
Qed.

(** One event, in a mode where [root_finding] or [psi_finding] is set. *)
Lemma call_frame (self : t Controller) (event : Event) :
  root_finding self = true \/ psi_finding self = true ->
  let self' := fst (fst (call_ get_psi root self event)) in
  grid self' = grid self /\ root_finding self' = root_finding self
  /\ psi_finding self' = psi_finding self
  /\ controller self' = controller self
  /\ (controller self = None -> final_root self' = final_root self)
  /\ (final_root self' = final_root self
      \/ exists r z, final_root self' = Some (r, z)
           /\ rmin (grid self) < r < rmax (grid self)
           /\ zmin (grid self) < z < zmax (grid self)).
Proof.
  intro Hmode. unfold call_.
  destruct (button event =? 3)%Z.
  { destruct (cid self); cbn [fst snd]; repeat split; auto. }
  destruct (negb (inaxes event)).
  { cbn [fst snd]. repeat split; auto. }
  set (s := set_curr self (xdata event) (ydata event)).
  assert (grid s = grid self /\ root_finding s = root_finding self
          /\ psi_finding s = psi_finding self
          /\ controller s = controller self
          /\ final_root s = final_root self) as (G & RF & PF & C & F)
    by (repeat split).
  destruct (root_finding s) eqn:Er.
  - pose proof (find_root_frame s (curr_x s) (curr_y s)) as H.
    cbv zeta in H. rewrite G, C, F in H.
    destruct H as (H1 & H2 & H3 & H4 & H5 & H6).
    cbv zeta. split; [exact H1|]. split; [congruence|].
    split; [congruence|]. split; [exact H4|]. split; [exact H5|exact H6].
  - destruct (psi_finding s) eqn:Ep.
    + rewrite find_psi_frame. repeat split; auto.
    + exfalso. destruct Hmode; congruence.
Qed.

(** X25. A [RootFinder] whose [final_root] is empty or strictly inside the
    grid keeps it so through any series of mouse events and toggles when
    [psi_finding] is set, and through any series of mouse events when
    [root_finding] is set: in these modes a click never stores the raw
    click position, and [find_root] stores a zero only after checking it
    against the grid bounds. *)
Theorem run_keeps_root_inside (self : t Controller) (actions : list action) :
  psi_finding self = true
  \/ (root_finding self = true /\ forallb is_click actions = true) ->
  root_inside self ->
  root_inside (run get_psi root self actions).
Proof.
  unfold run. revert self.
  induction actions as [|a actions IH]; intros self Hmode Hin; [exact Hin|].
  cbn [fold_left]. apply IH.
  - destruct a as [event|]; cbn [step].
    + assert (root_finding self = true \/ psi_finding self = true) as Hm
        by tauto.
      destruct (call_frame self event Hm) as (_ & RF & PF & _).
      rewrite RF, PF. cbn [forallb is_click andb] in Hmode. exact Hmode.
    + destruct (toggle_frame self) as (_ & PF & _).
      rewrite PF. destruct Hmode as [H|[_ H]]; [now left|discriminate].
  - destruct a as [event|]; cbn [step].
    + assert (root_finding self = true \/ psi_finding self = true) as Hm
        by tauto.
      destruct (call_frame self event Hm) as (G & _ & _ & _ & _ & H).
      unfold root_inside in *. rewrite G.
      destruct H as [->|(r & z & -> & Hr & Hz)]; [exact Hin|now split].
    + destruct (toggle_frame self) as (G & _ & _ & F).
      unfold root_inside in *. now rewrite G, F.
Qed.

(** X26. Without a controller (the default of the constructor), no series
    of mouse events and toggles changes [final_root] when [psi_finding] is
    set, and no series of mouse events does when [root_finding] is set:
    [find_root] and [find_psi] raise [AttributeError] before they store
    anything. *)
Theorem run_without_controller (self : t Controller) (actions : list action) :
  controller self = None ->
  psi_finding self = true
  \/ (root_finding self = true /\ forallb is_click actions = true) ->
  final_root (run get_psi root self actions) = final_root self.
Proof.
  unfold run. revert self.
  induction actions as [|a actions IH]; intros self Hc Hmode; [reflexivity|].
  cbn [fold_left]. destruct a as [event|]; cbn [step].
  - assert (root_finding self = true \/ psi_finding self = true) as Hm
      by tauto.
    destruct (call_frame self event Hm) as (_ & RF & PF & C & F & _).
    rewrite IH.
    + now apply F.
    + now rewrite C.
    + rewrite RF, PF. cbn [forallb is_click andb] in Hmode. exact Hmode.
  - destruct (toggle_frame self) as (_ & PF & C & F).
    rewrite IH.
    + exact F.
    + now rewrite C.
    + rewrite PF. destruct Hmode as [H|[_ H]]; [now left|discriminate].
Qed.

End Instance.

Lemma run_keeps_root_inside_witness :
  let self := fst (init 7 (mkGrid 0 10 0 10) true "root_finder"
                        (Some tt)) in
  let actions := [Click (mkEvent 1 true 5 5)] in
  (psi_finding self = true
   \/ (root_finding self = true /\ forallb is_click actions = true))
  /\ root_inside self
  /\ root_inside (run (fun _ _ _ => 0) (fun _ xy => xy) self actions).
Proof.
  intros self actions.
  assert (psi_finding self = true
          \/ (root_finding self = true
              /\ forallb is_click actions = true)) as H1
    by (right; split; reflexivity).
  assert (root_inside self) as H2 by exact I.
  split; [exact H1|]. split; [exact H2|].
  exact (run_keeps_root_inside unit (fun _ _ _ => 0) (fun _ xy => xy)
           self actions H1 H2).
Defined.

Lemma run_without_controller_witness :
  let self := fst (init (Controller := unit) 7 (mkGrid 0 10 0 10) false
                        "psi_finder" None) in
  let actions := [Click (mkEvent 1 true 5 5); Toggle;
                  Click (mkEvent 1 true 6 6)] in
  controller self = None
  /\ (psi_finding self = true
      \/ (root_finding self = true /\ forallb is_click actions = true))
  /\ final_root (run (fun _ _ _ => 0) (fun _ xy => xy) self actions)
     = None.
Proof.
  intros self actions.
  assert (psi_finding self = true
          \/ (root_finding self = true
              /\ forallb is_click actions = true)) as H1
    by (left; reflexivity).
  split; [reflexivity|]. split; [exact H1|].
  exact (run_without_controller unit (fun _ _ _ => 0) (fun _ xy => xy)
           self actions eq_refl H1).
Defined.

End RootFinderFacts.
